(** * Barter Charter: the simulation engine and its round-closing endpoint

    A shallow embedding of [game_engine.py] (commodities, teams, trades,
    ratio/price updates, the initial-portfolio generator, penalties) and of the
    stateful endpoints of [server.py], followed by the properties of the
    engine's specification.

    Conventions of the embedding

    - Python [int] is [Z]; Python [float] is the kernel's binary64 [float],
      so every float operation below rounds exactly as CPython's does.
    - A Python [dict] whose iteration order is observable (commodities, teams,
      the legs of a trade, net demand) is an association list in insertion
      order; holdings and penalties, only read and written by key, are [gmap]s.
    - Python objects mutated in place are held in a store keyed by their
      dictionary key: the teams dictionary maps each name to its own [Team]
      object, so two names alias exactly when they are the same key.
    - A function that can raise returns a [res]; a function that mutates and
      can raise returns the result together with the state it leaves behind. *)

From Stdlib Require Import ZArith Lia Ascii PrimFloat FloatOps SpecFloat FloatAxioms Sorted.
From stdpp Require Import gmap strings list fin_maps pretty.

Set Warnings "-inexact-float".
Local Open Scope Z_scope.

(* ===================================================================== *)
(** ** Exceptions and results *)
(* ===================================================================== *)

(** An exception carries what [str(e)] is made of: its message, or for a
    [KeyError] the missing key. *)
Inductive exn : Type :=
| ValueError (msg : string)
| KeyError (key : string)
| OverflowError (msg : string)
| ZeroDivisionError (msg : string).

Inductive res (A : Type) : Type :=
| Ok (a : A)
| Raise (e : exn).
Arguments Ok {A} a.
Arguments Raise {A} e.

#[global] Instance res_ret : MRet res := fun A a => Ok a.
#[global] Instance res_bind : MBind res := fun A B k r =>
  match r with
  | Ok a => k a
  | Raise e => Raise e
  end.

Definition is_ok {A} (r : res A) : bool :=
  match r with Ok _ => true | Raise _ => false end.

(* ===================================================================== *)
(** ** Python's float operations on binary64 *)
(* ===================================================================== *)

Module PyFloat.

(** [m * 2^e] rounded to nearest, ties to even. *)
Definition of_scaled (m e : Z) (szero : bool) : float :=
  SF2Prim (binary_normalize prec emax m e szero).

(** [float(n)], also the implicit conversion of an [int] operand in mixed
    arithmetic: OverflowError once [n] rounds beyond the largest double. *)
Definition of_int (n : Z) : res float :=
  if Z.abs n <? 2 ^ 1024 - 2 ^ 970
  then Ok (of_scaled n 0 false)
  else Raise (OverflowError "int too large to convert to float").

(** [int(x)]: truncation towards zero. *)
Definition to_int (x : float) : res Z :=
  match Prim2SF x with
  | S754_nan => Raise (ValueError "cannot convert float NaN to integer")
  | S754_infinity _ => Raise (OverflowError "cannot convert float infinity to integer")
  | S754_zero _ => Ok 0
  | S754_finite s m e =>
      let v := if 0 <=? e then Z.pos m * 2 ^ e else Z.pos m / 2 ^ (- e) in
      Ok (if s then - v else v)
  end.

(** [round(x)] with one argument: the nearest integer, ties to even. *)
Definition round (x : float) : res Z :=
  match Prim2SF x with
  | S754_nan => Raise (ValueError "cannot convert float NaN to integer")
  | S754_infinity _ => Raise (OverflowError "cannot convert float infinity to integer")
  | S754_zero _ => Ok 0
  | S754_finite s m e =>
      let v :=
        if 0 <=? e then Z.pos m * 2 ^ e
        else
          let d := 2 ^ (- e) in
          let q := Z.pos m / d in
          match 2 * (Z.pos m mod d) ?= d with
          | Lt => q
          | Gt => q + 1
          | Eq => if Z.even q then q else q + 1
          end in
      Ok (if s then - v else v)
  end.

(** C's [floor]. *)
Definition floor (x : float) : float :=
  match Prim2SF x with
  | S754_finite s m e =>
      if 0 <=? e then x
      else of_scaled ((if s then Z.neg m else Z.pos m) / 2 ^ (- e)) 0 s
  | _ => x
  end.

(** C's [fmod]: the exact remainder, with the sign of [x]. *)
Definition fmod (x y : float) : float :=
  match Prim2SF x, Prim2SF y with
  | S754_nan, _ | _, S754_nan => nan
  | S754_infinity _, _ | _, S754_zero _ => nan
  | _, S754_infinity _ => x
  | S754_zero _, _ => x
  | S754_finite sx mx ex, S754_finite _ my ey =>
      let e := Z.min ex ey in
      let r := (Z.pos mx * 2 ^ (ex - e)) mod (Z.pos my * 2 ^ (ey - e)) in
      of_scaled (if sx then - r else r) e sx
  end.

Definition nonzero (x : float) : bool := negb (x =? 0)%float.

(** [vx // wx] on floats, as CPython's [float_divmod] computes it. *)
Definition floordiv (vx wx : float) : res float :=
  if (wx =? 0)%float then Raise (ZeroDivisionError "float floor division by zero")
  else
    let md := fmod vx wx in
    let dv := ((vx - md) / wx)%float in
    let dv :=
      if nonzero md && xorb (wx <? 0)%float (md <? 0)%float
      then (dv - 1)%float else dv in
    Ok (if nonzero dv
        then
          let fl := floor dv in
          if (0.5 <? dv - fl)%float then (fl + 1)%float else fl
        else if get_sign (vx / wx)%float then (-0)%float else 0%float).

(** Python's [bool(x)] for a float. *)
Definition truthy (x : float) : bool := nonzero x.

End PyFloat.

(** Rupee price of one unit of the base commodity. *)
Definition BASE_PRICE_RS : float := 1000%float.

(* ===================================================================== *)
(** ** Insertion-ordered dictionaries *)
(* ===================================================================== *)

Definition dict (V : Type) : Type := list (string * V).

Fixpoint dict_get {V} (k : string) (d : dict V) : option V :=
  match d with
  | [] => None
  | (k', v) :: d' => if decide (k = k') then Some v else dict_get k d'
  end.

(** [d[k] = v]: an existing key keeps its position, a new key goes last. *)
Fixpoint dict_set {V} (k : string) (v : V) (d : dict V) : dict V :=
  match d with
  | [] => [(k, v)]
  | (k', v') :: d' =>
      if decide (k = k') then (k, v) :: d' else (k', v') :: dict_set k v d'
  end.

Definition dict_keys {V} (d : dict V) : list string := d.*1.
Definition dict_values {V} (d : dict V) : list V := d.*2.

(** [for k, v in d.items(): ...] where the body updates the object [v] in
    place, threads local variables [a] and may raise; an exception stops the
    loop and leaves the earlier objects updated. The body returns the object
    as it leaves it, also when it raises. *)
Fixpoint dict_for {V A} (body : A -> string -> V -> res A * V)
    (a : A) (d : dict V) : res A * dict V :=
  match d with
  | [] => (Ok a, [])
  | (k, v) :: d' =>
      match body a k v with
      | (Ok a', v') =>
          let '(r, d'') := dict_for body a' d' in (r, (k, v') :: d'')
      | (Raise e, v') => (Raise e, (k, v') :: d')
      end
  end.

(** The same loop when the body only updates the object it visits and
    writes it last, so that the object is untouched if the body raises. *)
Definition dict_for_each {V} (body : string -> V -> res V) (d : dict V)
    : res unit * dict V :=
  dict_for (fun _ k v =>
              match body k v with
              | Ok v' => (Ok tt, v')
              | Raise e => (Raise e, v)
              end) tt d.

(* ===================================================================== *)
(** ** Data classes *)
(* ===================================================================== *)

Module Commodity.
(** [alloc_min_units] and [alloc_max_units] are attributes the portfolio
    generator adds to the object; [None] is "attribute not set". *)
Record t : Type := mk {
  name : string;
  price : float;
  base_ratio : Z;
  min_units : Z;
  max_units : Z;
  alloc_min_units : option Z;
  alloc_max_units : option Z
}.
(** [Commodity(name=..., price=..., base_ratio=...)] *)
Definition new (n : string) (p : float) (r : Z) : t :=
  mk n p r 0 0 None None.
Definition with_price (p : float) (c : t) : t :=
  mk (name c) p (base_ratio c) (min_units c) (max_units c)
     (alloc_min_units c) (alloc_max_units c).
Definition with_base_ratio (r : Z) (c : t) : t :=
  mk (name c) (price c) r (min_units c) (max_units c)
     (alloc_min_units c) (alloc_max_units c).
Definition with_alloc (lo hi : Z) (c : t) : t :=
  mk (name c) (price c) (base_ratio c) (min_units c) (max_units c)
     (Some lo) (Some hi).
Definition with_hold (lo hi : Z) (c : t) : t :=
  mk (name c) (price c) (base_ratio c) lo hi
     (alloc_min_units c) (alloc_max_units c).
End Commodity.

Module Team.
Record t : Type := mk {
  name : string;
  holdings : gmap string Z
}.
(** [Team(name=...)] *)
Definition new (n : string) : t := mk n ∅.
Definition with_holdings (h : gmap string Z) (tm : t) : t := mk (name tm) h.
(** [self.holdings.get(cname, 0)] *)
Definition qty (tm : t) (cname : string) : Z := default 0 (holdings tm !! cname).
End Team.

Module Trade.
Record t : Type := mk {
  round_no : Z;
  from_team : string;
  to_team : string;
  give : dict Z;
  receive : dict Z
}.
(** The unordered pair [{tr.from_team, tr.to_team}]. *)
Definition pair (tr : t) : gset string := {[ from_team tr; to_team tr ]}.
End Trade.

Module RoundInfo.
Record t : Type := mk {
  round_no : Z;
  news : string
}.
End RoundInfo.

Module GameState.
(** [round_open_ratios] is the attribute [start_round] adds; [None] before
    the first round. *)
Record t : Type := mk {
  commodities : dict Commodity.t;
  teams : dict Team.t;
  base_commodity : string;
  trades : list Trade.t;
  rounds : list RoundInfo.t;
  current_round : Z;
  penalties_rs : gmap string float;
  round_open_ratios : option (gmap string Z)
}.
(** [GameState()] *)
Definition new : t := mk [] [] "" [] [] 0 ∅ None.
Definition with_commodities (cs : dict Commodity.t) (gs : t) : t :=
  mk cs (teams gs) (base_commodity gs) (trades gs) (rounds gs)
     (current_round gs) (penalties_rs gs) (round_open_ratios gs).
Definition with_teams (ts : dict Team.t) (gs : t) : t :=
  mk (commodities gs) ts (base_commodity gs) (trades gs) (rounds gs)
     (current_round gs) (penalties_rs gs) (round_open_ratios gs).
Definition with_base_commodity (b : string) (gs : t) : t :=
  mk (commodities gs) (teams gs) b (trades gs) (rounds gs)
     (current_round gs) (penalties_rs gs) (round_open_ratios gs).
Definition with_trades (trs : list Trade.t) (gs : t) : t :=
  mk (commodities gs) (teams gs) (base_commodity gs) trs (rounds gs)
     (current_round gs) (penalties_rs gs) (round_open_ratios gs).
Definition with_current_round (n : Z) (gs : t) : t :=
  mk (commodities gs) (teams gs) (base_commodity gs) (trades gs) (rounds gs)
     n (penalties_rs gs) (round_open_ratios gs).
Definition with_penalties_rs (p : gmap string float) (gs : t) : t :=
  mk (commodities gs) (teams gs) (base_commodity gs) (trades gs) (rounds gs)
     (current_round gs) p (round_open_ratios gs).
End GameState.

(* ===================================================================== *)
(** ** Team valuation *)
(* ===================================================================== *)

(** [Team.value_rs]: the loop [total += qty * c.price] from a running
    [total]; [qty] is converted to float for the product. *)
Fixpoint value_rs_loop (holdings : gmap string Z) (total : float)
    (cs : dict Commodity.t) : res float :=
  match cs with
  | [] => Ok total
  | (cname, c) :: cs' =>
      let qty := default 0 (holdings !! cname) in
      q ← PyFloat.of_int qty;
      value_rs_loop holdings (total + q * Commodity.price c)%float cs'
  end.

Definition value_rs (tm : Team.t) (cs : dict Commodity.t) : res float :=
  value_rs_loop (Team.holdings tm) 0%float cs.

(* ===================================================================== *)
(** ** Trades *)
(* ===================================================================== *)

(** [teams[key].holdings.get(cname, 0)] for a key that is present. *)
Definition team_qty (ts : dict Team.t) (key cname : string) : Z :=
  match dict_get key ts with
  | Some tm => Team.qty tm cname
  | None => 0
  end.

(** [teams[key].holdings[cname] = q] for a key that is present. *)
Definition team_set_qty (ts : dict Team.t) (key cname : string) (q : Z)
    : dict Team.t :=
  match dict_get key ts with
  | Some tm => dict_set key (Team.with_holdings (<[cname := q]> (Team.holdings tm)) tm) ts
  | None => ts
  end.

Definition team_name (ts : dict Team.t) (key : string) : string :=
  match dict_get key ts with
  | Some tm => Team.name tm
  | None => ""
  end.

(** One of the two loops of [apply_trade]: every leg moves [qty] of [cname]
    from the team under [src] to the team under [dst], after the two checks.
    The loop over [trade.give] runs it from [from_team] to [to_team], the loop
    over [trade.receive] the other way round. Each assignment reads the store
    left by the one before it. *)
Fixpoint transfer_legs (src dst : string) (legs : dict Z) (ts : dict Team.t)
    : res unit * dict Team.t :=
  match legs with
  | [] => (Ok tt, ts)
  | (cname, qty) :: legs' =>
      if qty <? 0 then
        (Raise (ValueError "Quantity cannot be negative."), ts)
      else if team_qty ts src cname <? qty then
        (Raise (ValueError (team_name ts src +:+ " does not have enough " +:+ cname)), ts)
      else
        let ts1 := team_set_qty ts src cname (team_qty ts src cname - qty) in
        let ts2 := team_set_qty ts1 dst cname (team_qty ts1 dst cname + qty) in
        transfer_legs src dst legs' ts2
  end.

Definition apply_trade (trade : Trade.t) (ts : dict Team.t)
    : res unit * dict Team.t :=
  match dict_get (Trade.from_team trade) ts with
  | None => (Raise (KeyError (Trade.from_team trade)), ts)
  | Some _ =>
      match dict_get (Trade.to_team trade) ts with
      | None => (Raise (KeyError (Trade.to_team trade)), ts)
      | Some _ =>
          match transfer_legs (Trade.from_team trade) (Trade.to_team trade)
                  (Trade.give trade) ts with
          | (Raise e, ts1) => (Raise e, ts1)
          | (Ok _, ts1) =>
              transfer_legs (Trade.to_team trade) (Trade.from_team trade)
                (Trade.receive trade) ts1
          end
      end
  end.

(** [GameState.start_round] *)
Definition start_round (news : string) (gs : GameState.t) : GameState.t :=
  let n := GameState.current_round gs + 1 in
  GameState.mk
    (GameState.commodities gs)
    (GameState.teams gs)
    (GameState.base_commodity gs)
    (GameState.trades gs)
    (GameState.rounds gs ++ [RoundInfo.mk n news])
    n
    (GameState.penalties_rs gs)
    (Some (foldl (fun m '(cname, c) => <[cname := Commodity.base_ratio c]> m)
                 ∅ (GameState.commodities gs))).

(** The scan of the journal in [record_trade]: does a trade of round
    [round] join the same unordered pair of teams? *)
Definition pair_taken (journal : list Trade.t) (round : Z)
    (from_team to_team : string) : bool :=
  existsb (fun tr =>
             bool_decide (Trade.round_no tr = round)
             && bool_decide (Trade.pair tr = ({[ from_team; to_team ]} : gset string)))
          journal.

(** [GameState.record_trade] *)
Definition record_trade (from_team to_team : string) (give receive : dict Z)
    (gs : GameState.t) : res Trade.t * GameState.t :=
  if GameState.current_round gs =? 0 then
    (Raise (ValueError "No active round. Start a round first."), gs)
  else if pair_taken (GameState.trades gs) (GameState.current_round gs)
            from_team to_team then
    (Raise (ValueError ("Only one trade allowed between " +:+ from_team +:+ " and "
                        +:+ to_team +:+ " in round "
                        +:+ pretty (GameState.current_round gs) +:+ ".")), gs)
  else
    let trade := Trade.mk (GameState.current_round gs) from_team to_team give receive in
    match apply_trade trade (GameState.teams gs) with
    | (Raise e, ts) => (Raise e, GameState.with_teams ts gs)
    | (Ok _, ts) =>
        (Ok trade,
         GameState.with_trades (GameState.trades gs ++ [trade])
           (GameState.with_teams ts gs))
    end.

(* ===================================================================== *)
(** ** Prices and ratios *)
(* ===================================================================== *)

(** The body of the loop of [update_prices_from_ratios]. *)
Definition price_commodity (base : string) (cname : string) (c : Commodity.t)
    : res Commodity.t :=
  if decide (cname = base) then
    Ok (Commodity.with_price BASE_PRICE_RS (Commodity.with_base_ratio 1 c))
  else
    let c := if Commodity.base_ratio c <=? 0
             then Commodity.with_base_ratio 1 c else c in
    r ← PyFloat.of_int (Commodity.base_ratio c);
    Ok (Commodity.with_price (BASE_PRICE_RS / r)%float c).

Definition update_prices_from_ratios (gs : GameState.t) : res unit * GameState.t :=
  if decide (GameState.base_commodity gs = "") then (Ok tt, gs)
  else
    let '(r, cs) := dict_for_each (price_commodity (GameState.base_commodity gs))
                      (GameState.commodities gs) in
    (r, GameState.with_commodities cs gs).

(** [net[cname] = net.get(cname, 0.0) + sign * qty] over the legs of one
    side of a trade ([sign] is [-] for [give], [+] for [receive]). *)
Fixpoint net_legs (minus : bool) (legs : dict Z) (net : dict float)
    : res (dict float) :=
  match legs with
  | [] => Ok net
  | (cname, qty) :: legs' =>
      q ← PyFloat.of_int qty;
      let old := default 0%float (dict_get cname net) in
      net_legs minus legs'
        (dict_set cname (if minus then old - q else old + q)%float net)
  end.

Fixpoint net_trades (round_no : Z) (journal : list Trade.t) (net : dict float)
    : res (dict float) :=
  match journal with
  | [] => Ok net
  | tr :: journal' =>
      if bool_decide (Trade.round_no tr ≠ round_no) then
        net_trades round_no journal' net
      else
        net1 ← net_legs true (Trade.give tr) net;
        net2 ← net_legs false (Trade.receive tr) net1;
        net_trades round_no journal' net2
  end.

Definition compute_net_demand (gs : GameState.t) (round_no : Z) : res (dict float) :=
  net_trades round_no (GameState.trades gs)
    (foldl (fun net cname => dict_set cname 0%float net) []
           (dict_keys (GameState.commodities gs))).

(** [int(round(n * f))] for an int [n] and a float [f]. *)
Definition round_scaled (n : Z) (f : float) : res Z :=
  x ← PyFloat.of_int n;
  PyFloat.round (x * f)%float.

(** The clamp bounds of the circuit breaker around [open_ratio]. *)
Definition circuit_bounds (open_ratio : Z) (circuit_pct : float) : res (Z * Z) :=
  lo ← round_scaled open_ratio (1 - circuit_pct)%float;
  let lower := Z.max 1 lo in
  hi ← round_scaled open_ratio (1 + circuit_pct)%float;
  let upper := Z.max (lower + 1) hi in
  Ok (lower, upper).

(** The per-round reference ratio of a commodity: the snapshot if it has
    one, else the ratio being replaced; never below 1. *)
Definition open_ratio_of (round_open : gmap string Z) (cname : string)
    (old_ratio : Z) : Z :=
  let o := default old_ratio (round_open !! cname) in
  if o <? 1 then 1 else o.

(** The body of the loop of [update_ratios_auto]. *)
Definition ratio_commodity (base : string) (net : dict float) (total_abs : float)
    (round_open : gmap string Z) (sensitivity circuit_pct : float)
    (cname : string) (c : Commodity.t) : res Commodity.t :=
  if decide (cname = base) then Ok (Commodity.with_base_ratio 1 c)
  else
    let old_ratio := Z.max 1 (Commodity.base_ratio c) in
    let delta := (default 0 (dict_get cname net) / total_abs)%float in
    let factor := (1 - sensitivity * delta)%float in
    let factor := if (factor <=? 0)%float then 0.1%float else factor in
    p ← round_scaled old_ratio factor;
    let proposed := if p <? 1 then 1 else p in
    let open_ratio := open_ratio_of round_open cname old_ratio in
    '(lower, upper) ← circuit_bounds open_ratio circuit_pct;
    let clamped := Z.min (Z.max proposed lower) upper in
    Ok (Commodity.with_base_ratio clamped c).

(** [sum(abs(v) for v in net.values()) or 1.0], added left to right. The
    bound on the ratios proved below holds for any value of this sum. *)
Definition total_abs_demand (net : dict float) : float :=
  let s := foldl (fun acc v => (acc + abs v)%float) 0%float (dict_values net) in
  if PyFloat.truthy s then s else 1%float.

Definition update_ratios_auto (sensitivity circuit_pct : float) (gs : GameState.t)
    : res unit * GameState.t :=
  if GameState.current_round gs =? 0 then (Ok tt, gs)
  else
    match compute_net_demand gs (GameState.current_round gs) with
    | Raise e => (Raise e, gs)
    | Ok net =>
        let total_abs := total_abs_demand net in
        let round_open := default ∅ (GameState.round_open_ratios gs) in
        let base := GameState.base_commodity gs in
        match dict_for_each
                (ratio_commodity base net total_abs round_open sensitivity circuit_pct)
                (GameState.commodities gs) with
        | (Raise e, cs) => (Raise e, GameState.with_commodities cs gs)
        | (Ok _, cs) =>
            let cs :=
              match dict_get base cs with
              | Some c => dict_set base (Commodity.with_base_ratio 1 c) cs
              | None => cs
              end in
            (Ok tt, GameState.with_commodities cs gs)
        end
    end.

Definition default_sensitivity : float := 0.5%float.
Definition default_circuit_pct : float := 0.20%float.

(* ===================================================================== *)
(** ** Penalties *)
(* ===================================================================== *)

Definition teams_with_trades_in_round (gs : GameState.t) (round_no : Z)
    : gset string :=
  foldl (fun active tr =>
           if bool_decide (Trade.round_no tr ≠ round_no) then active
           else {[ Trade.to_team tr ]} ∪ ({[ Trade.from_team tr ]} ∪ active))
        ∅ (GameState.trades gs).

(** The test of one commodity in [check_min_max_violation]; a bound of 0 is
    falsy and so switches its half of the test off. *)
Definition out_of_band (tm : Team.t) (item : string * Commodity.t) : bool :=
  let qty := Team.qty tm item.1 in
  (negb (Commodity.min_units item.2 =? 0) && (qty <? Commodity.min_units item.2))
  || (negb (Commodity.max_units item.2 =? 0) && (Commodity.max_units item.2 <? qty)).

Definition check_min_max_violation (gs : GameState.t) (tm : Team.t) : bool :=
  existsb (out_of_band tm) (GameState.commodities gs).

(** The loop of [apply_round_penalties] over the teams, on the penalties
    dictionary it updates. *)
Fixpoint penalties_loop (gs : GameState.t) (active : gset string)
    (no_trade_penalty_rate range_penalty_rate : float)
    (ts : dict Team.t) (pen : gmap string float) : res unit * gmap string float :=
  match ts with
  | [] => (Ok tt, pen)
  | (tname, tm) :: ts' =>
      match value_rs tm (GameState.commodities gs) with
      | Raise e => (Raise e, pen)
      | Ok value =>
          let pen1 :=
            if bool_decide (tname ∉ active) then
              <[tname := (default 0 (pen !! tname) + value * no_trade_penalty_rate)%float]> pen
            else pen in
          let pen2 :=
            if check_min_max_violation gs tm then
              <[tname := (default 0 (pen1 !! tname) + value * range_penalty_rate)%float]> pen1
            else pen1 in
          penalties_loop gs active no_trade_penalty_rate range_penalty_rate ts' pen2
      end
  end.

Definition apply_round_penalties (round_no : Z)
    (no_trade_penalty_rate range_penalty_rate : float) (gs : GameState.t)
    : res unit * GameState.t :=
  let active := teams_with_trades_in_round gs round_no in
  let '(r, pen) := penalties_loop gs active no_trade_penalty_rate range_penalty_rate
                     (GameState.teams gs) (GameState.penalties_rs gs) in
  (r, GameState.with_penalties_rs pen gs).

Definition default_penalty_rate : float := 0.10%float.

(* ===================================================================== *)
(** ** The process-wide random source *)
(* ===================================================================== *)

(** The part of Python's [random] module the generator uses. [G] is the state
    of the module-level generator, shared by everything in the process.
    [random_seed key] is the state [random.seed(key)] installs, whatever the
    state was; [random_sample g population k] is the list
    [random.sample(population, k)] returns from state [g], with the state it
    leaves. *)
Class PyRandom (G : Type) : Type := {
  random_seed : string -> G;
  random_sample : G -> list string -> nat -> list string * G
}.


(* ===================================================================== *)
(** ** Initial portfolios *)
(* ===================================================================== *)

Definition alloc_min_factor : float := 0.85%float.
Definition alloc_max_factor : float := 1.15%float.
Definition hold_min_factor : float := 0.70%float.
Definition hold_max_factor : float := 1.30%float.

(** The attribute reads [c.alloc_min_units] and [c.alloc_max_units]; they are
    only read after the band loop has set them on every commodity. *)
Definition alloc_min (c : Commodity.t) : Z := default 0 (Commodity.alloc_min_units c).
Definition alloc_max (c : Commodity.t) : Z := default 0 (Commodity.alloc_max_units c).

(** [f"{len(game_state.teams)}-{len(commodities)}-{int(target_value_hint)}"] *)
Definition seed_key (nteams ncommodities : nat) (target_value_hint : float)
    : res string :=
  h ← PyFloat.to_int target_value_hint;
  Ok (pretty nteams +:+ "-" +:+ pretty ncommodities +:+ "-" +:+ pretty h).

(** [S] of the source (written [S_] here): the target in base units, at
    least three per commodity. *)
Definition base_units_target (target_value_hint : float) (N : Z) : res Z :=
  S_ ← PyFloat.round (target_value_hint / BASE_PRICE_RS)%float;
  Ok (if S_ <? N * 3 then N * 3 else S_).

(** [int(units_target * factor // r)] *)
Definition band_mult (units_target factor : float) (r : Z) : res Z :=
  rf ← PyFloat.of_int r;
  q ← PyFloat.floordiv (units_target * factor)%float rf;
  PyFloat.to_int q.

(** The body of the band loop: sets the allocation band, adds it to the two
    running totals, then sets the holding band. *)
Definition band_commodity (base_target_each : float) (totals : Z * Z)
    (cname : string) (c : Commodity.t) : res (Z * Z) * Commodity.t :=
  let r := Z.max 1 (Commodity.base_ratio c) in
  match (rf ← PyFloat.of_int r;
         let units_target := (base_target_each * rf)%float in
         lo ← band_mult units_target alloc_min_factor r;
         let alloc_min_mult := Z.max 1 lo in
         hi ← band_mult units_target alloc_max_factor r;
         let alloc_max_mult := Z.max (alloc_min_mult + 1) hi in
         Ok (units_target, alloc_min_mult, alloc_max_mult)) with
  | Raise e => (Raise e, c)
  | Ok (units_target, alloc_min_mult, alloc_max_mult) =>
      let c1 := Commodity.with_alloc (alloc_min_mult * r) (alloc_max_mult * r) c in
      let totals1 := (totals.1 + alloc_min c1 / r, totals.2 + alloc_max c1 / r) in
      match (lo ← band_mult units_target hold_min_factor r;
             let hold_min_mult := Z.max 1 lo in
             hi ← band_mult units_target hold_max_factor r;
             let hold_max_mult := Z.max (hold_min_mult + 1) hi in
             Ok (hold_min_mult, hold_max_mult)) with
      | Raise e => (Raise e, c1)
      | Ok (hold_min_mult, hold_max_mult) =>
          (Ok totals1, Commodity.with_hold (hold_min_mult * r) (hold_max_mult * r) c1)
      end
  end.

Definition choose_K_total (S_ lower upper : Z) : Z :=
  if S_ <? lower then lower else if upper <? S_ then upper else S_.

Definition choose_K_extra (K_total lower upper : Z) : Z :=
  let slack_total := upper - lower in
  let K_extra := K_total - lower in
  let K_extra := if K_extra <? 0 then 0 else K_extra in
  if slack_total <? K_extra then slack_total else K_extra.

(** The pool of bonus slots: each name once per base unit between its
    allocation minimum and maximum. *)
Fixpoint base_unit_slots (cs : dict Commodity.t) : res (list string) :=
  match cs with
  | [] => Ok []
  | (cname, c) :: cs' =>
      let r := Commodity.base_ratio c in
      if r =? 0 then Raise (ZeroDivisionError "integer division or modulo by zero")
      else
        let capacity := (alloc_max c - alloc_min c) / r in
        rest ← base_unit_slots cs';
        Ok ((if 0 <? capacity then replicate (Z.to_nat capacity) cname else [])
            ++ rest)
  end.

(** [{cname: c.alloc_min_units for cname, c in commodities.items()}] *)
Definition initial_holdings (cs : dict Commodity.t) : gmap string Z :=
  foldl (fun h '(cname, c) => <[cname := alloc_min c]> h) ∅ cs.

(** [for cname in picks: team.holdings[cname] += commodities[cname].base_ratio];
    a name without a holding or without a commodity is a KeyError that leaves
    the earlier additions in place. *)
Fixpoint add_picks (cs : dict Commodity.t) (picks : list string)
    (h : gmap string Z) : res unit * gmap string Z :=
  match picks with
  | [] => (Ok tt, h)
  | cname :: picks' =>
      match h !! cname, dict_get cname cs with
      | Some q, Some c => add_picks cs picks' (<[cname := q + Commodity.base_ratio c]> h)
      | _, _ => (Raise (KeyError cname), h)
      end
  end.

(** The final loop over the commodities: a holding below [min_units] or
    above [max_units] is replaced by the bound. Every commodity has a
    holding here, so [team.holdings[cname]] cannot fail. *)
Definition enforce_holding_band (cs : dict Commodity.t) (h : gmap string Z)
    : gmap string Z :=
  foldl (fun h '(cname, c) =>
           let q := default 0 (h !! cname) in
           let h1 := if q <? Commodity.min_units c
                     then <[cname := Commodity.min_units c]> h else h in
           if Commodity.max_units c <? q
           then <[cname := Commodity.max_units c]> h1 else h1)
        h cs.

(** The body of the loop over the teams: the holdings the team is given,
    with the random state after its draw. *)
Definition allocate_team `{PyRandom G} (cs : dict Commodity.t) (slots : list string)
    (K_extra : Z) (g : G) : res unit * gmap string Z * G :=
  let h0 := initial_holdings cs in
  let '(r, h1, g1) :=
    if (0 <? K_extra) && (K_extra <=? Z.of_nat (length slots)) then
      let '(picks, g1) := random_sample g slots (Z.to_nat K_extra) in
      (add_picks cs picks h0, g1)
    else (Ok tt, h0, g) in
  match r with
  | Raise e => (Raise e, h1, g1)
  | Ok _ => (Ok tt, enforce_holding_band cs h1, g1)
  end.

(** The loop over the teams; the random state is threaded from one team to
    the next. *)
Fixpoint allocate_teams `{PyRandom G} (cs : dict Commodity.t) (slots : list string)
    (K_extra : Z) (ts : dict Team.t) (g : G) : res unit * dict Team.t * G :=
  match ts with
  | [] => (Ok tt, [], g)
  | (tname, tm) :: ts' =>
      match allocate_team cs slots K_extra g with
      | (Raise e, h, g1) => (Raise e, (tname, Team.with_holdings h tm) :: ts', g1)
      | (Ok _, h, g1) =>
          let '(r, ts'', g2) := allocate_teams cs slots K_extra ts' g1 in
          (r, (tname, Team.with_holdings h tm) :: ts'', g2)
      end
  end.

Definition generate_initial_portfolios_with_ranges `{PyRandom G}
    (target_value_hint : float) (gs : GameState.t) (g : G)
    : res float * GameState.t * G :=
  match GameState.commodities gs with
  | [] => (Raise (ValueError "No commodities defined."), gs, g)
  | _ :: _ =>
  if decide (GameState.base_commodity gs = "") then
    (Raise (ValueError "Base commodity not set."), gs, g)
  else match GameState.teams gs with
  | [] => (Raise (ValueError "No teams defined."), gs, g)
  | _ :: _ =>
  let N := Z.of_nat (length (GameState.commodities gs)) in
  match seed_key (length (GameState.teams gs)) (length (GameState.commodities gs))
          target_value_hint with
  | Raise e => (Raise e, gs, g)
  | Ok key =>
  let g := random_seed key in
  match (S_ ← base_units_target target_value_hint N;
         Nf ← PyFloat.of_int N;
         Sf ← PyFloat.of_int S_;
         Ok (S_, (Sf / Nf)%float)) with
  | Raise e => (Raise e, gs, g)
  | Ok (S_, base_target_each) =>
  match dict_for (band_commodity base_target_each) (0, 0) (GameState.commodities gs) with
  | (Raise e, cs) => (Raise e, GameState.with_commodities cs gs, g)
  | (Ok (lower, upper), cs) =>
  let gs := GameState.with_commodities cs gs in
  let K_total := choose_K_total S_ lower upper in
  let K_extra := choose_K_extra K_total lower upper in
  match base_unit_slots cs with
  | Raise e => (Raise e, gs, g)
  | Ok slots =>
  let K_extra := if bool_decide (length slots = 0%nat) then 0 else K_extra in
  let '(r, ts, g) := allocate_teams cs slots K_extra (GameState.teams gs) g in
  let gs := GameState.with_teams ts gs in
  match r with
  | Raise e => (Raise e, gs, g)
  | Ok _ =>
  match PyFloat.of_int K_total with
  | Raise e => (Raise e, gs, g)
  | Ok Kf => (Ok (Kf * BASE_PRICE_RS)%float, gs, g)
  end end end end end end end end.

(* ===================================================================== *)
(** ** The server: process-wide state and the mutating endpoints *)
(* ===================================================================== *)

(** [repr] of a string, which is what [str] of a [KeyError] shows of the
    key: in single quotes, or in double quotes when the string holds a single
    quote and no double quote; the quote and the backslash escaped by a
    backslash; tab, newline and carriage return as [\t], [\n], [\r]; every
    other character that is not printable (below 32, 127 to 160, 173) as
    [\x] and two hexadecimal digits. A character of a [string] stands for
    the code point of its number, so the strings of the model are those of
    code points below 256. *)
Definition double_quote : Ascii.ascii := Ascii.ascii_of_nat 34.

Definition hex_digit (n : nat) : Ascii.ascii :=
  default "0"%char (String.list_ascii_of_string "0123456789abcdef" !! n).

Definition repr_char (quote c : Ascii.ascii) : string :=
  let n := Ascii.nat_of_ascii c in
  if bool_decide (c = quote) || bool_decide (c = "\"%char) then
    String "\"%char (String c "")
  else if (n =? 9)%nat then "\t"
  else if (n =? 10)%nat then "\n"
  else if (n =? 13)%nat then "\r"
  else if ((n <? 32) || ((127 <=? n) && (n <=? 160)) || (n =? 173))%nat then
    String "\"%char
      (String "x"%char
         (String (hex_digit (n / 16)%nat) (String (hex_digit (n mod 16)%nat) "")))
  else String c "".

Fixpoint has_char (c : Ascii.ascii) (s : string) : bool :=
  match s with
  | EmptyString => false
  | String c' s' => bool_decide (c' = c) || has_char c s'
  end.

Fixpoint repr_chars (quote : Ascii.ascii) (s : string) : string :=
  match s with
  | EmptyString => String quote ""
  | String c s' => repr_char quote c +:+ repr_chars quote s'
  end.

Definition py_repr (s : string) : string :=
  let quote := if has_char "'"%char s && negb (has_char double_quote s)
               then double_quote else "'"%char in
  String quote (repr_chars quote s).

(** [str(e)] as the server puts it in an error detail. *)
Definition exn_str (e : exn) : string :=
  match e with
  | ValueError msg => msg
  | KeyError key => py_repr key
  | OverflowError msg => msg
  | ZeroDivisionError msg => msg
  end.

Module Server.

(** The spreadsheet is modelled by the logging calls made on it, in order;
    writing a row is taken to succeed. *)
Inductive log_entry : Type :=
| LogCommodities (cs : dict Commodity.t) (round_no : Z)
| LogPortfolios (gs : GameState.t)
| LogTrade (tr : Trade.t).

Record snapshot : Type := mk_snapshot {
  trade_index : Z;
  round : Z;
  price : float
}.

(** The module-level globals of [server.py], with the state of the
    module-level random generator the engine seeds. *)
Record t (G : Type) : Type := mk {
  game_state : option GameState.t;
  excel_logger : option (list log_entry);
  ended_rounds : gset Z;
  price_history : dict (list snapshot);
  global_trade_counter : Z;
  random_state : G
}.
Arguments mk {G}.
Arguments game_state {G}.
Arguments excel_logger {G}.
Arguments ended_rounds {G}.
Arguments price_history {G}.
Arguments global_trade_counter {G}.
Arguments random_state {G}.

(** The globals when the module has just been imported. *)
Definition start {G} (g : G) : t G := mk None None ∅ [] 0 g.

Inductive response : Type :=
| Http400 (detail : string)
| Http500 (e : exn)
| GameInitialized (num_teams : Z) (base_commodity : string) (common_portfolio_value : float)
| RoundStarted (round : Z) (news : string)
| TradeRecorded (tr : Trade.t)
| RoundEnded (round_no : Z)
| RoundAlreadyEnded (round_no : Z).

Record CommodityInput : Type := mk_input {
  ci_name : string;
  ci_ratio : Z
}.

Record InitGameRequest : Type := mk_init {
  req_commodities : list CommodityInput;
  req_base_commodity : string;
  req_num_teams : Z;
  req_target_value_hint : float
}.

Record TradeLeg : Type := mk_leg {
  commodity : string;
  qty : Z
}.

Record TradeRequest : Type := mk_trade {
  req_from_team : string;
  req_to_team : string;
  req_give : list TradeLeg;
  req_receive : list TradeLeg
}.

(** [record_price_snapshot] on the history, for the game [gs]. *)
Definition record_price_snapshot (gs : GameState.t) (counter : Z)
    (history : dict (list snapshot)) : dict (list snapshot) :=
  foldl (fun hist '(cname, c) =>
           dict_set cname
             (default [] (dict_get cname hist)
              ++ [mk_snapshot counter (GameState.current_round gs) (Commodity.price c)])
             hist)
        history (GameState.commodities gs).

(** The loop of [init_game] that fills [gs.commodities]. *)
Fixpoint add_commodities (inputs : list CommodityInput) (cs : dict Commodity.t)
    : string + dict Commodity.t :=
  match inputs with
  | [] => inr cs
  | ci :: inputs' =>
      if ci_ratio ci <=? 0 then
        inl ("Invalid ratio for " +:+ ci_name ci +:+ ". Must be positive int.")
      else if bool_decide (is_Some (dict_get (ci_name ci) cs)) then
        inl ("Duplicate commodity name: " +:+ ci_name ci)
      else
        add_commodities inputs'
          (dict_set (ci_name ci) (Commodity.new (ci_name ci) 0%float (ci_ratio ci)) cs)
  end.

(** [gs.teams[f"Team {i + 1}"] = Team(...)] for [i] in [range(num_teams)]. *)
Definition make_teams (num_teams : Z) : dict Team.t :=
  foldl (fun ts i =>
           let name := "Team " +:+ pretty (i + 1) in
           dict_set name (Team.new name) ts)
        [] (seqZ 0 num_teams).

Section endpoints.
Context {G : Type} `{PyRandom G}.

(** [POST /admin/init_game] *)
Definition init_game (req : InitGameRequest) (sv : t G) : response * t G :=
  if req_num_teams req <=? 0 then (Http400 "num_teams must be positive.", sv)
  else match req_commodities req with
  | [] => (Http400 "commodities list cannot be empty.", sv)
  | _ :: _ =>
  match add_commodities (req_commodities req) [] with
  | inl detail => (Http400 detail, sv)
  | inr cs =>
  match dict_get (req_base_commodity req) cs with
  | None =>
      (Http400 ("Base commodity '" +:+ req_base_commodity req
                +:+ "' not in commodities."), sv)
  | Some cbase =>
  let cs := dict_set (req_base_commodity req) (Commodity.with_base_ratio 1 cbase) cs in
  let gs := GameState.with_base_commodity (req_base_commodity req)
              (GameState.with_commodities cs GameState.new) in
  match update_prices_from_ratios gs with
  | (Raise e, _) => (Http500 e, sv)
  | (Ok _, gs) =>
  let gs := GameState.with_teams (make_teams (req_num_teams req)) gs in
  let gs := GameState.with_current_round 0 gs in
  match generate_initial_portfolios_with_ranges (req_target_value_hint req) gs
          (random_state sv) with
  | (Raise e, _, g) =>
      (Http500 e,
       mk (game_state sv) (excel_logger sv) (ended_rounds sv) (price_history sv)
          (global_trade_counter sv) g)
  | (Ok common_value, gs, g) =>
      let logger := [LogCommodities (GameState.commodities gs) 0; LogPortfolios gs] in
      let history :=
        foldl (fun hist cname => dict_set cname [] hist) []
              (dict_keys (GameState.commodities gs)) in
      (GameInitialized (req_num_teams req) (req_base_commodity req) common_value,
       mk (Some gs) (Some logger) (ended_rounds sv)
          (record_price_snapshot gs 0 history) 0 g)
  end end end end end.

(** [POST /round/start] *)
Definition start_round (news : string) (sv : t G) : response * t G :=
  match game_state sv with
  | None => (Http400 "Game is not initialized. Call /admin/init_game first.", sv)
  | Some gs =>
      let gs := start_round news gs in
      (RoundStarted (GameState.current_round gs) news,
       mk (Some gs) (excel_logger sv) (ended_rounds sv) (price_history sv)
          (global_trade_counter sv) (random_state sv))
  end.

(** The two loops of [post_trade] that sum the legs per commodity. *)
Fixpoint legs_dict (legs : list TradeLeg) (d : dict Z) : option (dict Z) :=
  match legs with
  | [] => Some d
  | leg :: legs' =>
      if qty leg <=? 0 then None
      else legs_dict legs'
             (dict_set (commodity leg)
                (default 0 (dict_get (commodity leg) d) + qty leg) d)
  end.

(** [POST /trade] *)
Definition post_trade (req : TradeRequest) (sv : t G) : response * t G :=
  match game_state sv with
  | None => (Http400 "Game is not initialized. Call /admin/init_game first.", sv)
  | Some gs =>
  match legs_dict (req_give req) [] with
  | None => (Http400 "Quantities must be positive.", sv)
  | Some give_dict =>
  match legs_dict (req_receive req) [] with
  | None => (Http400 "Quantities must be positive.", sv)
  | Some receive_dict =>
  let with_gs gs counter history :=
    mk (Some gs) (excel_logger sv) (ended_rounds sv) history counter
       (random_state sv) in
  match record_trade (req_from_team req) (req_to_team req) give_dict receive_dict gs with
  | (Raise (ValueError msg), gs) =>
      (Http400 msg, with_gs gs (global_trade_counter sv) (price_history sv))
  | (Raise e, gs) =>
      (Http400 ("Trade processing failed: " +:+ exn_str e),
       with_gs gs (global_trade_counter sv) (price_history sv))
  | (Ok trade, gs) =>
  match update_ratios_auto default_sensitivity default_circuit_pct gs with
  | (Raise e, gs) =>
      (Http400 ("Trade processing failed: " +:+ exn_str e),
       with_gs gs (global_trade_counter sv) (price_history sv))
  | (Ok _, gs) =>
  match update_prices_from_ratios gs with
  | (Raise e, gs) =>
      (Http400 ("Trade processing failed: " +:+ exn_str e),
       with_gs gs (global_trade_counter sv) (price_history sv))
  | (Ok _, gs) =>
      let counter := global_trade_counter sv + 1 in
      (TradeRecorded trade,
       mk (Some gs) (option_map (fun rows => rows ++ [LogTrade trade]) (excel_logger sv))
          (ended_rounds sv)
          (record_price_snapshot gs counter (price_history sv))
          counter (random_state sv))
  end end end end end end.

(** [POST /round/end] *)
Definition end_round (sv : t G) : response * t G :=
  match game_state sv with
  | None => (Http400 "Game is not initialized. Call /admin/init_game first.", sv)
  | Some gs =>
      if GameState.current_round gs =? 0 then (Http400 "No active round.", sv)
      else
        let round_no := GameState.current_round gs in
        if bool_decide (round_no ∈ ended_rounds sv) then
          (RoundAlreadyEnded round_no, sv)
        else
          match apply_round_penalties round_no default_penalty_rate
                  default_penalty_rate gs with
          | (Raise e, gs) =>
              (Http500 e,
               mk (Some gs) (excel_logger sv) (ended_rounds sv) (price_history sv)
                  (global_trade_counter sv) (random_state sv))
          | (Ok _, gs) =>
              (RoundEnded round_no,
               mk (Some gs)
                  (option_map
                     (fun rows => rows ++ [LogCommodities (GameState.commodities gs) round_no;
                                           LogPortfolios gs])
                     (excel_logger sv))
                  ({[ round_no ]} ∪ ended_rounds sv)
                  (price_history sv) (global_trade_counter sv) (random_state sv))
          end
  end.

End endpoints.
End Server.

(* ===================================================================== *)
(** ** A random source to run the model with *)
(* ===================================================================== *)

(** A stand-in for the module-level generator, for running the model on
    concrete inputs: the state is a number, seeding sets it from the key,
    every sample takes the leading elements and advances the state. It meets
    [PyRandomSpec]; nothing proved for all sources depends on it. *)
Definition counting_source : PyRandom nat := {|
  random_seed key := String.length key;
  random_sample g pop k := (take k pop, S g)
|}.

(* ===================================================================== *)
(** ** Runs of the engine *)
(* ===================================================================== *)

(** What can happen to the session while one round is current: a trade is
    submitted (and succeeds or raises), ratios or prices are recomputed,
    penalties are charged. *)
Inductive in_round_step : GameState.t -> GameState.t -> Prop :=
| step_record_trade from_team to_team give receive gs r gs' :
    record_trade from_team to_team give receive gs = (r, gs') ->
    in_round_step gs gs'
| step_update_ratios sensitivity circuit_pct gs r gs' :
    update_ratios_auto sensitivity circuit_pct gs = (r, gs') ->
    in_round_step gs gs'
| step_update_prices gs r gs' :
    update_prices_from_ratios gs = (r, gs') ->
    in_round_step gs gs'
| step_penalties round_no rate1 rate2 gs r gs' :
    apply_round_penalties round_no rate1 rate2 gs = (r, gs') ->
    in_round_step gs gs'.

(** The same, or the next round is started. *)
Inductive engine_step : GameState.t -> GameState.t -> Prop :=
| step_in_round gs gs' : in_round_step gs gs' -> engine_step gs gs'
| step_start_round news gs : engine_step gs (start_round news gs).

(** No two entries of a journal belong to one round and join one pair. *)
Definition distinct_pairs (journal : list Trade.t) : Prop :=
  ∀ i j tr1 tr2,
    i ≠ j -> journal !! i = Some tr1 -> journal !! j = Some tr2 ->
    Trade.round_no tr1 = Trade.round_no tr2 ->
    Trade.pair tr1 ≠ Trade.pair tr2.

(* ===================================================================== *)
(** ** Worked states *)
(* ===================================================================== *)

(** Two commodities, base [A] (ratio 1, Rs 1000) and [B] (ratio 4, Rs 250),
    and three teams, Team 2 holding [b2] units of B: before the first round
    ([scenario_lobby]) and with round 1 just started ([scenario_state]). *)
Definition scenario_commodities : dict Commodity.t :=
  [("A", Commodity.mk "A" 1000 1 0 0 None None);
   ("B", Commodity.mk "B" 250 4 0 0 None None)].

Definition scenario_lobby (b2 : Z) : GameState.t :=
  GameState.mk scenario_commodities
    [("Team 1", Team.mk "Team 1" {[ "A" := 10; "B" := 0 ]});
     ("Team 2", Team.mk "Team 2" {[ "A" := 0; "B" := b2 ]});
     ("Team 3", Team.mk "Team 3" {[ "A" := 5; "B" := 20 ]})]
    "A" [] [] 0 ∅ None.

Definition scenario_state (b2 : Z) : GameState.t :=
  start_round "opening" (scenario_lobby b2).

(** The default commodity list of the master console (its "O2 Cylinder" spelt
    in ASCII), base [Silver], before prices are derived. *)
Definition console_commodities : dict Commodity.t :=
  map (fun '(n, r) => (n, Commodity.new n 0 r))
    [("Silver", 1); ("Uranium", 3); ("Silicon", 5); ("O2 Cylinder", 8);
     ("Crude oil", 12); ("Ethanol", 18); ("Tobacco", 24); ("Cocoa", 30);
     ("Honey", 38); ("Rubber", 45)].

Definition console_state : GameState.t :=
  GameState.with_base_commodity "Silver"
    (GameState.with_commodities console_commodities GameState.new).

(** A session whose first commodity has a ratio too large for a float,
    listed before the base commodity [D], whose ratio is still 7. *)
Definition oversized_state : GameState.t :=
  GameState.with_base_commodity "D"
    (GameState.with_commodities
       [("C", Commodity.new "C" 0 (2 ^ 1024)); ("D", Commodity.new "D" 0 7)]
       GameState.new).

(** ** What the properties are stated with *)

(** How [update_prices_from_ratios] leaves a commodity: the base at ratio 1
    and the fixed price; any other at its ratio, raised to 1 if it was not
    positive, and at the float quotient of the fixed price by that ratio. *)
Definition priced (base : string) (old new : string * Commodity.t) : Prop :=
  new.1 = old.1
  ∧ if decide (old.1 = base) then
      Commodity.base_ratio new.2 = 1 ∧ Commodity.price new.2 = BASE_PRICE_RS
    else
      Commodity.base_ratio new.2 = Z.max 1 (Commodity.base_ratio old.2)
      ∧ ∃ rf, PyFloat.of_int (Commodity.base_ratio new.2) = Ok rf
              ∧ Commodity.price new.2 = (BASE_PRICE_RS / rf)%float.

(** The largest magnitude [float(n)] accepts. *)
Definition float_int_bound : Z := 2 ^ 1024 - 2 ^ 970.

(** A commodity's ratio is within the circuit around the ratio [c0] it had
    when the round started: between [lower = max(1, round(open * (1 - pct)))]
    and [upper = max(lower + 1, round(open * (1 + pct)))], where [open] is
    that ratio, at least 1. *)
Definition within_circuit (circuit_pct : float) (c0 c : Commodity.t) : Prop :=
  let open_ratio := Z.max 1 (Commodity.base_ratio c0) in
  ∃ lo hi,
    round_scaled open_ratio (1 - circuit_pct)%float = Ok lo
    ∧ round_scaled open_ratio (1 + circuit_pct)%float = Ok hi
    ∧ Z.max 1 lo ≤ Commodity.base_ratio c
    ∧ Commodity.base_ratio c ≤ Z.max (Z.max 1 lo + 1) hi.

(** The circuit holds in a session whose current round opened in state
    [gs0]: the base commodity is at ratio 1, every other commodity within the
    circuit around its opening ratio. *)
Definition circuit_holds (circuit_pct : float) (gs0 gs : GameState.t) : Prop :=
  ∀ cname c, (cname, c) ∈ GameState.commodities gs ->
    if decide (cname = GameState.base_commodity gs0) then Commodity.base_ratio c = 1
    else ∃ c0, dict_get cname (GameState.commodities gs0) = Some c0
               ∧ within_circuit circuit_pct c0 c.

(** A team appears in a trade of the round, on either side. *)
Definition traded_in_round (gs : GameState.t) (round_no : Z) (tname : string) : Prop :=
  ∃ tr, tr ∈ GameState.trades gs ∧ Trade.round_no tr = round_no
        ∧ (Trade.from_team tr = tname ∨ Trade.to_team tr = tname).

(** Some holding of the team is outside its holding band, a bound of zero
    not counting. *)
Definition violates_band (gs : GameState.t) (tm : Team.t) : Prop :=
  ∃ cname c, (cname, c) ∈ GameState.commodities gs
    ∧ ((Commodity.min_units c ≠ 0 ∧ Team.qty tm cname < Commodity.min_units c)
       ∨ (Commodity.max_units c ≠ 0 ∧ Commodity.max_units c < Team.qty tm cname)).

(** Adding a penalty to an entry of the penalties dictionary, or not. *)
Definition add_penalty (p : option float) (entry : option float) : option float :=
  match p with
  | Some x => Some (default 0 entry + x)%float
  | None => entry
  end.

(** The scenario when round 1 is about to be closed: Team 1 and Team 2 have
    traded 4 A for 16 B, and no team may hold more than 20 B. Team 1 traded
    and is within the band, Team 2 traded and holds 24 B, Team 3 did not
    trade and is within the band. *)
Definition closing_state : GameState.t :=
  GameState.with_commodities
    [("A", Commodity.mk "A" 1000 1 0 0 None None);
     ("B", Commodity.mk "B" 250 4 0 20 None None)]
    (record_trade "Team 1" "Team 2" [("A", 4)] [("B", 16)] (scenario_state 40)).2.

(** Round 2 about to be closed without a trade: one team, charged
    33.333333333333336 in round 1, holds 6 B at Rs 1000/3 a unit, one more
    than a team may hold. *)
Definition repeat_state : GameState.t :=
  GameState.mk
    [("A", Commodity.mk "A" 1000 1 0 0 None None);
     ("B", Commodity.mk "B" (1000 / 3) 3 0 5 None None)]
    [("Team 1", Team.mk "Team 1" {[ "B" := 6 ]})]
    "A" [] [RoundInfo.mk 1 "one"; RoundInfo.mk 2 "two"] 2
    {[ "Team 1" := 33.333333333333336%float ]} None.

(** The worth of a team in units of the base commodity, counted in whole
    units: each holding divided by the ratio of its commodity. *)
Definition sum_over {A} (f : A -> Z) (l : list A) : Z :=
  foldr (fun x acc => f x + acc) 0 l.









(** The session [init_game] hands to the generator for the console's
    commodity list and five teams: prices derived, teams without holdings. *)
Definition console_lobby : GameState.t :=
  GameState.with_teams (Server.make_teams 5)
    (update_prices_from_ratios console_state).2.





(** The request the master console sends for two commodities and three
    teams. *)
Definition small_request : Server.InitGameRequest :=
  Server.mk_init [Server.mk_input "A" 1; Server.mk_input "B" 4] "A" 3 2000000.

(** In a run of the engine the journal only holds trades of rounds up to the
    current one, and never two trades of one round between one pair. *)
Definition journal_ok (gs : GameState.t) : Prop :=
  (∀ tr, tr ∈ GameState.trades gs -> Trade.round_no tr ≤ GameState.current_round gs)
  ∧ distinct_pairs (GameState.trades gs).

(** What stays put while a round is current: the commodity names, the base
    commodity, the round number and the snapshot of the opening ratios. *)
Definition same_round (gs0 gs : GameState.t) : Prop :=
  dict_keys (GameState.commodities gs) = dict_keys (GameState.commodities gs0)
  ∧ GameState.base_commodity gs = GameState.base_commodity gs0
  ∧ GameState.current_round gs = GameState.current_round gs0
  ∧ GameState.round_open_ratios gs = GameState.round_open_ratios gs0.

(** What can happen to the server between two initialisations: a round is
    started, a trade is posted, the round is ended. *)
Inductive session_step {G : Type} : Server.t G -> Server.t G -> Prop :=
| session_start_round news sv :
    session_step sv (Server.start_round news sv).2
| session_post_trade req sv :
    session_step sv (Server.post_trade req sv).2
| session_end_round sv :
    session_step sv (Server.end_round sv).2.

(** No round beyond the current one of the game is recorded as ended. *)
Definition ended_rounds_ok {G : Type} (sv : Server.t G) : Prop :=
  ∀ gs n, Server.game_state sv = Some gs -> n ∈ Server.ended_rounds sv ->
          n ≤ GameState.current_round gs.

(* ===================================================================== *)
(** ** What the properties of a whole game are stated with *)
(* ===================================================================== *)

(** All the units of a commodity the teams hold together. *)
Definition total_units (ts : dict Team.t) (cname : string) : Z :=
  sum_over (fun item => Team.qty item.2 cname) ts.

(** No team object holds a negative quantity. *)
Definition holdings_nonneg (ts : dict Team.t) : Prop :=
  Forall (fun item => map_Forall (fun _ q => 0 ≤ q) (Team.holdings item.2)) ts.

(** The quantity a leg dictionary moves of a commodity, 0 if it has no leg. *)
Definition leg_qty (legs : dict Z) (cname : string) : Z :=
  default 0 (dict_get cname legs).

(** What the legs of a request ask to move of a commodity, all its legs for
    that commodity together. *)
Definition requested (legs : list Server.TradeLeg) (cname : string) : Z :=
  sum_over (fun leg => if decide (Server.commodity leg = cname) then Server.qty leg else 0)
    legs.

(** A team's holding of every commodity is within the holding band, whose
    lower bound is at least one unit. *)
Definition within_holding_band (cs : dict Commodity.t) (tm : Team.t) : Prop :=
  ∀ k c, (k, c) ∈ cs ->
    1 ≤ Commodity.min_units c
    ∧ Commodity.min_units c ≤ Team.qty tm k ≤ Commodity.max_units c.

(** The name [init_game] gives the team it creates at index [i]. *)
Definition team_label (i : Z) : string := "Team " +:+ pretty (i + 1).

(** The commodity [init_game] creates for an entry of the request. *)
Definition commodity_of (ci : Server.CommodityInput) : string * Commodity.t :=
  (Server.ci_name ci, Commodity.new (Server.ci_name ci) 0 (Server.ci_ratio ci)).

(** How [init_game] sets a commodity of the request up: the base commodity
    at ratio 1 and the fixed price, any other at the ratio asked for and at
    the float quotient of the fixed price by it. *)
Definition set_up (base : string) (ci : Server.CommodityInput)
    (item : string * Commodity.t) : Prop :=
  item.1 = Server.ci_name ci
  ∧ Commodity.name item.2 = Server.ci_name ci
  ∧ if decide (Server.ci_name ci = base) then
      Commodity.base_ratio item.2 = 1 ∧ Commodity.price item.2 = BASE_PRICE_RS
    else
      Commodity.base_ratio item.2 = Server.ci_ratio ci
      ∧ ∃ rf, PyFloat.of_int (Server.ci_ratio ci) = Ok rf
              ∧ Commodity.price item.2 = (BASE_PRICE_RS / rf)%float.

(** What a game in progress keeps or only adds to, from state [gs0] to
    state [gs]: the names of the commodities and of the teams and the base
    commodity stay, the journal and the list of rounds only grow, the round
    number does not go down. *)
Definition continues (gs0 gs : GameState.t) : Prop :=
  dict_keys (GameState.commodities gs) = dict_keys (GameState.commodities gs0)
  ∧ dict_keys (GameState.teams gs) = dict_keys (GameState.teams gs0)
  ∧ GameState.base_commodity gs = GameState.base_commodity gs0
  ∧ GameState.trades gs0 `prefix_of` GameState.trades gs
  ∧ GameState.rounds gs0 `prefix_of` GameState.rounds gs
  ∧ GameState.current_round gs0 ≤ GameState.current_round gs.

(** The rounds started so far are numbered 1, 2, ... up to the current one,
    and every trade of the journal belongs to one of them. *)
Definition rounds_numbered (gs : GameState.t) : Prop :=
  0 ≤ GameState.current_round gs
  ∧ RoundInfo.round_no <$> GameState.rounds gs = seqZ 1 (GameState.current_round gs)
  ∧ Forall (fun tr => 1 ≤ Trade.round_no tr ≤ GameState.current_round gs)
      (GameState.trades gs).

(** The trades on the Trades sheet, in the order they were logged. *)
Definition logged_trades (rows : list Server.log_entry) : list Trade.t :=
  omap (fun e => match e with Server.LogTrade tr => Some tr | _ => None end) rows.

(** The bookkeeping the server keeps beside the game is in step with it:
    the price history has one series per commodity, in the order of the
    commodities, each with one snapshot per value of the trade counter from 0
    on; the Trades sheet has as many rows as the counter says, and they are
    trades of the journal, in its order. *)
Definition books_in_step {G} (sv : Server.t G) : Prop :=
  ∃ gs rows,
    Server.game_state sv = Some gs
    ∧ Server.excel_logger sv = Some rows
    ∧ NoDup (dict_keys (GameState.commodities gs))
    ∧ dict_keys (Server.price_history sv) = dict_keys (GameState.commodities gs)
    ∧ 0 ≤ Server.global_trade_counter sv
    ∧ Forall (fun series =>
                Server.trade_index <$> series.2
                = seqZ 0 (Server.global_trade_counter sv + 1))
        (Server.price_history sv)
    ∧ Z.of_nat (length (logged_trades rows)) = Server.global_trade_counter sv
    ∧ logged_trades rows `sublist_of` GameState.trades gs.

(** Every ratio is at least 1. *)
Definition ratios_positive (cs : dict Commodity.t) : Prop :=
  Forall (fun item => 1 ≤ Commodity.base_ratio item.2) cs.

(** The supply of a commodity in the game the server holds, if it holds one. *)
Definition supply {G} (sv : Server.t G) (cname : string) : option Z :=
  (fun gs => total_units (GameState.teams gs) cname) <$> Server.game_state sv.

(** A server whose game is the scenario before its first round, and the
    trade of 4 A against 16 B that Team 1 offers Team 2. *)
Definition scenario_server : Server.t nat :=
  Server.mk (Some (scenario_lobby 40)) None ∅ [] 0 0%nat.

Definition scenario_offer : Server.TradeRequest :=
  Server.mk_trade "Team 1" "Team 2" [Server.mk_leg "A" 4] [Server.mk_leg "B" 16].

(** The same offer with the 4 A split over two legs. *)
Definition split_offer : Server.TradeRequest :=
  Server.mk_trade "Team 1" "Team 2"
    [Server.mk_leg "A" 1; Server.mk_leg "A" 3] [Server.mk_leg "B" 16].

(** The server after the console's request for two commodities and three
    teams, in a process that has just started. *)
Definition small_game : Server.t nat :=
  (Server.init_game (H := counting_source) small_request (Server.start 0%nat)).2.

(** The same game after a round in which Team 1 gave Team 2 100 A for 4 B
    and Team 3 did not trade, closed by [end_round]: Team 2 has gained
    Rs 99000, Team 1 has lost as much, and Team 3 has been charged 10% of
    its Rs 2000000. *)
Definition lopsided_offer : Server.TradeRequest :=
  Server.mk_trade "Team 1" "Team 2" [Server.mk_leg "A" 100] [Server.mk_leg "B" 4].

Definition ranked_game : Server.t nat :=
  (Server.end_round
     (Server.post_trade lopsided_offer
        (Server.start_round "round one" small_game).2).2).2.

(** The detail of the 400 answer of an endpoint that needs a game when
    there is none. *)
Definition not_initialized : string :=
  "Game is not initialized. Call /admin/init_game first.".

(** Every team is filed under its own name. *)
Definition teams_named (ts : dict Team.t) : Prop :=
  Forall (fun item => Team.name item.2 = item.1) ts.

(* ===================================================================== *)
(** ** The leaderboard and the list of trades *)
(* ===================================================================== *)

(** [effective_value] of [leaderboard]: the rupee value of the holdings minus
    the penalties recorded under the team's name. *)
Definition effective_value (gs : GameState.t) (tm : Team.t) : res float :=
  match value_rs tm (GameState.commodities gs) with
  | Raise e => Raise e
  | Ok raw =>
      let penalty := default 0%float (GameState.penalties_rs gs !! Team.name tm) in
      Ok (raw - penalty)%float
  end.

(** The keys of [sorted(..., key=effective_value)]: one call per team, in
    the order of the teams, before anything is compared. *)
Fixpoint keyed (gs : GameState.t) (tms : list Team.t) : res (list (float * Team.t)) :=
  match tms with
  | [] => Ok []
  | tm :: tms' =>
      match effective_value gs tm with
      | Raise e => Raise e
      | Ok key =>
          match keyed gs tms' with
          | Raise e => Raise e
          | Ok rest => Ok ((key, tm) :: rest)
          end
      end
  end.

(** [sorted(..., reverse=True)] is a stable sort into descending order of
    the keys. When [<] orders the keys (none of them is NaN) there is one
    such arrangement, the one that inserting the items from the last to the
    first gives: an item goes behind the items with a greater key and before
    the others, which were behind it in the input. *)
Fixpoint insert_desc {A} (x : float * A) (l : list (float * A)) : list (float * A) :=
  match l with
  | [] => [x]
  | y :: l' => if (x.1 <? y.1)%float then y :: insert_desc x l' else x :: l
  end.

Definition sorted_desc {A} (l : list (float * A)) : list (float * A) :=
  foldr insert_desc [] l.

(** [GameState.leaderboard] *)
Definition leaderboard (gs : GameState.t) : res (list Team.t) :=
  match keyed gs (dict_values (GameState.teams gs)) with
  | Raise e => Raise e
  | Ok items => Ok (sorted_desc items).*2
  end.

Module Views.

(** One entry of the answer of [get_trades]: the 1-based position of the
    trade in the journal, and the trade, whose fields the entry copies. *)
Record trade_row : Type := mk_row { index : Z; trade : Trade.t }.

(** The loop of [get_trades] over [enumerate(gs.trades)], from position
    [idx]. *)
Fixpoint trade_rows (round : option Z) (idx : Z) (journal : list Trade.t)
    : list trade_row :=
  match journal with
  | [] => []
  | tr :: journal' =>
      let rest := trade_rows round (idx + 1) journal' in
      match round with
      | Some r =>
          if bool_decide (Trade.round_no tr ≠ r) then rest
          else mk_row (idx + 1) tr :: rest
      | None => mk_row (idx + 1) tr :: rest
      end
  end.

(** [GET /state/trades]: [inl] is the 400 of [ensure_game_initialized]. *)
Definition get_trades {G} (round : option Z) (sv : Server.t G)
    : string + list trade_row :=
  match Server.game_state sv with
  | None => inl not_initialized
  | Some gs => inr (trade_rows round 0 (GameState.trades gs))
  end.

End Views.

(* ===================================================================== *)
(** * Properties *)
(* ===================================================================== *)

(** ** Dictionaries *)

Section dict_facts.
Context {V : Type}.
Implicit Types (d : dict V) (k : string) (v : V).

Lemma dict_get_set_eq d k v : dict_get k (dict_set k v d) = Some v.
Proof.
induction d as [|[k' v'] d IH]; simpl; repeat case_decide; simpl;
repeat case_decide; congruence.
Qed.

Lemma dict_get_set_ne d k k' v :
k ≠ k' -> dict_get k' (dict_set k v d) = dict_get k' d.
Proof.
intros Hne. induction d as [|[k0 v0] d IH]; simpl; repeat case_decide; simpl;
repeat case_decide; congruence.
Qed.

Lemma dict_set_id d k v : dict_get k d = Some v -> dict_set k v d = d.
Proof.
induction d as [|[k0 v0] d IH]; simpl; [done|].
case_decide; [intros [= ->]; by subst | intros Hg; by rewrite IH].
Qed.

Lemma dict_set_set d k v v' : dict_set k v' (dict_set k v d) = dict_set k v' d.
Proof.
induction d as [|[k0 v0] d IH]; simpl; repeat case_decide; simpl;
repeat case_decide; congruence.
Qed.

Lemma dict_keys_set d k v :
is_Some (dict_get k d) -> dict_keys (dict_set k v d) = dict_keys d.
Proof.
unfold dict_keys.
induction d as [|[k0 v0] d IH]; simpl; [by intros [? [=]]|].
case_decide; simpl; [by subst | intros Hs; f_equal; by apply IH].
Qed.

Lemma dict_get_Some_elem d k v : dict_get k d = Some v -> (k, v) ∈ d.
Proof.
induction d as [|[k0 v0] d IH]; simpl; [done|].
case_decide; [intros [= ->]; subst; left | intros Hg; right; auto].
Qed.

Lemma dict_get_None d k : dict_get k d = None <-> k ∉ dict_keys d.
Proof.
unfold dict_keys.
induction d as [|[k0 v0] d IH]; simpl; [split; [intros _; apply not_elem_of_nil|done]|].
rewrite not_elem_of_cons. case_decide; [subst; split; [done|intros [? _]; done]|].
rewrite IH. tauto.
Qed.

Lemma dict_get_is_Some d k : is_Some (dict_get k d) <-> k ∈ dict_keys d.
Proof.
destruct (dict_get k d) eqn:E.
- split; [intros _|eauto]. apply dict_get_Some_elem in E.
unfold dict_keys. apply list_elem_of_fmap. by exists (k, v).
- split; [by intros [? [=]]|]. by apply dict_get_None in E.
Qed.

Lemma dict_set_elem d k v k' v' :
(k', v') ∈ dict_set k v d -> (k', v') = (k, v) ∨ (k', v') ∈ d.
Proof.
induction d as [|[k0 v0] d IH]; simpl.
- intros ?%list_elem_of_singleton. auto.
- case_decide.
+ intros [?|?]%elem_of_cons; [auto|]. right. by right.
+ intros [->|?]%elem_of_cons; [right; by left|].
destruct IH; auto. right. by right.
Qed.
End dict_facts.

(** ** The team store *)

Lemma team_set_qty_get ts key cname q key' :
  is_Some (dict_get key' (team_set_qty ts key cname q)) <-> is_Some (dict_get key' ts).
Proof.
  unfold team_set_qty. destruct (dict_get key ts) eqn:E; [|done].
  destruct (decide (key = key')) as [->|Hne].
  - rewrite dict_get_set_eq, E. split; eauto.
  - by rewrite dict_get_set_ne.
Qed.

Lemma team_set_qty_other ts key cname q key' :
  key ≠ key' -> dict_get key' (team_set_qty ts key cname q) = dict_get key' ts.
Proof.
  intros Hne. unfold team_set_qty. destruct (dict_get key ts); [|done].
  by rewrite dict_get_set_ne.
Qed.

Lemma team_qty_set_eq ts key cname q :
  is_Some (dict_get key ts) -> team_qty (team_set_qty ts key cname q) key cname = q.
Proof.
  intros [tm E]. unfold team_qty, team_set_qty. rewrite E, dict_get_set_eq.
  unfold Team.qty; simpl. by rewrite lookup_insert_eq.
Qed.

Lemma team_qty_set_ne ts key cname q key' cname' :
  key ≠ key' ∨ cname ≠ cname' ->
  team_qty (team_set_qty ts key cname q) key' cname' = team_qty ts key' cname'.
Proof.
  intros Hne. unfold team_qty, team_set_qty.
  destruct (dict_get key ts) as [tm|] eqn:E; [|done].
  destruct (decide (key = key')) as [<-|Hk].
  - rewrite dict_get_set_eq, E. unfold Team.qty; simpl.
    rewrite lookup_insert_ne; [done|]. by destruct Hne.
  - by rewrite dict_get_set_ne.
Qed.

Lemma team_set_qty_keys ts key cname q :
  dict_keys (team_set_qty ts key cname q) = dict_keys ts.
Proof.
  unfold team_set_qty. destruct (dict_get key ts) eqn:E; [|done].
  apply dict_keys_set. eauto.
Qed.

(** ** Transfers between two distinct teams *)

(** Whatever a run of [transfer_legs] between two different teams does, and
    however it ends, it keeps the two teams' joint holding of every commodity
    and leaves every other team alone. *)
Lemma transfer_legs_conserves src dst legs ts r ts' :
  src ≠ dst ->
  is_Some (dict_get src ts) -> is_Some (dict_get dst ts) ->
  transfer_legs src dst legs ts = (r, ts') ->
  (∀ c, team_qty ts' src c + team_qty ts' dst c = team_qty ts src c + team_qty ts dst c)
  ∧ (∀ key, key ≠ src -> key ≠ dst -> dict_get key ts' = dict_get key ts)
  ∧ (∀ key, is_Some (dict_get key ts') <-> is_Some (dict_get key ts)).
Proof.
  intros Hne. revert ts.
  induction legs as [|[cname qty] legs IH]; intros ts Hs Hd; simpl.
  - intros [= <- <-]. done.
  - destruct (qty <? 0); [intros [= <- <-]; done|].
    destruct (team_qty ts src cname <? qty); [intros [= <- <-]; done|].
    set (ts1 := team_set_qty ts src cname (team_qty ts src cname - qty)).
    set (ts2 := team_set_qty ts1 dst cname (team_qty ts1 dst cname + qty)).
    assert (Hs1 : is_Some (dict_get src ts1)) by by apply team_set_qty_get.
    assert (Hd1 : is_Some (dict_get dst ts1)) by by apply team_set_qty_get.
    intros Hrun. apply IH in Hrun as (Hsum & Hoth & Hkeys);
      [|by apply team_set_qty_get|by apply team_set_qty_get].
    split; [|split].
    + intros c. rewrite Hsum. subst ts2.
      destruct (decide (cname = c)) as [<-|Hc].
      * rewrite team_qty_set_eq by done.
        rewrite team_qty_set_ne by auto.
        subst ts1. rewrite team_qty_set_eq by done.
        rewrite team_qty_set_ne by auto. lia.
      * rewrite !team_qty_set_ne by auto. subst ts1.
        by rewrite !team_qty_set_ne by auto.
    + intros key H1 H2. rewrite Hoth by done. subst ts2 ts1.
      by rewrite !team_set_qty_other by done.
    + intros key. rewrite Hkeys. subst ts2 ts1. by rewrite !team_set_qty_get.
Qed.

(** ** Recording a trade *)

Lemma pair_taken_spec journal round a b :
  pair_taken journal round a b = true <->
  ∃ tr, tr ∈ journal ∧ Trade.round_no tr = round
        ∧ Trade.pair tr = ({[ a; b ]} : gset string).
Proof.
  unfold pair_taken. rewrite existsb_exists. split.
  - intros (tr & Hin & Hb). apply andb_true_iff in Hb as [H1 H2].
    apply bool_decide_eq_true in H1, H2. exists tr.
    by rewrite list_elem_of_In.
  - intros (tr & Hin & H1 & H2). exists tr. rewrite <- list_elem_of_In.
    split; [done|]. apply andb_true_iff. by rewrite !bool_decide_eq_true.
Qed.

Lemma pair_taken_false journal round a b :
  pair_taken journal round a b = false <->
  ∀ tr, tr ∈ journal -> Trade.round_no tr = round ->
        Trade.pair tr ≠ ({[ a; b ]} : gset string).
Proof.
  rewrite <- not_true_iff_false, pair_taken_spec. split.
  - intros Hno tr Hin Hr Hp. apply Hno. by exists tr.
  - intros Hall (tr & Hin & Hr & Hp). by apply (Hall tr).
Qed.

(** The pair is unordered. *)
Lemma pair_taken_comm journal round a b :
  pair_taken journal round a b = pair_taken journal round b a.
Proof.
  unfold pair_taken.
  by rewrite (comm_L (∪) ({[ b ]} : gset string) {[ a ]}).
Qed.

Lemma record_trade_no_round from_team to_team give receive gs :
  GameState.current_round gs = 0 ->
  record_trade from_team to_team give receive gs
  = (Raise (ValueError "No active round. Start a round first."), gs).
Proof. intros H0. unfold record_trade. by rewrite H0. Qed.

Lemma record_trade_taken from_team to_team give receive gs :
  GameState.current_round gs ≠ 0 ->
  pair_taken (GameState.trades gs) (GameState.current_round gs) from_team to_team = true ->
  ∃ msg, record_trade from_team to_team give receive gs = (Raise (ValueError msg), gs).
Proof.
  intros Hr Ht. unfold record_trade.
  destruct (Z.eqb_spec (GameState.current_round gs) 0); [done|].
  rewrite Ht. eauto.
Qed.

Lemma record_trade_free from_team to_team give receive gs :
  GameState.current_round gs ≠ 0 ->
  pair_taken (GameState.trades gs) (GameState.current_round gs) from_team to_team = false ->
  record_trade from_team to_team give receive gs
  = let trade := Trade.mk (GameState.current_round gs) from_team to_team give receive in
    match apply_trade trade (GameState.teams gs) with
    | (Raise e, ts) => (Raise e, GameState.with_teams ts gs)
    | (Ok _, ts) =>
        (Ok trade,
         GameState.with_trades (GameState.trades gs ++ [trade])
           (GameState.with_teams ts gs))
    end.
Proof.
  intros Hr Ht. unfold record_trade.
  destruct (Z.eqb_spec (GameState.current_round gs) 0); [done|].
  by rewrite Ht.
Qed.

(** What a successful [record_trade] says about its call. *)
Lemma record_trade_Ok from_team to_team give receive gs tr gs' :
  record_trade from_team to_team give receive gs = (Ok tr, gs') ->
  GameState.current_round gs ≠ 0
  ∧ pair_taken (GameState.trades gs) (GameState.current_round gs) from_team to_team = false
  ∧ tr = Trade.mk (GameState.current_round gs) from_team to_team give receive
  ∧ ∃ ts, apply_trade tr (GameState.teams gs) = (Ok tt, ts)
          ∧ gs' = GameState.with_trades (GameState.trades gs ++ [tr])
                    (GameState.with_teams ts gs).
Proof.
  unfold record_trade.
  destruct (Z.eqb_spec (GameState.current_round gs) 0); [done|].
  destruct (pair_taken _ _ _ _); [done|].
  destruct (apply_trade _ _) as [[[]|e] ts] eqn:E; [|done].
  intros [= <- <-]. eauto 10.
Qed.

(** Whatever its outcome, [record_trade] touches only the teams and the
    journal. *)
Lemma record_trade_frame from_team to_team give receive gs r gs' :
  record_trade from_team to_team give receive gs = (r, gs') ->
  GameState.commodities gs' = GameState.commodities gs
  ∧ GameState.base_commodity gs' = GameState.base_commodity gs
  ∧ GameState.rounds gs' = GameState.rounds gs
  ∧ GameState.current_round gs' = GameState.current_round gs
  ∧ GameState.penalties_rs gs' = GameState.penalties_rs gs
  ∧ GameState.round_open_ratios gs' = GameState.round_open_ratios gs.
Proof.
  unfold record_trade.
  destruct (_ =? 0); [by intros [= <- <-]|].
  destruct (pair_taken _ _ _ _); [by intros [= <- <-]|].
  destruct (apply_trade _ _) as [[[]|e] ts]; by intros [= <- <-].
Qed.

Lemma apply_trade_Ok trade ts ts' :
  apply_trade trade ts = (Ok tt, ts') ->
  is_Some (dict_get (Trade.from_team trade) ts)
  ∧ is_Some (dict_get (Trade.to_team trade) ts)
  ∧ ∃ ts1,
      transfer_legs (Trade.from_team trade) (Trade.to_team trade) (Trade.give trade) ts
      = (Ok tt, ts1)
      ∧ transfer_legs (Trade.to_team trade) (Trade.from_team trade) (Trade.receive trade) ts1
        = (Ok tt, ts').
Proof.
  unfold apply_trade.
  destruct (dict_get (Trade.from_team trade) ts) eqn:Ef; [|done].
  destruct (dict_get (Trade.to_team trade) ts) eqn:Et; [|done].
  destruct (transfer_legs _ _ (Trade.give trade) ts) as [[[]|e] ts1] eqn:E1; [|done].
  intros E2. eauto 10.
Qed.

(** C6. Conservation: a successful trade between two distinct teams keeps,
    for every commodity, the sum of the two teams' holdings, and leaves the
    [Team] object of every other team as it was. *)
Theorem trade_conserves_units from_team to_team give receive gs tr gs' :
  from_team ≠ to_team ->
  record_trade from_team to_team give receive gs = (Ok tr, gs') ->
  (∀ c, team_qty (GameState.teams gs') from_team c
        + team_qty (GameState.teams gs') to_team c
        = team_qty (GameState.teams gs) from_team c
          + team_qty (GameState.teams gs) to_team c)
  ∧ (∀ key, key ≠ from_team -> key ≠ to_team ->
            dict_get key (GameState.teams gs') = dict_get key (GameState.teams gs)).
Proof.
  intros Hne (_ & _ & -> & ts & Happ & ->)%record_trade_Ok.
  apply apply_trade_Ok in Happ as (Hf & Ht & ts1 & E1 & E2). simpl in *.
  apply transfer_legs_conserves in E1 as (S1 & O1 & K1); [|done..].
  apply transfer_legs_conserves in E2 as (S2 & O2 & K2);
    [|done|by apply K1|by apply K1].
  split.
  - intros c. specialize (S1 c). specialize (S2 c). lia.
  - intros key H1 H2. by rewrite O2, O1.
Qed.

(** The spec's scenario: Team 1 gives 4 A and receives 16 B from Team 2. *)
Lemma trade_conserves_units_witness :
  (∀ c, team_qty (GameState.teams
                    (record_trade "Team 1" "Team 2" [("A", 4)] [("B", 16)]
                       (scenario_state 40)).2) "Team 1" c
        + team_qty (GameState.teams
                      (record_trade "Team 1" "Team 2" [("A", 4)] [("B", 16)]
                         (scenario_state 40)).2) "Team 2" c
        = team_qty (GameState.teams (scenario_state 40)) "Team 1" c
          + team_qty (GameState.teams (scenario_state 40)) "Team 2" c)
  ∧ (∀ key, key ≠ "Team 1" -> key ≠ "Team 2" ->
            dict_get key (GameState.teams
                            (record_trade "Team 1" "Team 2" [("A", 4)] [("B", 16)]
                               (scenario_state 40)).2)
            = dict_get key (GameState.teams (scenario_state 40))).
Proof.
  apply (trade_conserves_units "Team 1" "Team 2" [("A", 4)] [("B", 16)]
           (scenario_state 40) (Trade.mk 1 "Team 1" "Team 2" [("A", 4)] [("B", 16)])).
  - discriminate.
  - vm_compute. reflexivity.
Defined.

Example scenario_trade :
  let gs' := (record_trade "Team 1" "Team 2" [("A", 4)] [("B", 16)] (scenario_state 40)).2 in
  team_qty (GameState.teams gs') "Team 1" "A" = 6
  ∧ team_qty (GameState.teams gs') "Team 1" "B" = 16
  ∧ team_qty (GameState.teams gs') "Team 2" "A" = 4
  ∧ team_qty (GameState.teams gs') "Team 2" "B" = 24.
Proof. vm_compute. done. Qed.

(** ** The journal of a run *)

Lemma update_prices_frame gs r gs' :
  update_prices_from_ratios gs = (r, gs') ->
  GameState.teams gs' = GameState.teams gs
  ∧ GameState.base_commodity gs' = GameState.base_commodity gs
  ∧ GameState.trades gs' = GameState.trades gs
  ∧ GameState.rounds gs' = GameState.rounds gs
  ∧ GameState.current_round gs' = GameState.current_round gs
  ∧ GameState.penalties_rs gs' = GameState.penalties_rs gs
  ∧ GameState.round_open_ratios gs' = GameState.round_open_ratios gs.
Proof.
  unfold update_prices_from_ratios. case_decide; [by intros [= <- <-]|].
  destruct (dict_for_each _ _) as [r0 cs]. by intros [= <- <-].
Qed.

Lemma update_ratios_frame sensitivity circuit_pct gs r gs' :
  update_ratios_auto sensitivity circuit_pct gs = (r, gs') ->
  GameState.teams gs' = GameState.teams gs
  ∧ GameState.base_commodity gs' = GameState.base_commodity gs
  ∧ GameState.trades gs' = GameState.trades gs
  ∧ GameState.rounds gs' = GameState.rounds gs
  ∧ GameState.current_round gs' = GameState.current_round gs
  ∧ GameState.penalties_rs gs' = GameState.penalties_rs gs
  ∧ GameState.round_open_ratios gs' = GameState.round_open_ratios gs.
Proof.
  unfold update_ratios_auto. destruct (_ =? 0); [by intros [= <- <-]|].
  destruct (compute_net_demand _ _); [|by intros [= <- <-]].
  destruct (dict_for_each _ _) as [[[]|e] cs]; by intros [= <- <-].
Qed.

Lemma apply_round_penalties_frame round_no rate1 rate2 gs r gs' :
  apply_round_penalties round_no rate1 rate2 gs = (r, gs') ->
  GameState.commodities gs' = GameState.commodities gs
  ∧ GameState.teams gs' = GameState.teams gs
  ∧ GameState.base_commodity gs' = GameState.base_commodity gs
  ∧ GameState.trades gs' = GameState.trades gs
  ∧ GameState.rounds gs' = GameState.rounds gs
  ∧ GameState.current_round gs' = GameState.current_round gs
  ∧ GameState.round_open_ratios gs' = GameState.round_open_ratios gs.
Proof.
  unfold apply_round_penalties.
  destruct (penalties_loop _ _ _ _ _ _) as [r0 pen]. by intros [= <- <-].
Qed.

Lemma distinct_pairs_snoc journal tr :
  distinct_pairs journal ->
  (∀ tr', tr' ∈ journal -> Trade.round_no tr' = Trade.round_no tr ->
          Trade.pair tr' ≠ Trade.pair tr) ->
  distinct_pairs (journal ++ [tr]).
Proof.
  intros Hd Hnew i j tr1 tr2 Hij H1 H2 Hr.
  apply lookup_snoc_Some in H1 as [[Hi H1]|[Hi ->]];
    apply lookup_snoc_Some in H2 as [[Hj H2]|[Hj ->]].
  - by apply (Hd i j).
  - apply Hnew; [|done]. by apply list_elem_of_lookup_2 in H1.
  - intros E. symmetry in E. revert E. apply Hnew; [|done].
    by apply list_elem_of_lookup_2 in H2.
  - lia.
Qed.

Lemma journal_ok_step gs gs' : journal_ok gs -> engine_step gs gs' -> journal_ok gs'.
Proof.
  intros Hok Hstep.
  destruct Hstep as [gs1 gs2 Hstep|news gs1]; destruct Hok as [Hle Hd].
  - destruct Hstep as [f t g r gs1 res gs2 E|s p gs1 res gs2 E|gs1 res gs2 E
                      |n r1 r2 gs1 res gs2 E].
    + destruct res as [tr|e].
      * apply record_trade_Ok in E as (Hr & Hfree & -> & ts & _ & ->).
        split; simpl.
        -- intros tr [Hin| ->%list_elem_of_singleton]%elem_of_app; [auto|simpl; lia].

        -- apply distinct_pairs_snoc; [done|]. simpl. intros tr' Hin Hr'.
           rewrite pair_taken_false in Hfree. by apply Hfree.
      * assert (GameState.trades gs2 = GameState.trades gs1) as Ht.
        { revert E. unfold record_trade.
          destruct (_ =? 0); [by intros [= _ <-]|].
          destruct (pair_taken _ _ _ _); [by intros [= _ <-]|].
          destruct (apply_trade _ _) as [[[]|e'] ts]; [done|by intros [= _ <-]]. }
        apply record_trade_frame in E as (_ & _ & _ & Hc & _).
        unfold journal_ok. by rewrite Ht, Hc.
    + apply update_ratios_frame in E as (_ & _ & Ht & _ & Hc & _).
      unfold journal_ok. by rewrite Ht, Hc.
    + apply update_prices_frame in E as (_ & _ & Ht & _ & Hc & _).
      unfold journal_ok. by rewrite Ht, Hc.
    + apply apply_round_penalties_frame in E as (_ & _ & _ & Ht & _ & Hc & _).
      unfold journal_ok. by rewrite Ht, Hc.
  - split; simpl; [|done]. intros tr Hin. specialize (Hle tr Hin). lia.
Qed.

Lemma journal_ok_run gs gs' : journal_ok gs -> rtc engine_step gs gs' -> journal_ok gs'.
Proof. intros Hok Hrun. induction Hrun; eauto using journal_ok_step. Qed.

(** C5. Pairwise uniqueness. (1) In an active round a trade between a pair
    that already has a trade of the current round in the journal raises a
    ValueError and changes nothing, whichever way round the pair is given.
    (2) Hence, in every run of the engine from an empty journal, two entries
    of one round join different unordered pairs. (3) A pair with no trade of
    the current round is not stopped by the rule: the outcome is that of
    applying the trade. *)
Theorem one_trade_per_pair_per_round :
  (∀ gs a b give receive tr,
      GameState.current_round gs ≠ 0 ->
      tr ∈ GameState.trades gs ->
      Trade.round_no tr = GameState.current_round gs ->
      Trade.pair tr = ({[ a; b ]} : gset string) ->
      (∃ msg, record_trade a b give receive gs = (Raise (ValueError msg), gs))
      ∧ (∃ msg, record_trade b a give receive gs = (Raise (ValueError msg), gs)))
  ∧ (∀ gs0 gs,
        GameState.trades gs0 = [] ->
        rtc engine_step gs0 gs ->
        distinct_pairs (GameState.trades gs))
  ∧ (∀ gs a b give receive,
        GameState.current_round gs ≠ 0 ->
        (∀ tr, tr ∈ GameState.trades gs ->
               Trade.round_no tr = GameState.current_round gs ->
               Trade.pair tr ≠ ({[ a; b ]} : gset string)) ->
        record_trade a b give receive gs
        = let trade := Trade.mk (GameState.current_round gs) a b give receive in
          match apply_trade trade (GameState.teams gs) with
          | (Raise e, ts) => (Raise e, GameState.with_teams ts gs)
          | (Ok _, ts) =>
              (Ok trade,
               GameState.with_trades (GameState.trades gs ++ [trade])
                 (GameState.with_teams ts gs))
          end).
Proof.
  split; [|split].
  - intros gs a b give receive tr Hr Hin Hround Hpair.
    assert (pair_taken (GameState.trades gs) (GameState.current_round gs) a b = true) as Ht.
    { apply pair_taken_spec. by exists tr. }
    split; apply record_trade_taken; try done. by rewrite pair_taken_comm.
  - intros gs0 gs Hempty Hrun.
    apply (journal_ok_run gs0 gs); [|done].
    split; rewrite Hempty; [by intros tr ?%elem_of_nil|].
    by intros i j tr1 tr2 _ ?.
  - intros gs a b give receive Hr Hfree.
    apply record_trade_free; [done|]. by apply pair_taken_false.
Qed.

(** The spec's scenario in round 1: Team 1 and Team 2 trade once; a second
    trade between them, either way round, is refused and changes nothing; a
    trade between Team 1 and Team 3 still goes through. *)
Example second_trade_refused :
  let gs1 := (record_trade "Team 1" "Team 2" [("A", 4)] [("B", 16)] (scenario_state 40)).2 in
  (record_trade "Team 2" "Team 1" [("B", 4)] [("A", 1)] gs1).1
  = Raise (ValueError "Only one trade allowed between Team 2 and Team 1 in round 1.")
  ∧ (record_trade "Team 2" "Team 1" [("B", 4)] [("A", 1)] gs1).2 = gs1
  ∧ is_ok (record_trade "Team 1" "Team 3" [("A", 1)] [("B", 4)] gs1).1 = true.
Proof. vm_compute. done. Qed.

(** ** Self-trades *)

Lemma teams_with_trades_spec gs round_no t :
  t ∈ teams_with_trades_in_round gs round_no <->
  ∃ tr, tr ∈ GameState.trades gs ∧ Trade.round_no tr = round_no
        ∧ (Trade.from_team tr = t ∨ Trade.to_team tr = t).
Proof.
  unfold teams_with_trades_in_round.
  induction (GameState.trades gs) as [|tr journal IH] using rev_ind; simpl.
  - split; [by intros ?%not_elem_of_empty|by intros (? & ?%elem_of_nil & _)].
  - rewrite foldl_app. simpl. case_bool_decide as Hr.
    + rewrite IH. split.
      * intros (tr' & Hin & H1 & H2). exists tr'. rewrite elem_of_app. auto.
      * intros (tr' & [Hin| ->%list_elem_of_singleton]%elem_of_app & H1 & H2);
          [by exists tr'|done].
    + rewrite !elem_of_union, !elem_of_singleton, IH. split.
      * intros [->|[->|(tr' & Hin & H1 & H2)]].
        -- exists tr. rewrite elem_of_app, list_elem_of_singleton. auto.
        -- exists tr. rewrite elem_of_app, list_elem_of_singleton. auto.
        -- exists tr'. rewrite elem_of_app. auto.
      * intros (tr' & [Hin| ->%list_elem_of_singleton]%elem_of_app & H1 & H2).
        -- right; right. by exists tr'.
        -- destruct H2 as [<-|<-]; auto.
Qed.

(** A leg moved from a team to itself is checked against the team's
    holding and then undone by the second assignment. *)
Lemma transfer_legs_self t legs ts :
  is_Some (dict_get t ts) ->
  Forall (fun leg => 0 ≤ leg.2 ≤ team_qty ts t leg.1) legs ->
  ∃ ts',
    transfer_legs t t legs ts = (Ok tt, ts')
    ∧ (∀ key c, team_qty ts' key c = team_qty ts key c)
    ∧ (∀ key, is_Some (dict_get key ts') <-> is_Some (dict_get key ts))
    ∧ (Forall (fun leg => 0 < leg.2) legs -> ts' = ts).
Proof.
  revert ts. induction legs as [|[cname qty] legs IH]; intros ts Ht Hlegs; simpl.
  - by exists ts.
  - apply Forall_cons in Hlegs as [[Hq0 Hq] Hlegs]. simpl in *.
    destruct (Z.ltb_spec qty 0); [lia|].
    destruct (Z.ltb_spec (team_qty ts t cname) qty); [lia|].
    set (q := team_qty ts t cname) in *.
    set (ts1 := team_set_qty ts t cname (q - qty)).
    assert (Ht1 : is_Some (dict_get t ts1)) by by apply team_set_qty_get.
    assert (E1 : team_qty ts1 t cname = q - qty) by by apply team_qty_set_eq.
    rewrite E1. replace (q - qty + qty) with q by lia.
    set (ts2 := team_set_qty ts1 t cname q).
    assert (Hsame : ∀ key c, team_qty ts2 key c = team_qty ts key c).
    { intros key c. subst ts2.
      destruct (decide (t = key ∧ cname = c)) as [[<- <-]|Hne].
      - by rewrite team_qty_set_eq.
      - rewrite team_qty_set_ne by (apply not_and_l in Hne; tauto).
        subst ts1. rewrite team_qty_set_ne by (apply not_and_l in Hne; tauto). done. }
    assert (Hkeys : ∀ key, is_Some (dict_get key ts2) <-> is_Some (dict_get key ts)).
    { intros key. subst ts2 ts1. by rewrite !team_set_qty_get. }
    destruct (IH ts2) as (ts' & Erun & Hq' & Hk' & Hstrict).
    { by apply Hkeys. }
    { eapply Forall_impl; [exact Hlegs|]. intros [c' q'] ?; simpl in *.
      by rewrite Hsame. }
    exists ts'. split; [done|]. split; [|split].
    + intros key c. by rewrite Hq', Hsame.
    + intros key. by rewrite Hk', Hkeys.
    + intros [Hpos Hrest]%Forall_cons. simpl in Hpos.
      rewrite Hstrict by done.
      destruct Ht as [tm Etm]. subst ts2 ts1 q.
      unfold team_qty, Team.qty in Hq, E1 |- *. unfold team_set_qty.
      rewrite Etm in Hq |- *. rewrite dict_get_set_eq, dict_set_set. simpl.
      rewrite insert_insert_eq.
      destruct (Team.holdings tm !! cname) as [q|] eqn:Eq; simpl in *; [|lia].
      rewrite insert_id by done.
      destruct tm as [n h]. unfold Team.with_holdings; simpl.
      by apply dict_set_id.
Qed.

(** C10. A trade of a team with itself is not refused as such: in an
    active round, if the team exists, has not already traded with itself in
    this round, and every leg is a non-negative quantity it holds, the call
    succeeds; no team's holding of any commodity changes (the teams are left
    exactly as they were when every quantity is positive, as the server
    ensures); the trade is appended to the journal, so the team counts as
    having traded in the round, and a second self-trade of the team in the
    round raises a ValueError and changes nothing. *)
Theorem self_trade_recorded_without_effect gs t give receive :
  GameState.current_round gs ≠ 0 ->
  is_Some (dict_get t (GameState.teams gs)) ->
  pair_taken (GameState.trades gs) (GameState.current_round gs) t t = false ->
  Forall (fun leg => 0 ≤ leg.2 ≤ team_qty (GameState.teams gs) t leg.1) (give ++ receive) ->
  let tr := Trade.mk (GameState.current_round gs) t t give receive in
  ∃ gs',
    record_trade t t give receive gs = (Ok tr, gs')
    ∧ GameState.trades gs' = GameState.trades gs ++ [tr]
    ∧ (∀ key c, team_qty (GameState.teams gs') key c = team_qty (GameState.teams gs) key c)
    ∧ (Forall (fun leg => 0 < leg.2) (give ++ receive) ->
       GameState.teams gs' = GameState.teams gs)
    ∧ t ∈ teams_with_trades_in_round gs' (GameState.current_round gs)
    ∧ (∀ give2 receive2,
          ∃ msg, record_trade t t give2 receive2 gs' = (Raise (ValueError msg), gs')).
Proof.
  intros Hr Ht Hfree [Hgive Hrecv]%Forall_app tr.
  destruct (transfer_legs_self t give (GameState.teams gs)) as (ts1 & E1 & Q1 & K1 & S1);
    [done..|].
  destruct (transfer_legs_self t receive ts1) as (ts2 & E2 & Q2 & K2 & S2).
  { by apply K1. }
  { eapply Forall_impl; [exact Hrecv|]. intros [c q] ?; simpl in *. by rewrite Q1. }
  assert (Eapp : apply_trade tr (GameState.teams gs) = (Ok tt, ts2)).
  { unfold apply_trade, tr; simpl. destruct Ht as [tm ->]. by rewrite E1. }
  exists (GameState.with_trades (GameState.trades gs ++ [tr]) (GameState.with_teams ts2 gs)).
  split; [|split; [|split; [|split; [|split]]]]; simpl.
  - rewrite record_trade_free by done. cbv zeta. unfold tr in Eapp |- *.
    by rewrite Eapp.
  - done.
  - intros key c. by rewrite Q2, Q1.
  - intros [Hg Hc]%Forall_app. by rewrite S2, S1.
  - apply teams_with_trades_spec. exists tr. simpl.
    rewrite elem_of_app, list_elem_of_singleton. auto.
  - intros give2 receive2. apply record_trade_taken; simpl; [done|].
    apply pair_taken_spec. exists tr.
    rewrite elem_of_app, list_elem_of_singleton. auto.
Qed.

(** Team 3 moves 2 A to itself and takes 8 B from itself in round 1. *)
Lemma self_trade_recorded_without_effect_witness :
  ∃ gs',
    record_trade "Team 3" "Team 3" [("A", 2)] [("B", 8)] (scenario_state 40)
    = (Ok (Trade.mk 1 "Team 3" "Team 3" [("A", 2)] [("B", 8)]), gs')
    ∧ GameState.trades gs'
      = GameState.trades (scenario_state 40)
        ++ [Trade.mk 1 "Team 3" "Team 3" [("A", 2)] [("B", 8)]]
    ∧ (∀ key c, team_qty (GameState.teams gs') key c
                = team_qty (GameState.teams (scenario_state 40)) key c)
    ∧ (Forall (fun leg => 0 < leg.2) ([("A", 2)] ++ [("B", 8)]) ->
       GameState.teams gs' = GameState.teams (scenario_state 40))
    ∧ "Team 3" ∈ teams_with_trades_in_round gs' 1
    ∧ (∀ give2 receive2,
          ∃ msg, record_trade "Team 3" "Team 3" give2 receive2 gs'
                 = (Raise (ValueError msg), gs')).
Proof.
  apply (self_trade_recorded_without_effect (scenario_state 40) "Team 3"
           [("A", 2)] [("B", 8)]).
  - discriminate.
  - vm_compute. eauto.
  - vm_compute. reflexivity.
  - repeat constructor; vm_compute; discriminate.
Defined.

(** ** A rejected trade that has already moved units *)

(** C1, on the code: Team 2 holds 10 B. Team 1 offers 4 A for 16 B. The call
    raises for the missing B, the journal is unchanged, and the 4 A have
    moved from Team 1 to Team 2 all the same; through the server the client
    is told the trade was refused while the holdings have changed. *)
Theorem rejected_trade_keeps_first_transfer :
  let gs := scenario_state 10 in
  let out := record_trade "Team 1" "Team 2" [("A", 4)] [("B", 16)] gs in
  out.1 = Raise (ValueError "Team 2 does not have enough B")
  ∧ GameState.trades out.2 = GameState.trades gs
  ∧ team_qty (GameState.teams gs) "Team 1" "A" = 10
  ∧ team_qty (GameState.teams out.2) "Team 1" "A" = 6
  ∧ team_qty (GameState.teams gs) "Team 2" "A" = 0
  ∧ team_qty (GameState.teams out.2) "Team 2" "A" = 4
  ∧ ∀ (G : Type) (sv : Server.t G),
      Server.game_state sv = Some gs ->
      let reply := Server.post_trade
                     (Server.mk_trade "Team 1" "Team 2"
                        [Server.mk_leg "A" 4] [Server.mk_leg "B" 16]) sv in
      reply.1 = Server.Http400 "Team 2 does not have enough B"
      ∧ Server.game_state reply.2 = Some out.2.
Proof.
  cbv zeta. split_and!.
  1-6: vm_compute; reflexivity.
  intros G sv Hsv. unfold Server.post_trade. rewrite Hsv.
  split; vm_compute; reflexivity.
Qed.

(** ** Loops over a dictionary *)

Lemma dict_for_keys {V A} (body : A -> string -> V -> res A * V) a d r d' :
  dict_for body a d = (r, d') -> dict_keys d' = dict_keys d.
Proof.
  unfold dict_keys. revert a r d'.
  induction d as [|[k v] d IH]; intros a r d'; simpl.
  - by intros [= <- <-].
  - destruct (body a k v) as [[a'|e] v'].
    + destruct (dict_for body a' d) as [r1 d1] eqn:E. intros [= <- <-]. simpl.
      f_equal. by eapply IH.
    + by intros [= <- <-].
Qed.

(** Every object of the dictionary is either left as it was or as the body
    made it; all of them are as the body made them if the loop ends normally. *)
Lemma dict_for_each_items {V} (body : string -> V -> res V) d r d' :
  dict_for_each body d = (r, d') ->
  Forall2 (fun old new =>
             new.1 = old.1
             ∧ (body old.1 old.2 = Ok new.2 ∨ (r ≠ Ok tt ∧ new.2 = old.2))) d d'.
Proof.
  unfold dict_for_each. revert r d'.
  induction d as [|[k v] d IH]; intros r d'; simpl.
  - intros [= <- <-]. constructor.
  - destruct (body k v) as [v'|e] eqn:Eb.
    + destruct (dict_for _ tt d) as [r1 d1] eqn:E. intros [= <- <-].
      constructor; [simpl; auto|]. by apply IH.
    + intros [= <- <-]. constructor; [simpl; auto|].
      apply Forall2_same_length_lookup. split; [done|].
      intros i x y Hx Hy. assert (x = y) as -> by congruence. auto.
Qed.

Lemma dict_for_each_keys {V} (body : string -> V -> res V) d r d' :
  dict_for_each body d = (r, d') -> dict_keys d' = dict_keys d.
Proof. apply dict_for_keys. Qed.

(** The loop ends normally when the body does on every object. *)
Lemma dict_for_each_total {V} (body : string -> V -> res V) d :
  Forall (fun item => is_ok (body item.1 item.2) = true) d ->
  ∃ d', dict_for_each body d = (Ok tt, d').
Proof.
  unfold dict_for_each. induction d as [|[k v] d IH]; simpl.
  - eauto.
  - intros [Hk Hd]%Forall_cons. simpl in Hk.
    destruct (body k v) as [v'|e]; [|done].
    destruct (IH Hd) as [d' ->]. eauto.
Qed.

(** ** Prices *)

Lemma price_commodity_priced base cname c c' :
  price_commodity base cname c = Ok c' -> priced base (cname, c) (cname, c').
Proof.
  unfold price_commodity, priced. simpl. case_decide.
  - intros [= <-]. done.
  - destruct (PyFloat.of_int _) as [rf|e] eqn:E; simpl; [|done].
    intros [= <-]. split; [done|]. simpl.
    destruct (Z.leb_spec (Commodity.base_ratio c) 0); simpl in *.
    + split; [lia|]. eauto.
    + split; [lia|]. eauto.
Qed.

(** The loop ends normally only when the body does on every object, and
    an exception of the loop is one of the body. *)
Lemma dict_for_each_Ok_bodies {V} (body : string -> V -> res V) d d' :
  dict_for_each body d = (Ok tt, d') ->
  Forall (fun item => is_ok (body item.1 item.2) = true) d.
Proof.
  intros E. apply dict_for_each_items in E.
  induction E as [|old new d d' [_ [Hb|[? _]]] _ IH]; [constructor| |done].
  constructor; [by rewrite Hb|done].
Qed.

Lemma dict_for_each_Raise {V} (body : string -> V -> res V) d e d' :
  dict_for_each body d = (Raise e, d') ->
  ∃ item, item ∈ d ∧ body item.1 item.2 = Raise e.
Proof.
  unfold dict_for_each. revert d'.
  induction d as [|[k v] d IH]; intros d'; simpl; [done|].
  destruct (body k v) as [v'|e'] eqn:Eb.
  - destruct (dict_for _ tt d) as [r1 d1] eqn:E. intros [= -> <-].
    destruct (IH _ eq_refl) as (item & Hin & Hitem).
    exists item. split; [by right|done].
  - intros [= -> <-]. exists (k, v). split; [by left|done].
Qed.

Lemma price_commodity_is_ok base cname c :
  is_ok (price_commodity base cname c) = true
  <-> (cname ≠ base -> Commodity.base_ratio c < float_int_bound).
Proof.
  unfold price_commodity, PyFloat.of_int, float_int_bound.
  case_decide as Hb; [by split|].
  destruct (Z.leb_spec (Commodity.base_ratio c) 0) as [H0|H0]; simpl.
  - split; [intros _ _; lia|done].
  - destruct (Z.ltb_spec (Z.abs (Commodity.base_ratio c)) (2 ^ 1024 - 2 ^ 970)); simpl.
    + split; [intros _ _; lia|done].
    + split; [done|]. intros Hsmall. specialize (Hsmall Hb). lia.
Qed.

(** C8, as the code has it. With a base commodity set, a run of
    [update_prices_from_ratios] returns exactly when every commodity other
    than the base has a ratio that converts to float (below
    [2^1024 - 2^970]); otherwise it raises the OverflowError of
    [float(ratio)]. A run that returns leaves only the commodities changed:
    the base commodity at ratio 1 and price BASE_PRICE, every other commodity
    at its ratio (1 if it was not positive) and at the price
    BASE_PRICE / float(ratio), the binary64 quotient. *)
Theorem prices_are_base_price_over_ratio gs :
  GameState.base_commodity gs ≠ "" ->
  let out := update_prices_from_ratios gs in
  (out.1 = Ok tt
   <-> Forall (fun item => item.1 ≠ GameState.base_commodity gs ->
                           Commodity.base_ratio item.2 < float_int_bound)
         (GameState.commodities gs))
  ∧ (∀ e, out.1 = Raise e -> e = OverflowError "int too large to convert to float")
  ∧ (out.1 = Ok tt ->
     Forall2 (priced (GameState.base_commodity gs))
       (GameState.commodities gs) (GameState.commodities out.2)
     ∧ out.2 = GameState.with_commodities (GameState.commodities out.2) gs).
Proof.
  intros Hbase. cbv zeta. unfold update_prices_from_ratios.
  case_decide; [done|].
  destruct (dict_for_each _ _) as [r cs'] eqn:E. simpl. split_and!.
  - split.
    + intros ->. apply dict_for_each_Ok_bodies in E.
      eapply Forall_impl; [exact E|]. intros [k c] Hok. simpl in *.
      by apply price_commodity_is_ok.
    + intros Hsmall.
      destruct (dict_for_each_total (price_commodity (GameState.base_commodity gs))
                  (GameState.commodities gs)) as [cs2 E2]; [|congruence].
      eapply Forall_impl; [exact Hsmall|]. intros [k c] Hc. simpl in *.
      by apply price_commodity_is_ok.
  - intros e ->. apply dict_for_each_Raise in E as ([k c] & _ & Hraise).
    revert Hraise. unfold price_commodity, PyFloat.of_int. simpl.
    case_decide; [done|]. destruct (_ <? _); simpl; [done|]. by intros [= <-].
  - intros ->. split; [|done].
    apply dict_for_each_items in E.
    eapply Forall2_impl; [exact E|].
    intros [k c] [k' c'] [Hk [Hb|[? _]]]; simpl in *; [|done]. subst k'.
    by apply price_commodity_priced.
Qed.

Lemma prices_are_base_price_over_ratio_witness :
  let out := update_prices_from_ratios console_state in
  (out.1 = Ok tt
   <-> Forall (fun item => item.1 ≠ GameState.base_commodity console_state ->
                           Commodity.base_ratio item.2 < float_int_bound)
         (GameState.commodities console_state))
  ∧ (∀ e, out.1 = Raise e -> e = OverflowError "int too large to convert to float")
  ∧ (out.1 = Ok tt ->
     Forall2 (priced (GameState.base_commodity console_state))
       (GameState.commodities console_state) (GameState.commodities out.2)
     ∧ out.2 = GameState.with_commodities (GameState.commodities out.2) console_state).
Proof.
  apply (prices_are_base_price_over_ratio console_state). discriminate.
Defined.

(** C8, as stated, fails twice. On the console's own commodity list Cocoa
    has ratio 30, its price is 1000.0 / 30.0 = 33.333333333333336, and
    33.333333333333336 * 30 is 1000.0000000000001, not 1000.0. And not every
    run returns: with C at ratio 2^1024 listed before the base D, the run
    raises at C and leaves D, the base, at its ratio 7 and price 0.0. *)
Lemma price_times_ratio_is_not_base_price :
  let out := update_prices_from_ratios console_state in
  let cocoa := default (Commodity.new "" 0 0)
                 (dict_get "Cocoa" (GameState.commodities out.2)) in
  let broken := update_prices_from_ratios oversized_state in
  (out.1 = Ok tt
   ∧ Commodity.base_ratio cocoa = 30
   ∧ Commodity.price cocoa = 33.333333333333336%float
   ∧ PyFloat.of_int (Commodity.base_ratio cocoa) = Ok 30%float
   ∧ (Commodity.price cocoa * 30)%float = 1000.0000000000001%float
   ∧ (Commodity.price cocoa * 30 =? BASE_PRICE_RS)%float = false)
  ∧ (GameState.base_commodity oversized_state = "D"
     ∧ broken.1 = Raise (OverflowError "int too large to convert to float")
     ∧ dict_get "D" (GameState.commodities broken.2) = Some (Commodity.new "D" 0 7)).
Proof. cbv zeta. split_and!; vm_compute; reflexivity. Qed.

(** ** The circuit breaker *)

(** The snapshot [start_round] takes holds every commodity's ratio. *)
Lemma round_open_snapshot (cs : dict Commodity.t) cname c :
  NoDup (dict_keys cs) -> (cname, c) ∈ cs ->
  foldl (fun m '(k, c) => <[k := Commodity.base_ratio c]> m) (∅ : gmap string Z) cs !! cname
  = Some (Commodity.base_ratio c).
Proof.
  unfold dict_keys. induction cs as [|[k c1] cs IH] using rev_ind.
  - by intros _ ?%elem_of_nil.
  - rewrite fmap_app, foldl_app. simpl.
    intros [Hnd [Hdisj _]]%NoDup_app [Hin|[= -> ->]%list_elem_of_singleton]%elem_of_app.
    + rewrite lookup_insert_ne; [by apply IH|].
      intros ->. apply (Hdisj cname); [|by left].
      apply list_elem_of_fmap. by exists (cname, c).
    + apply lookup_insert_eq.
Qed.

Lemma ratio_commodity_base base net total_abs round_open s p cname c c' :
  ratio_commodity base net total_abs round_open s p cname c = Ok c' ->
  cname = base -> Commodity.base_ratio c' = 1.
Proof. unfold ratio_commodity. intros E ->. case_decide; [|done]. by injection E as <-. Qed.

(** The new ratio of a commodity other than the base is the proposed one
    clamped between the two bounds computed from its reference ratio. *)
Lemma ratio_commodity_clamped base net total_abs round_open s p cname c c' :
  ratio_commodity base net total_abs round_open s p cname c = Ok c' ->
  cname ≠ base ->
  ∃ lo hi,
    let open_ratio := open_ratio_of round_open cname (Z.max 1 (Commodity.base_ratio c)) in
    round_scaled open_ratio (1 - p)%float = Ok lo
    ∧ round_scaled open_ratio (1 + p)%float = Ok hi
    ∧ Z.max 1 lo ≤ Commodity.base_ratio c'
    ∧ Commodity.base_ratio c' ≤ Z.max (Z.max 1 lo + 1) hi.
Proof.
  unfold ratio_commodity, circuit_bounds. intros E Hne. case_decide; [done|].
  destruct (round_scaled (Z.max 1 _) _) as [pr|e]; simpl in E; [|done].
  destruct (round_scaled (open_ratio_of _ _ _) (1 - p)) as [lo|e]; simpl in E; [|done].
  destruct (round_scaled (open_ratio_of _ _ _) (1 + p)) as [hi|e]; simpl in E; [|done].
  injection E as <-. exists lo, hi. simpl. split_and!; [done|done|lia|lia].
Qed.

Lemma open_ratio_of_snapshot round_open cname old r :
  round_open !! cname = Some r -> open_ratio_of round_open cname old = Z.max 1 r.
Proof.
  unfold open_ratio_of. intros ->. simpl. destruct (Z.ltb_spec r 1); lia.
Qed.

Lemma update_ratios_keys s p gs r gs' :
  update_ratios_auto s p gs = (r, gs') ->
  dict_keys (GameState.commodities gs') = dict_keys (GameState.commodities gs).
Proof.
  unfold update_ratios_auto. destruct (_ =? 0); [by intros [= <- <-]|].
  destruct (compute_net_demand _ _); [|by intros [= <- <-]].
  destruct (dict_for_each _ _) as [[[]|e] cs] eqn:E; intros [= <- <-]; simpl;
    apply dict_for_each_keys in E; [|done].
  destruct (dict_get _ cs) eqn:Eb; [|done].
  rewrite dict_keys_set; [done|eauto].
Qed.

Lemma update_prices_keys gs r gs' :
  update_prices_from_ratios gs = (r, gs') ->
  dict_keys (GameState.commodities gs') = dict_keys (GameState.commodities gs).
Proof.
  unfold update_prices_from_ratios. case_decide; [by intros [= <- <-]|].
  destruct (dict_for_each _ _) as [r0 cs] eqn:E. intros [= <- <-]. simpl.
  by apply dict_for_each_keys in E.
Qed.

Lemma same_round_step gs0 gs gs' :
  same_round gs0 gs -> in_round_step gs gs' -> same_round gs0 gs'.
Proof.
  intros (Hk & Hb & Hc & Ho) Hstep. unfold same_round.
  destruct Hstep as [f t g r gs res gs' E|s p gs res gs' E|gs res gs' E
                    |n r1 r2 gs res gs' E].
  - apply record_trade_frame in E as (E1 & E2 & _ & E3 & _ & E4).
    by rewrite E1, E2, E3, E4.
  - pose proof (update_ratios_keys _ _ _ _ _ E) as E1.
    apply update_ratios_frame in E as (_ & E2 & _ & _ & E3 & _ & E4).
    by rewrite E1, E2, E3, E4.
  - pose proof (update_prices_keys _ _ _ E) as E1.
    apply update_prices_frame in E as (_ & E2 & _ & _ & E3 & _ & E4).
    by rewrite E1, E2, E3, E4.
  - apply apply_round_penalties_frame in E as (E1 & _ & E2 & _ & _ & E3 & E4).
    by rewrite E1, E2, E3, E4.
Qed.

Lemma same_round_run gs0 gs gs' :
  same_round gs0 gs -> rtc in_round_step gs gs' -> same_round gs0 gs'.
Proof. intros H0 Hrun. induction Hrun; eauto using same_round_step. Qed.

(** One successful ratio update establishes the circuit, whatever the
    ratios were before it. *)
Lemma update_ratios_establishes_circuit s p gs0 gs gs' :
  NoDup (dict_keys (GameState.commodities gs0)) ->
  dict_keys (GameState.commodities gs) = dict_keys (GameState.commodities gs0) ->
  GameState.base_commodity gs = GameState.base_commodity gs0 ->
  GameState.current_round gs ≠ 0 ->
  GameState.round_open_ratios gs
  = Some (foldl (fun m '(k, c) => <[k := Commodity.base_ratio c]> m) ∅
            (GameState.commodities gs0)) ->
  update_ratios_auto s p gs = (Ok tt, gs') ->
  circuit_holds p gs0 gs'.
Proof.
  intros Hnd Hkeys Hbase Hround Hopen. unfold update_ratios_auto.
  destruct (Z.eqb_spec (GameState.current_round gs) 0); [done|].
  destruct (compute_net_demand _ _) as [net|e]; [|done].
  destruct (dict_for_each _ _) as [[[]|e] cs] eqn:E; [|done].
  intros [= <-]. simpl. apply dict_for_each_items in E.
  rewrite Hopen, Hbase in *. simpl in *.
  set (base := GameState.base_commodity gs0) in *.
  (* the loop's result already satisfies the circuit *)
  assert (Hloop : ∀ cname c, (cname, c) ∈ cs ->
            if decide (cname = base) then Commodity.base_ratio c = 1
            else ∃ c0, dict_get cname (GameState.commodities gs0) = Some c0
                       ∧ within_circuit p c0 c).
  { intros cname c [i Hi]%list_elem_of_lookup.
    destruct (Forall2_lookup_r _ _ _ _ _ E Hi) as ([k c1] & Hi1 & Hk & [Hb|[? _]]);
      simpl in *; [|done]. subst k.
    case_decide as Hc.
    - by eapply ratio_commodity_base.
    - assert (cname ∈ dict_keys (GameState.commodities gs0)) as Hin.
      { rewrite <- Hkeys. apply list_elem_of_fmap. exists (cname, c1).
        split; [done|]. by eapply list_elem_of_lookup_2. }
      apply dict_get_is_Some in Hin as [c0 Hc0]. exists c0. split; [done|].
      apply ratio_commodity_clamped in Hb as (lo & hi & H1 & H2 & H3 & H4); [|done].
      simpl in H1, H2.
      erewrite open_ratio_of_snapshot in H1, H2
        by (apply round_open_snapshot; [done|by apply dict_get_Some_elem]).
      by exists lo, hi. }
  (* the final reset of the base commodity keeps it *)
  destruct (dict_get base cs) as [cb|] eqn:Eb; [|done].
  intros cname c [[= -> ->]|Hin]%dict_set_elem; [|by apply Hloop].
  by rewrite decide_True.
Qed.

(** Recomputing the prices leaves every ratio that is within the circuit
    where it is. *)
Lemma update_prices_keeps_circuit p gs0 gs r gs' :
  GameState.base_commodity gs = GameState.base_commodity gs0 ->
  circuit_holds p gs0 gs ->
  update_prices_from_ratios gs = (r, gs') ->
  circuit_holds p gs0 gs'.
Proof.
  intros Hbase Hc. unfold update_prices_from_ratios.
  case_decide; [by intros [= <- <-]|].
  destruct (dict_for_each _ _) as [r0 cs] eqn:E. intros [= <- <-]. simpl.
  apply dict_for_each_items in E.
  intros cname c' [i Hi]%list_elem_of_lookup.
  destruct (Forall2_lookup_r _ _ _ _ _ E Hi) as ([k c] & Hi0 & Hk & Hbody).
  simpl in *. subst k.
  specialize (Hc cname c (list_elem_of_lookup_2 _ _ _ Hi0)).
  destruct Hbody as [Hb|[_ ->]]; [|done].
  apply price_commodity_priced in Hb as [_ Hb]. simpl in Hb.
  rewrite Hbase in Hb. case_decide.
  - by destruct Hb.
  - destruct Hc as (c0 & Hc0 & lo & hi & H1 & H2 & H3 & H4).
    destruct Hb as [Hr _]. exists c0. split; [done|].
    exists lo, hi. split_and!; [done|done|lia|lia].
Qed.

(** C2. Circuit-breaker bound. Let a round open in state [gs0] (whose
    commodity names are distinct, as the keys of a dictionary are), and let
    any sequence of trades, ratio updates, price updates and penalty runs
    follow. After every ratio update that then returns, with any sensitivity
    and circuit percentage and whatever the net demand, the base commodity
    has ratio 1 and every other commodity's ratio lies between
    [lower = max(1, round(open * (1 - pct)))] and
    [upper = max(lower + 1, round(open * (1 + pct)))], [open] being its
    ratio when the round opened, at least 1; recomputing the prices
    afterwards does not move it. *)
Theorem circuit_breaker_bound news gs0 gs sensitivity circuit_pct gs' :
  NoDup (dict_keys (GameState.commodities gs0)) ->
  0 ≤ GameState.current_round gs0 ->
  rtc in_round_step (start_round news gs0) gs ->
  update_ratios_auto sensitivity circuit_pct gs = (Ok tt, gs') ->
  circuit_holds circuit_pct gs0 gs'
  ∧ ∀ r gs'', update_prices_from_ratios gs' = (r, gs'') ->
              circuit_holds circuit_pct gs0 gs''.
Proof.
  intros Hnd Hround Hrun Hup.
  assert (same_round (start_round news gs0) gs) as (Hk & Hb & Hc & Ho).
  { eapply same_round_run; [|exact Hrun]. done. }
  simpl in *.
  assert (circuit_holds circuit_pct gs0 gs') as Hgs'.
  { eapply update_ratios_establishes_circuit; eauto. lia. }
  split; [done|]. intros r gs'' Hpr.
  eapply update_prices_keeps_circuit; [|exact Hgs'|exact Hpr].
  apply update_ratios_frame in Hup as (_ & -> & _). done.
Qed.

(** Round 1 of the scenario: Team 1 sells 4 A for 16 B, then ratios are
    updated with the defaults; B opened at 4 and may move within [3, 5]. *)
Lemma circuit_breaker_bound_witness :
  let gs := (record_trade "Team 1" "Team 2" [("A", 4)] [("B", 16)] (scenario_state 40)).2 in
  let gs' := (update_ratios_auto default_sensitivity default_circuit_pct gs).2 in
  circuit_holds default_circuit_pct (scenario_lobby 40) gs'
  ∧ ∀ r gs'', update_prices_from_ratios gs' = (r, gs'') ->
              circuit_holds default_circuit_pct (scenario_lobby 40) gs''.
Proof.
  cbv zeta.
  apply (circuit_breaker_bound "opening" (scenario_lobby 40)
           (record_trade "Team 1" "Team 2" [("A", 4)] [("B", 16)] (scenario_state 40)).2
           default_sensitivity).
  - apply (bool_decide_unpack
             (NoDup (dict_keys (GameState.commodities (scenario_lobby 40))))).
    vm_compute. exact I.
  - vm_compute. discriminate.
  - eapply rtc_l; [|apply rtc_refl].
    eapply (step_record_trade "Team 1" "Team 2" [("A", 4)] [("B", 16)]).
    apply surjective_pairing.
  - vm_compute. reflexivity.
Defined.

Example scenario_ratio_update :
  let gs := (record_trade "Team 1" "Team 2" [("A", 4)] [("B", 16)] (scenario_state 40)).2 in
  let gs' := (update_ratios_auto default_sensitivity default_circuit_pct gs).2 in
  circuit_bounds 4 default_circuit_pct = Ok (3, 5)
  ∧ (Commodity.base_ratio <$> dict_get "B" (GameState.commodities gs')) = Some 3
  ∧ (Commodity.base_ratio <$> dict_get "A" (GameState.commodities gs')) = Some 1.
Proof. cbv zeta. split_and!; vm_compute; reflexivity. Qed.

(** ** Penalties *)

Lemma check_min_max_violation_spec gs tm :
  check_min_max_violation gs tm = true <-> violates_band gs tm.
Proof.
  unfold check_min_max_violation, violates_band. rewrite existsb_exists. split.
  - intros ([cname c] & Hin%list_elem_of_In & Hout). exists cname, c. split; [done|].
    unfold out_of_band in Hout. simpl in Hout.
    apply orb_true_iff in Hout as [[H1 H2]%andb_true_iff|[H1 H2]%andb_true_iff];
      apply negb_true_iff, Z.eqb_neq in H1; apply Z.ltb_lt in H2; auto.
  - intros (cname & c & Hin & Hout). exists (cname, c).
    rewrite <- list_elem_of_In. split; [done|]. unfold out_of_band. simpl.
    apply orb_true_iff.
    destruct Hout as [[H1 H2]|[H1 H2]]; [left|right]; apply andb_true_iff;
      by rewrite negb_true_iff, Z.eqb_neq, Z.ltb_lt.
Qed.

(** The penalties loop does not touch the entries of names it does not
    visit. *)
Lemma penalties_loop_other gs active rate1 rate2 ts pen r pen' name :
  penalties_loop gs active rate1 rate2 ts pen = (r, pen') ->
  name ∉ dict_keys ts -> pen' !! name = pen !! name.
Proof.
  unfold dict_keys. revert pen.
  induction ts as [|[tname tm] ts IH]; intros pen; simpl.
  - by intros [= _ <-].
  - intros E [Hne Hnotin]%not_elem_of_cons.
    destruct (value_rs tm _) as [value|e]; [|by injection E as _ <-].
    apply IH in E; [|done]. rewrite E.
    case_bool_decide; destruct (check_min_max_violation gs tm);
      by rewrite ?lookup_insert_ne by done.
Qed.

(** What the loop does to the entry of each team it visits. *)
Lemma penalties_loop_charges gs active rate1 rate2 ts pen pen' tname tm :
  NoDup (dict_keys ts) ->
  penalties_loop gs active rate1 rate2 ts pen = (Ok tt, pen') ->
  (tname, tm) ∈ ts ->
  ∃ value,
    value_rs tm (GameState.commodities gs) = Ok value
    ∧ pen' !! tname
      = add_penalty
          (if check_min_max_violation gs tm then Some (value * rate2)%float else None)
          (add_penalty
             (if bool_decide (tname ∈ active) then None else Some (value * rate1)%float)
             (pen !! tname)).
Proof.
  unfold dict_keys. revert pen.
  induction ts as [|[tname1 tm1] ts IH]; intros pen; simpl.
  - by intros _ _ ?%elem_of_nil.
  - intros [Hnotin Hnd]%NoDup_cons E [[= -> ->]|Hin]%elem_of_cons.
    + destruct (value_rs tm1 _) as [value|e]; [|done].
      exists value. split; [done|].
      erewrite penalties_loop_other by eauto.
      case_bool_decide; case_bool_decide; try done;
        destruct (check_min_max_violation gs tm1); simpl;
        by rewrite ?lookup_insert_eq.
    + destruct (value_rs tm1 _) as [value1|e]; [|done].
      destruct (IH _ Hnd E Hin) as (value & Hv & ->).
      exists value. split; [done|].
      assert (tname1 ≠ tname) as Hne.
      { intros ->. apply Hnotin. apply list_elem_of_fmap. by exists (tname, tm). }
      case_bool_decide; destruct (check_min_max_violation gs tm1);
        by rewrite ?lookup_insert_ne by done.
Qed.

(** C9, as the code has it. When [apply_round_penalties] returns for round
    [round_no], called with its default rates as [end_round] calls it (team
    names distinct, as dictionary keys are), the entry of each team in the
    penalties dictionary has grown by [p1] and then by [p2], two float
    additions one after the other, both amounts computed from the one value
    [value_rs] gives for the team: [p1 = value * 0.10] if the team is on
    neither side of any trade of the round, no addition otherwise;
    [p2 = value * 0.10] if some holding is outside its band (a zero bound
    not counting), no addition otherwise. The two are decided independently,
    so a team that traded but is outside a band is charged [p2] only.
    Nothing else in the session changes. *)
Theorem round_penalties_charged round_no gs gs' :
  NoDup (dict_keys (GameState.teams gs)) ->
  apply_round_penalties round_no default_penalty_rate default_penalty_rate gs
  = (Ok tt, gs') ->
  (∀ tname tm, (tname, tm) ∈ GameState.teams gs ->
     ∃ value p1 p2,
       value_rs tm (GameState.commodities gs) = Ok value
       ∧ (traded_in_round gs round_no tname -> p1 = None)
       ∧ (¬ traded_in_round gs round_no tname -> p1 = Some (value * 0.10)%float)
       ∧ (violates_band gs tm -> p2 = Some (value * 0.10)%float)
       ∧ (¬ violates_band gs tm -> p2 = None)
       ∧ GameState.penalties_rs gs' !! tname
         = add_penalty p2 (add_penalty p1 (GameState.penalties_rs gs !! tname)))
  ∧ (∀ name, name ∉ dict_keys (GameState.teams gs) ->
       GameState.penalties_rs gs' !! name = GameState.penalties_rs gs !! name)
  ∧ gs' = GameState.with_penalties_rs (GameState.penalties_rs gs') gs.
Proof.
  intros Hnd. unfold apply_round_penalties.
  destruct (penalties_loop _ _ _ _ _ _) as [r pen] eqn:E. intros [= -> <-]. simpl.
  split_and!; [|by eauto using penalties_loop_other|done].
  intros tname tm Hin.
  destruct (penalties_loop_charges _ _ _ _ _ _ _ _ _ Hnd E Hin) as (value & Hv & Hpen).
  exists value. eexists _, _. split; [done|].
  split_and!; [| | | |exact Hpen].
  - intros Ht%teams_with_trades_spec. by rewrite bool_decide_eq_true_2.
  - intros Ht. rewrite bool_decide_eq_false_2; [done|].
    by rewrite teams_with_trades_spec.
  - intros Hv'%check_min_max_violation_spec. by rewrite Hv'.
  - intros Hv'. destruct (check_min_max_violation gs tm) eqn:Ec; [|done].
    by apply check_min_max_violation_spec in Ec.
Qed.

Lemma round_penalties_charged_witness :
  let gs := closing_state in
  let gs' := (apply_round_penalties 1 default_penalty_rate default_penalty_rate gs).2 in
  (∀ tname tm, (tname, tm) ∈ GameState.teams gs ->
     ∃ value p1 p2,
       value_rs tm (GameState.commodities gs) = Ok value
       ∧ (traded_in_round gs 1 tname -> p1 = None)
       ∧ (¬ traded_in_round gs 1 tname -> p1 = Some (value * 0.10)%float)
       ∧ (violates_band gs tm -> p2 = Some (value * 0.10)%float)
       ∧ (¬ violates_band gs tm -> p2 = None)
       ∧ GameState.penalties_rs gs' !! tname
         = add_penalty p2 (add_penalty p1 (GameState.penalties_rs gs !! tname)))
  ∧ (∀ name, name ∉ dict_keys (GameState.teams gs) ->
       GameState.penalties_rs gs' !! name = GameState.penalties_rs gs !! name)
  ∧ gs' = GameState.with_penalties_rs (GameState.penalties_rs gs') gs.
Proof.
  cbv zeta.
  apply (round_penalties_charged 1 closing_state).
  - apply (bool_decide_unpack (NoDup (dict_keys (GameState.teams closing_state)))).
    vm_compute. exact I.
  - vm_compute. reflexivity.
Defined.

(** C9, as stated, fails once a team has a penalty on record: the two
    amounts are added to the total one after the other, and float addition
    is not associative. Round 2 is closed without a trade; Team 1, charged
    33.333333333333336 before, holds 6 B (more than the 5 allowed) worth
    Rs 2000.0, so [p1] and [p2] are 200.0 each. The total becomes
    (33.333333333333336 + 200.0) + 200.0 = 433.33333333333337, which is not
    33.333333333333336 + 400.0 = 433.3333333333333: the total has grown by
    400.00000000000006, not by [p1 + p2]. *)
Lemma penalty_total_is_not_old_plus_sum :
  let gs := repeat_state in
  let out := apply_round_penalties 2 default_penalty_rate default_penalty_rate gs in
  let tm := default (Team.new "") (dict_get "Team 1" (GameState.teams gs)) in
  out.1 = Ok tt
  ∧ teams_with_trades_in_round gs 2 = ∅
  ∧ check_min_max_violation gs tm = true
  ∧ value_rs tm (GameState.commodities gs) = Ok 2000%float
  ∧ (2000 * 0.10)%float = 200%float
  ∧ GameState.penalties_rs gs !! "Team 1" = Some 33.333333333333336%float
  ∧ GameState.penalties_rs out.2 !! "Team 1" = Some 433.33333333333337%float
  ∧ (33.333333333333336 + (200 + 200))%float = 433.3333333333333%float
  ∧ (433.33333333333337 =? 433.3333333333333)%float = false
  ∧ (433.33333333333337 - 33.333333333333336)%float = 400.00000000000006%float
  ∧ (400.00000000000006 =? 200 + 200)%float = false.
Proof. cbv zeta. split_and!; vm_compute; reflexivity. Qed.

(** The spec's scenario: the team that traded within its bands is charged
    nothing, the team that traded but holds too much B only the 10% for the
    violation, the team that did not trade only the 10% for that; every
    team is worth Rs 10000. *)
Example closing_penalties :
  let gs' := (apply_round_penalties 1 default_penalty_rate default_penalty_rate
                closing_state).2 in
  GameState.penalties_rs gs' !! "Team 1" = None
  ∧ GameState.penalties_rs gs' !! "Team 2" = Some 1000%float
  ∧ GameState.penalties_rs gs' !! "Team 3" = Some 1000%float.
Proof. cbv zeta. split_and!; vm_compute; reflexivity. Qed.

(** ** The portfolio generator: bands and slots *)

Lemma sum_over_app {A} (f : A -> Z) l1 l2 :
  sum_over f (l1 ++ l2) = sum_over f l1 + sum_over f l2.
Proof. unfold sum_over. induction l1; simpl; lia. Qed.











(** ** The portfolio generator: one team's holdings *)








(** ** The portfolio generator: every team *)







(** ** The portfolio generator: what its result depends on *)













(** ** Closing a round *)

(** The first call for a round that is not in [ended_rounds] charges the
    penalties, logs the round and records the round number. *)
Lemma end_round_first {G} (sv : Server.t G) gs gs' :
  Server.game_state sv = Some gs ->
  GameState.current_round gs ≠ 0 ->
  GameState.current_round gs ∉ Server.ended_rounds sv ->
  apply_round_penalties (GameState.current_round gs) default_penalty_rate
    default_penalty_rate gs = (Ok tt, gs') ->
  Server.end_round sv
  = (Server.RoundEnded (GameState.current_round gs),
     Server.mk (Some gs')
       (option_map
          (fun rows => rows ++ [Server.LogCommodities (GameState.commodities gs')
                                  (GameState.current_round gs);
                                Server.LogPortfolios gs'])
          (Server.excel_logger sv))
       ({[ GameState.current_round gs ]} ∪ Server.ended_rounds sv)
       (Server.price_history sv) (Server.global_trade_counter sv)
       (Server.random_state sv)).
Proof.
  intros Hgs Hr Hnew Hpen. unfold Server.end_round. rewrite Hgs.
  destruct (Z.eqb_spec (GameState.current_round gs) 0); [done|].
  rewrite bool_decide_eq_false_2 by done. by rewrite Hpen.
Qed.

(** Every call for a round that is in [ended_rounds] answers "already
    ended" and changes nothing. *)
Lemma end_round_again {G} (sv : Server.t G) gs :
  Server.game_state sv = Some gs ->
  GameState.current_round gs ≠ 0 ->
  GameState.current_round gs ∈ Server.ended_rounds sv ->
  Server.end_round sv = (Server.RoundAlreadyEnded (GameState.current_round gs), sv).
Proof.
  intros Hgs Hr Hold. unfold Server.end_round. rewrite Hgs.
  destruct (Z.eqb_spec (GameState.current_round gs) 0); [done|].
  by rewrite bool_decide_eq_true_2.
Qed.

(** [init_game] starts a new game at round 0 and keeps [ended_rounds]. *)
Lemma init_game_keeps_ended_rounds `{PyRandom G} req (sv : Server.t G) :
  Server.ended_rounds (Server.init_game req sv).2 = Server.ended_rounds sv.
Proof.
  unfold Server.init_game.
  destruct (_ <=? 0); [done|].
  destruct (Server.req_commodities req); [done|].
  destruct (Server.add_commodities _ _); [done|].
  destruct (dict_get _ _); [|done].
  destruct (update_prices_from_ratios _) as [[[]|e] gs]; [|done].
  by destruct (generate_initial_portfolios_with_ranges _ _ _) as [[[v|e] gs'] g].
Qed.

(** C7, on the code: a game is initialised, its round 1 is started and
    ended (three teams, no trade: each is charged 10%, the round is logged);
    then a new game is initialised in the same process and its round 1 is
    started. The first end-round call for that open round answers "already
    ended": no penalty is charged though no team has traded, and nothing is
    logged, because [ended_rounds] still holds the 1 of the game before. *)
Theorem end_round_after_new_game_is_skipped :
  let sv1 := (Server.init_game (H := counting_source) small_request (Server.start 0%nat)).2 in
  let sv2 := (Server.start_round "round one" sv1).2 in
  let end1 := Server.end_round sv2 in
  let sv3 := (Server.init_game (H := counting_source) small_request end1.2).2 in
  let sv4 := (Server.start_round "round one again" sv3).2 in
  let end2 := Server.end_round sv4 in
  end1.1 = Server.RoundEnded 1
  ∧ (dom ∘ GameState.penalties_rs <$> Server.game_state end1.2)
    = Some ({[ "Team 1"; "Team 2"; "Team 3" ]} : gset string)
  ∧ (GameState.current_round <$> Server.game_state sv4) = Some 1
  ∧ (GameState.trades <$> Server.game_state sv4) = Some []
  ∧ end2.1 = Server.RoundAlreadyEnded 1
  ∧ (GameState.penalties_rs <$> Server.game_state end2.2) = Some ∅
  ∧ (length <$> Server.excel_logger end2.2) = Some 2%nat
  ∧ end2.2 = sv4.
Proof. cbv zeta. split_and!; vm_compute; reflexivity. Qed.

(** ** Closing a round within one game *)

(** Posting a trade, accepted or not, keeps [ended_rounds] and the round
    number. *)
Lemma post_trade_round {G} req (sv : Server.t G) :
  Server.ended_rounds (Server.post_trade req sv).2 = Server.ended_rounds sv
  ∧ (GameState.current_round <$> Server.game_state (Server.post_trade req sv).2)
    = (GameState.current_round <$> Server.game_state sv).
Proof.
  unfold Server.post_trade.
  destruct (Server.game_state sv) as [gs|] eqn:Egs; [|simpl; by rewrite Egs].
  destruct (Server.legs_dict (Server.req_give req) []); [|simpl; by rewrite Egs].
  destruct (Server.legs_dict (Server.req_receive req) []); [|simpl; by rewrite Egs].
  destruct (record_trade _ _ _ _ gs) as [r gs1] eqn:E1.
  apply record_trade_frame in E1 as (_ & _ & _ & Hc1 & _).
  destruct r as [tr|[]]; simpl; try by rewrite Hc1.
  destruct (update_ratios_auto _ _ gs1) as [r2 gs2] eqn:E2.
  apply update_ratios_frame in E2 as (_ & _ & _ & _ & Hc2 & _).
  destruct r2 as [[]|e]; simpl; [|by rewrite Hc2, Hc1].
  destruct (update_prices_from_ratios gs2) as [r3 gs3] eqn:E3.
  apply update_prices_frame in E3 as (_ & _ & _ & _ & Hc3 & _).
  destruct r3 as [[]|e]; simpl; by rewrite Hc3, Hc2, Hc1.
Qed.

(** Between two initialisations only rounds up to the current one are ever
    recorded as ended. *)
Lemma ended_rounds_ok_step {G} (sv sv' : Server.t G) :
  ended_rounds_ok sv -> session_step sv sv' -> ended_rounds_ok sv'.
Proof.
  intros Hok Hstep. destruct Hstep as [news sv|req sv|sv]; intros gs' n.
  - unfold Server.start_round. destruct (Server.game_state sv) as [gs|] eqn:Egs; simpl.
    + intros [= <-] Hn. simpl. specialize (Hok gs n Egs Hn). lia.
    + by rewrite Egs.
  - destruct (post_trade_round req sv) as [-> Hc]. intros Hgs' Hn.
    rewrite Hgs' in Hc. simpl in Hc.
    destruct (Server.game_state sv) as [gs|] eqn:Egs; [|done].
    injection Hc as ->. by apply (Hok gs).
  - unfold Server.end_round. destruct (Server.game_state sv) as [gs|] eqn:Egs;
      [|simpl; by rewrite Egs].
    destruct (Z.eqb_spec (GameState.current_round gs) 0).
    { simpl. rewrite Egs. intros [= <-]. by apply Hok. }
    case_bool_decide.
    { simpl. rewrite Egs. intros [= <-]. by apply Hok. }
    destruct (apply_round_penalties _ _ _ gs) as [r gs1] eqn:Ep.
    apply apply_round_penalties_frame in Ep as (_ & _ & _ & _ & _ & Hc & _).
    destruct r as [[]|e]; simpl.
    + intros [= <-] [->%elem_of_singleton|Hn]%elem_of_union; rewrite Hc; [lia|].
      by apply (Hok gs).
    + intros [= <-] Hn. rewrite Hc. by apply (Hok gs).
Qed.

Lemma ended_rounds_ok_run {G} (sv sv' : Server.t G) :
  ended_rounds_ok sv -> rtc session_step sv sv' -> ended_rounds_ok sv'.
Proof. intros Hok Hrun. induction Hrun; eauto using ended_rounds_ok_step. Qed.

(** Within one game, begun with no round recorded as ended (as in a fresh
    process), a round that has just been started is not recorded as ended:
    the first end-round call for it takes the branch of [end_round_first],
    every later one that of [end_round_again]. *)
Lemma started_round_is_open {G} (sv0 sv : Server.t G) news gs :
  Server.ended_rounds sv0 = ∅ ->
  rtc session_step sv0 sv ->
  Server.game_state (Server.start_round news sv).2 = Some gs ->
  GameState.current_round gs ∉ Server.ended_rounds (Server.start_round news sv).2.
Proof.
  intros Hempty Hrun.
  assert (ended_rounds_ok sv) as Hok.
  { eapply ended_rounds_ok_run; [|exact Hrun].
    intros gs' n _. rewrite Hempty. by intros ?%not_elem_of_empty. }
  unfold Server.start_round. destruct (Server.game_state sv) as [gs0|] eqn:Egs; simpl.
  - intros [= <-] Hn. simpl in Hn. specialize (Hok gs0 _ Egs Hn). lia.
  - by rewrite Egs.
Qed.

(* ===================================================================== *)
(** * Properties of a whole game *)
(* ===================================================================== *)

(** ** The supply of a commodity *)

Lemma sum_over_dict_set {V} (f : string * V -> Z) (d : dict V) k v old :
  dict_get k d = Some old ->
  sum_over f (dict_set k v d) = sum_over f d - f (k, old) + f (k, v).
Proof.
  induction d as [|[k' v'] d IH]; simpl; [done|].
  case_decide as Hk.
  - intros [= ->]. subst k'. unfold sum_over. simpl. lia.
  - intros Hget. specialize (IH Hget). unfold sum_over in *. simpl. lia.
Qed.

Lemma total_units_set ts key cname q c :
  is_Some (dict_get key ts) ->
  total_units (team_set_qty ts key cname q) c
  = total_units ts c + (if decide (c = cname) then q - team_qty ts key cname else 0).
Proof.
  intros [tm Htm]. unfold total_units, team_set_qty, team_qty. rewrite Htm.
  rewrite (sum_over_dict_set _ _ _ _ tm) by done. simpl.
  unfold Team.qty. simpl. case_decide as Hc.
  - subst c. rewrite lookup_insert_eq. simpl. lia.
  - rewrite lookup_insert_ne by done. lia.
Qed.

Lemma transfer_legs_supply src dst legs ts r ts' :
  is_Some (dict_get src ts) -> is_Some (dict_get dst ts) ->
  transfer_legs src dst legs ts = (r, ts') ->
  (∀ c, total_units ts' c = total_units ts c)
  ∧ dict_keys ts' = dict_keys ts.
Proof.
  revert ts. induction legs as [|[cname qty] legs IH]; intros ts Hs Hd; simpl.
  { by intros [= _ <-]. }
  destruct (qty <? 0); [by intros [= _ <-]|].
  destruct (team_qty ts src cname <? qty); [by intros [= _ <-]|].
  intros E. apply IH in E as [E1 E2].
  - split.
    + intros c. rewrite E1.
      rewrite total_units_set by by apply team_set_qty_get.
      rewrite total_units_set by done. case_decide; lia.
    + by rewrite E2, !team_set_qty_keys.
  - by do 2 apply team_set_qty_get.
  - by do 2 apply team_set_qty_get.
Qed.

Lemma apply_trade_supply trade ts r ts' :
  apply_trade trade ts = (r, ts') ->
  (∀ c, total_units ts' c = total_units ts c) ∧ dict_keys ts' = dict_keys ts.
Proof.
  unfold apply_trade.
  destruct (dict_get (Trade.from_team trade) ts) as [tf|] eqn:Ef; [|by intros [= _ <-]].
  destruct (dict_get (Trade.to_team trade) ts) as [tt_|] eqn:Et; [|by intros [= _ <-]].
  destruct (transfer_legs _ _ (Trade.give trade) ts) as [r1 ts1] eqn:E1.
  apply transfer_legs_supply in E1 as [H1 K1]; [|by rewrite ?Ef, ?Et..].
  destruct r1 as [[]|e].
  - intros E2. apply transfer_legs_supply in E2 as [H2 K2].
    + split; [intros c; by rewrite H2, H1 | by rewrite K2, K1].
    + apply dict_get_is_Some. rewrite K1. apply dict_get_is_Some. by rewrite Et.
    + apply dict_get_is_Some. rewrite K1. apply dict_get_is_Some. by rewrite Ef.
  - by intros [= _ <-].
Qed.

Lemma record_trade_supply from_team to_team give receive gs r gs' :
  record_trade from_team to_team give receive gs = (r, gs') ->
  (∀ c, total_units (GameState.teams gs') c = total_units (GameState.teams gs) c)
  ∧ dict_keys (GameState.teams gs') = dict_keys (GameState.teams gs).
Proof.
  unfold record_trade.
  destruct (_ =? 0); [by intros [= _ <-]|].
  destruct (pair_taken _ _ _ _); [by intros [= _ <-]|].
  destruct (apply_trade _ _) as [r1 ts] eqn:Ea.
  apply apply_trade_supply in Ea.
  destruct r1 as [[]|e]; by intros [= _ <-].
Qed.

Lemma engine_step_teams_or_trade gs gs' :
  engine_step gs gs' ->
  GameState.teams gs' = GameState.teams gs
  ∨ ∃ from_team to_team give receive r,
      record_trade from_team to_team give receive gs = (r, gs').
Proof.
  intros [gs1 gs2 Hin|news gs1]; [|by left].
  destruct Hin as [f t g rc gs1 r gs2 E|s p gs1 r gs2 E|gs1 r gs2 E|n r1 r2 gs1 r gs2 E].
  - right. eauto 10.
  - left. by apply update_ratios_frame in E as (-> & _).
  - left. by apply update_prices_frame in E as (-> & _).
  - left. by apply apply_round_penalties_frame in E as (_ & -> & _).
Qed.

Lemma engine_run_supply gs0 gs :
  rtc engine_step gs0 gs ->
  (∀ c, total_units (GameState.teams gs) c = total_units (GameState.teams gs0) c)
  ∧ dict_keys (GameState.teams gs) = dict_keys (GameState.teams gs0).
Proof.
  induction 1 as [gs|gs0 gs1 gs Hstep _ [IH1 IH2]]; [done|].
  apply engine_step_teams_or_trade in Hstep as [E|(f & t & g & rc & r & E)].
  - rewrite E in *. done.
  - apply record_trade_supply in E as [E1 E2].
    split; [intros c; by rewrite IH1, E1 | by rewrite IH2, E2].
Qed.

(** ** Holdings stay non-negative *)

Lemma Forall_dict_set {V} (P : string * V -> Prop) (d : dict V) k v :
  Forall P d -> P (k, v) -> Forall P (dict_set k v d).
Proof.
  intros Hd Hv. induction d as [|[k' v'] d IH]; simpl.
  { by constructor. }
  apply Forall_cons in Hd as [H1 H2].
  case_decide; constructor; auto.
Qed.

Lemma team_qty_nonneg ts key c : holdings_nonneg ts -> 0 ≤ team_qty ts key c.
Proof.
  intros Hts. unfold team_qty.
  destruct (dict_get key ts) as [tm|] eqn:E; [|done].
  apply dict_get_Some_elem in E.
  eapply Forall_forall in Hts; [|exact E]. simpl in Hts.
  unfold Team.qty. destruct (Team.holdings tm !! c) as [q|] eqn:Eq; [|done].
  exact (Hts c q Eq).
Qed.

Lemma team_set_qty_nonneg ts key c q :
  holdings_nonneg ts -> 0 ≤ q -> holdings_nonneg (team_set_qty ts key c q).
Proof.
  intros Hts Hq. unfold team_set_qty.
  destruct (dict_get key ts) as [tm|] eqn:E; [|done].
  apply Forall_dict_set; [done|]. simpl.
  apply map_Forall_insert_2; [done|].
  apply dict_get_Some_elem in E.
  eapply Forall_forall in Hts; [|exact E]. done.
Qed.

Lemma transfer_legs_nonneg src dst legs ts r ts' :
  holdings_nonneg ts -> transfer_legs src dst legs ts = (r, ts') -> holdings_nonneg ts'.
Proof.
  revert ts. induction legs as [|[cname qty] legs IH]; intros ts Hts; simpl.
  { by intros [= _ <-]. }
  destruct (Z.ltb_spec qty 0); [by intros [= _ <-]|].
  destruct (Z.ltb_spec (team_qty ts src cname) qty); [by intros [= _ <-]|].
  apply IH.
  assert (holdings_nonneg (team_set_qty ts src cname (team_qty ts src cname - qty))) as H1.
  { apply team_set_qty_nonneg; [done|lia]. }
  apply team_set_qty_nonneg; [done|].
  pose proof (team_qty_nonneg _ dst cname H1). lia.
Qed.

Lemma record_trade_nonneg from_team to_team give receive gs r gs' :
  holdings_nonneg (GameState.teams gs) ->
  record_trade from_team to_team give receive gs = (r, gs') ->
  holdings_nonneg (GameState.teams gs').
Proof.
  intros Hts. unfold record_trade.
  destruct (_ =? 0); [by intros [= _ <-]|].
  destruct (pair_taken _ _ _ _); [by intros [= _ <-]|].
  destruct (apply_trade _ _) as [r1 ts] eqn:Ea.
  assert (holdings_nonneg ts) as Hts'.
  { revert Ea. unfold apply_trade. simpl.
    destruct (dict_get from_team _); [|by intros [= _ <-]].
    destruct (dict_get to_team _); [|by intros [= _ <-]].
    destruct (transfer_legs from_team to_team give _) as [r2 ts1] eqn:E1.
    apply transfer_legs_nonneg in E1; [|done].
    destruct r2 as [[]|e]; [|by intros [= _ <-]].
    intros E2. by apply transfer_legs_nonneg in E2. }
  destruct r1 as [[]|e]; by intros [= _ <-].
Qed.

Lemma engine_run_nonneg gs gs' :
  rtc engine_step gs gs' ->
  holdings_nonneg (GameState.teams gs) -> holdings_nonneg (GameState.teams gs').
Proof.
  induction 1 as [gs|gs gs1 gs' Hstep _ IH]; [done|].
  intros Hts. apply IH.
  apply engine_step_teams_or_trade in Hstep as [->|(f & t & g & rc & r & E)]; [done|].
  by eapply record_trade_nonneg.
Qed.

(** ** A trade both sides can fund *)

Lemma leg_qty_cons cname qty legs c :
  leg_qty ((cname, qty) :: legs) c = if decide (c = cname) then qty else leg_qty legs c.
Proof. unfold leg_qty. simpl. by case_decide. Qed.

Lemma leg_qty_not_in legs c : c ∉ dict_keys legs -> leg_qty legs c = 0.
Proof. intros H. unfold leg_qty. by apply dict_get_None in H as ->. Qed.

Lemma transfer_legs_funded src dst legs ts :
  src ≠ dst ->
  is_Some (dict_get src ts) -> is_Some (dict_get dst ts) ->
  NoDup (dict_keys legs) ->
  Forall (fun leg => 0 ≤ leg.2 ≤ team_qty ts src leg.1) legs ->
  ∃ ts',
    transfer_legs src dst legs ts = (Ok tt, ts')
    ∧ (∀ c, team_qty ts' src c = team_qty ts src c - leg_qty legs c)
    ∧ (∀ c, team_qty ts' dst c = team_qty ts dst c + leg_qty legs c)
    ∧ (∀ key, key ≠ src -> key ≠ dst -> dict_get key ts' = dict_get key ts)
    ∧ (∀ key, is_Some (dict_get key ts') <-> is_Some (dict_get key ts)).
Proof.
  intros Hne. revert ts.
  induction legs as [|[cname qty] legs IH]; intros ts Hs Hd Hnd Hall; simpl.
  { exists ts. split_and!; try done; intros c; unfold leg_qty; simpl; lia. }
  apply NoDup_cons in Hnd as [Hnew Hnd]. apply Forall_cons in Hall as [[H0 Hq] Hall].
  simpl in *.
  destruct (Z.ltb_spec qty 0); [lia|].
  destruct (Z.ltb_spec (team_qty ts src cname) qty); [lia|].
  set (ts1 := team_set_qty ts src cname (team_qty ts src cname - qty)).
  set (ts2 := team_set_qty ts1 dst cname (team_qty ts1 dst cname + qty)).
  assert (is_Some (dict_get src ts2)) as Hs2 by by do 2 apply team_set_qty_get.
  assert (is_Some (dict_get dst ts2)) as Hd2 by by do 2 apply team_set_qty_get.
  assert (is_Some (dict_get dst ts1)) as Hd1 by by apply team_set_qty_get.
  assert (∀ c, team_qty ts2 src c
               = team_qty ts src c - (if decide (c = cname) then qty else 0)) as Hsrc.
  { intros c. unfold ts2. rewrite team_qty_set_ne by (left; congruence).
    unfold ts1. case_decide as Hc.
    - subst c. rewrite team_qty_set_eq by done. lia.
    - rewrite team_qty_set_ne by (right; congruence). lia. }
  assert (∀ c, team_qty ts2 dst c
               = team_qty ts dst c + (if decide (c = cname) then qty else 0)) as Hdst.
  { intros c. unfold ts2. case_decide as Hc.
    - subst c. rewrite team_qty_set_eq by done.
      unfold ts1. rewrite team_qty_set_ne by (left; congruence). lia.
    - rewrite team_qty_set_ne by (right; congruence).
      unfold ts1. rewrite team_qty_set_ne by (left; congruence). lia. }
  destruct (IH ts2) as (ts' & E & Hs' & Hd' & Ho & Hk); try done.
  { apply Forall_forall. intros [c' q'] Hin.
    pose proof (proj1 (Forall_forall _ _) Hall _ Hin) as Hleg. simpl in *.
    rewrite Hsrc. case_decide as Hc; [|lia].
    subst c'. destruct Hnew. apply (list_elem_of_fmap_2 fst) in Hin. done. }
  exists ts'. split_and!; [done|..].
  - intros c. rewrite Hs', Hsrc, leg_qty_cons. case_decide; [|lia].
    subst c. rewrite leg_qty_not_in by done. lia.
  - intros c. rewrite Hd', Hdst, leg_qty_cons. case_decide; [|lia].
    subst c. rewrite leg_qty_not_in by done. lia.
  - intros key Hk1 Hk2. rewrite Ho by done. unfold ts2, ts1.
    by rewrite !team_set_qty_other.
  - intros key. rewrite Hk. unfold ts2, ts1. by rewrite !team_set_qty_get.
Qed.

(** ** The server acts on the game through the engine *)

Lemma server_state_eta {G} (sv : Server.t G) gs :
  Server.game_state sv = Some gs ->
  Server.mk (Some gs) (Server.excel_logger sv) (Server.ended_rounds sv)
    (Server.price_history sv) (Server.global_trade_counter sv) (Server.random_state sv)
  = sv.
Proof. destruct sv. simpl. by intros ->. Qed.

Lemma game_state_eta gs : GameState.with_teams (GameState.teams gs) gs = gs.
Proof. by destruct gs. Qed.

Lemma session_step_engine {G} (sv sv' : Server.t G) :
  session_step sv sv' ->
  match Server.game_state sv with
  | None => sv' = sv
  | Some gs => ∃ gs', Server.game_state sv' = Some gs' ∧ rtc engine_step gs gs'
  end.
Proof.
  intros [news sv0|req sv0|sv0].
  - unfold Server.start_round. destruct (Server.game_state sv0) as [gs|]; [|done].
    eexists. split; [done|]. apply rtc_once. apply step_start_round.
  - unfold Server.post_trade. destruct (Server.game_state sv0) as [gs|] eqn:Egs; [|done].
    destruct (Server.legs_dict (Server.req_give req) []) as [give|];
      [|simpl; rewrite Egs; eauto using rtc_refl].
    destruct (Server.legs_dict (Server.req_receive req) []) as [receive|];
      [|simpl; rewrite Egs; eauto using rtc_refl].
    destruct (record_trade _ _ _ _ gs) as [r gs1] eqn:E1.
    assert (engine_step gs gs1) as S1.
    { apply step_in_round. eapply step_record_trade. exact E1. }
    destruct r as [tr|[]]; simpl; eauto using rtc_once.
    destruct (update_ratios_auto _ _ gs1) as [r2 gs2] eqn:E2.
    assert (engine_step gs1 gs2) as S2.
    { apply step_in_round. eapply step_update_ratios. exact E2. }
    destruct r2 as [[]|e]; simpl; [|eauto using rtc_l, rtc_once].
    destruct (update_prices_from_ratios gs2) as [r3 gs3] eqn:E3.
    assert (engine_step gs2 gs3) as S3.
    { apply step_in_round. eapply step_update_prices. exact E3. }
    destruct r3 as [[]|e]; simpl; eauto 6 using rtc_l, rtc_once.
  - unfold Server.end_round. destruct (Server.game_state sv0) as [gs|] eqn:Egs; [|done].
    destruct (_ =? 0); [simpl; rewrite Egs; eauto using rtc_refl|].
    case_bool_decide; [simpl; rewrite Egs; eauto using rtc_refl|].
    destruct (apply_round_penalties _ _ _ gs) as [r gs1] eqn:E1.
    assert (engine_step gs gs1) as S1.
    { apply step_in_round. eapply step_penalties. exact E1. }
    destruct r as [[]|e]; simpl; eauto using rtc_once.
Qed.

Lemma session_run_engine {G} (sv sv' : Server.t G) gs :
  rtc session_step sv sv' ->
  Server.game_state sv = Some gs ->
  ∃ gs', Server.game_state sv' = Some gs' ∧ rtc engine_step gs gs'.
Proof.
  intros Hrun. revert gs.
  induction Hrun as [sv|sv sv1 sv' Hstep _ IH]; intros gs Hgs.
  { eauto using rtc_refl. }
  apply session_step_engine in Hstep. rewrite Hgs in Hstep.
  destruct Hstep as (gs1 & Hgs1 & Hrun1).
  destruct (IH _ Hgs1) as (gs' & Hgs' & Hrun').
  exists gs'. split; [done|]. by etrans.
Qed.

(** ** The legs of a posted trade *)

Lemma legs_dict_None legs d :
  Server.legs_dict legs d = None <-> Exists (fun leg => Server.qty leg ≤ 0) legs.
Proof.
  revert d. induction legs as [|leg legs IH]; intros d; simpl.
  { split; [done|]. by intros ?%Exists_nil. }
  rewrite Exists_cons. destruct (Z.leb_spec (Server.qty leg) 0).
  - split; [by left|done].
  - rewrite IH. split; [by right|]. intros [?|?]; [lia|done].
Qed.

Lemma leg_qty_set d k v c :
  leg_qty (dict_set k v d) c = if decide (c = k) then v else leg_qty d c.
Proof.
  unfold leg_qty. case_decide as Hc.
  - subst c. by rewrite dict_get_set_eq.
  - by rewrite dict_get_set_ne.
Qed.

Lemma dict_keys_set_new {V} (d : dict V) k v :
  dict_get k d = None -> dict_keys (dict_set k v d) = dict_keys d ++ [k].
Proof.
  induction d as [|[k' v'] d IH]; simpl; [done|].
  case_decide; [done|]. intros Hd. unfold dict_keys in *. simpl. f_equal. by apply IH.
Qed.

Lemma NoDup_dict_set {V} (d : dict V) k v :
  NoDup (dict_keys d) -> NoDup (dict_keys (dict_set k v d)).
Proof.
  intros Hnd. destruct (dict_get k d) as [old|] eqn:E.
  - rewrite dict_keys_set by by rewrite E. done.
  - rewrite dict_keys_set_new by done.
    apply NoDup_app. split_and!; [done| |apply NoDup_singleton].
    intros x Hx ->%list_elem_of_singleton. by apply dict_get_None in E.
Qed.

Lemma legs_dict_Some legs d d' :
  Server.legs_dict legs d = Some d' ->
  Forall (fun leg => 0 < Server.qty leg) legs
  ∧ (∀ c, leg_qty d' c = leg_qty d c + requested legs c)
  ∧ (NoDup (dict_keys d) -> NoDup (dict_keys d'))
  ∧ (Forall (fun item => 0 < item.2) d -> Forall (fun item => 0 < item.2) d').
Proof.
  revert d. induction legs as [|leg legs IH]; intros d; simpl.
  { intros [= <-]. split_and!; try done. intros c. unfold requested, sum_over. simpl. lia. }
  destruct (Z.leb_spec (Server.qty leg) 0) as [|Hpos]; [done|].
  intros E. apply IH in E as (Hall & Hsum & Hnd & Hq).
  split_and!.
  - by constructor.
  - intros c. rewrite Hsum, leg_qty_set. unfold requested, sum_over. simpl.
    fold (leg_qty d (Server.commodity leg)).
    repeat case_decide; subst; try done; lia.
  - intros H0. by apply Hnd, NoDup_dict_set.
  - intros H0. apply Hq, Forall_dict_set; [done|]. simpl.
    assert (0 ≤ default 0 (dict_get (Server.commodity leg) d)); [|lia].
    destruct (dict_get _ d) as [q|] eqn:Eq; [|done].
    apply dict_get_Some_elem in Eq.
    apply (proj1 (Forall_forall _ _) H0) in Eq. simpl in *. lia.
Qed.

(** ** The portfolio generator: the holding band *)

Lemma band_commodity_hold t tot k c tot' c' :
  band_commodity t tot k c = (Ok tot', c') ->
  Commodity.name c' = Commodity.name c
  ∧ Commodity.base_ratio c' = Commodity.base_ratio c
  ∧ Commodity.price c' = Commodity.price c
  ∧ 1 ≤ Commodity.min_units c' ∧ Commodity.min_units c' < Commodity.max_units c'.
Proof.
  unfold band_commodity.
  destruct (mbind _ (PyFloat.of_int _)) as [[[ut amin] amax]|e]; [|done].
  destruct (mbind _ (band_mult ut hold_min_factor _)) as [[hmin hmax]|e] eqn:E; [|done].
  intros [= _ <-]. simpl. split_and!; try done.
  - revert E. destruct (band_mult ut hold_min_factor _) as [lo|]; [|done]. simpl.
    destruct (band_mult ut hold_max_factor _) as [hi|]; [|done]. simpl.
    intros [= <- <-]. nia.
  - revert E. destruct (band_mult ut hold_min_factor _) as [lo|]; [|done]. simpl.
    destruct (band_mult ut hold_max_factor _) as [hi|]; [|done]. simpl.
    intros [= <- <-]. nia.
Qed.

Lemma band_loop_hold t tot cs0 tot' cs :
  dict_for (band_commodity t) tot cs0 = (Ok tot', cs) ->
  Forall2 (fun old new =>
             new.1 = old.1
             ∧ Commodity.name new.2 = Commodity.name old.2
             ∧ Commodity.base_ratio new.2 = Commodity.base_ratio old.2
             ∧ Commodity.price new.2 = Commodity.price old.2
             ∧ 1 ≤ Commodity.min_units new.2
             ∧ Commodity.min_units new.2 < Commodity.max_units new.2) cs0 cs.
Proof.
  revert tot cs. induction cs0 as [|[k c] cs0 IH]; intros tot cs; simpl.
  { intros [= _ <-]. constructor. }
  destruct (band_commodity t tot k c) as [[tot1|e] c1] eqn:E1; [|done].
  destruct (dict_for _ tot1 cs0) as [r cs1] eqn:E2.
  intros [= -> <-]. constructor; [|by eapply IH].
  split; [done|]. by eapply band_commodity_hold.
Qed.

Lemma enforce_holding_band_cons k c cs h :
  enforce_holding_band ((k, c) :: cs) h
  = enforce_holding_band cs
      (let q := default 0 (h !! k) in
       let h1 := if q <? Commodity.min_units c
                 then <[k := Commodity.min_units c]> h else h in
       if Commodity.max_units c <? q then <[k := Commodity.max_units c]> h1 else h1).
Proof. done. Qed.

Lemma enforce_holding_band_other cs h k :
  k ∉ dict_keys cs -> enforce_holding_band cs h !! k = h !! k.
Proof.
  revert h. induction cs as [|[k0 c0] cs IH]; intros h Hk; [done|].
  apply not_elem_of_cons in Hk as [Hne Hk]. simpl in Hne.
  rewrite enforce_holding_band_cons, IH by done. cbv zeta.
  repeat case_match; by rewrite ?lookup_insert_ne.
Qed.

Lemma enforce_holding_band_clamps cs h k c :
  NoDup (dict_keys cs) -> (k, c) ∈ cs ->
  Commodity.min_units c ≤ Commodity.max_units c ->
  Commodity.min_units c ≤ default 0 (enforce_holding_band cs h !! k)
  ≤ Commodity.max_units c.
Proof.
  revert h. induction cs as [|[k0 c0] cs IH]; intros h Hnd Hin Hle.
  { by apply elem_of_nil in Hin. }
  apply NoDup_cons in Hnd as [Hnew Hnd].
  apply elem_of_cons in Hin as [[= -> ->]|Hin].
  - rewrite enforce_holding_band_cons, enforce_holding_band_other by done. cbv zeta.
    destruct (Z.ltb_spec (default 0 (h !! k0)) (Commodity.min_units c0));
      destruct (Z.ltb_spec (Commodity.max_units c0) (default 0 (h !! k0)));
      rewrite ?lookup_insert_eq; simpl; lia.
  - rewrite enforce_holding_band_cons. by apply IH.
Qed.

Lemma allocate_teams_clamped `{PyRandom G} cs slots K_extra ts (g : G) ts' g' :
  allocate_teams cs slots K_extra ts g = (Ok tt, ts', g') ->
  Forall2 (fun old new =>
             new.1 = old.1 ∧ Team.name new.2 = Team.name old.2
             ∧ ∃ h, Team.holdings new.2 = enforce_holding_band cs h) ts ts'.
Proof.
  revert g ts'. induction ts as [|[tname tm] ts IH]; intros g ts'; simpl.
  { intros [= <- _]. constructor. }
  destruct (allocate_team cs slots K_extra g) as [[r h] g1] eqn:E1.
  destruct r as [[]|e]; [|done].
  destruct (allocate_teams cs slots K_extra ts g1) as [[r2 ts2] g2] eqn:E2.
  intros [= -> <- <-]. constructor; [|by eapply IH].
  split_and!; [done..|]. simpl.
  revert E1. unfold allocate_team.
  destruct (_ && _).
  - destruct (random_sample _ _ _) as [picks g3].
    destruct (add_picks _ _ _) as [[[]|e] h1]; [|done].
    intros [= <- _]. eauto.
  - intros [= <- _]. eauto.
Qed.

(** What a successful run of the generator went through: the band loop,
    then the loop over the teams from the freshly seeded source. *)
Lemma generate_Ok_stages `{PyRandom G} target_value_hint gs (g : G) v gs' g' :
  generate_initial_portfolios_with_ranges target_value_hint gs g = (Ok v, gs', g') ->
  ∃ t tot slots K_extra key,
    GameState.commodities gs ≠ []
    ∧ GameState.base_commodity gs ≠ ""
    ∧ dict_for (band_commodity t) (0, 0) (GameState.commodities gs)
      = (Ok tot, GameState.commodities gs')
    ∧ allocate_teams (GameState.commodities gs') slots K_extra (GameState.teams gs)
        (random_seed key)
      = (Ok tt, GameState.teams gs', g')
    ∧ gs' = GameState.with_teams (GameState.teams gs')
              (GameState.with_commodities (GameState.commodities gs') gs).
Proof.
  unfold generate_initial_portfolios_with_ranges.
  destruct (GameState.commodities gs) as [|c0 cs0] eqn:Ecs; [done|].
  case_decide; [done|].
  destruct (GameState.teams gs) as [|t0 ts0] eqn:Ets; [done|].
  destruct (seed_key _ _ _) as [key|e]; [|done].
  destruct (mbind _ (base_units_target _ _)) as [[S_ base_target_each]|e]; [|done].
  destruct (dict_for _ _ _) as [[[lower upper]|e] cs] eqn:Eband; [|done].
  destruct (base_unit_slots cs) as [slots|e] eqn:Eslots; [|done].
  destruct (allocate_teams _ _ _ _ _) as [[r ts] g1] eqn:Eteams.
  destruct r as [[]|e]; [|done].
  destruct (PyFloat.of_int _) as [Kf|e] eqn:EK; [|done].
  intros [= <- <- <-].
  cbn [GameState.commodities GameState.teams GameState.with_teams
       GameState.with_commodities] in Eteams |- *.
  rewrite Ets in Eteams.
  eexists _, _, _, _, _. split_and!; [done|done|exact Eband|exact Eteams|done].
Qed.

Lemma Forall2_dict_keys {V W} (P : string * V -> string * W -> Prop)
    (d : dict V) (d' : dict W) :
  (∀ x y, P x y -> y.1 = x.1) -> Forall2 P d d' -> dict_keys d' = dict_keys d.
Proof.
  intros HP H. unfold dict_keys. induction H as [|x y l l' Hxy _ IH]; [done|].
  rewrite !fmap_cons. f_equal; [by apply HP|done].
Qed.

Lemma generate_within_band `{PyRandom G} target_value_hint gs (g : G) v gs' g' :
  NoDup (dict_keys (GameState.commodities gs)) ->
  generate_initial_portfolios_with_ranges target_value_hint gs g = (Ok v, gs', g') ->
  ∀ tname tm, (tname, tm) ∈ GameState.teams gs' ->
    within_holding_band (GameState.commodities gs') tm.
Proof.
  intros Hnd (t & tot & slots & K & key & _ & _ & Eband & Eteams & _)%generate_Ok_stages.
  apply band_loop_hold in Eband.
  assert (dict_keys (GameState.commodities gs') = dict_keys (GameState.commodities gs)) as Hk.
  { eapply Forall2_dict_keys; [|exact Eband]. by intros ?? [? _]. }
  apply allocate_teams_clamped in Eteams.
  intros tname tm Hin k c Hc.
  assert (1 ≤ Commodity.min_units c ∧ Commodity.min_units c < Commodity.max_units c)
    as [H1 Hlt].
  { apply list_elem_of_lookup in Hc as [i Hi].
    destruct (Forall2_lookup_r _ _ _ _ _ Eband Hi) as (old & _ & Hold).
    simpl in Hold. tauto. }
  split; [done|].
  apply list_elem_of_lookup in Hin as [i Hi].
  destruct (Forall2_lookup_r _ _ _ _ _ Eteams Hi) as (old & _ & _ & _ & h & Hh).
  simpl in Hh. unfold Team.qty. rewrite Hh.
  apply enforce_holding_band_clamps; [by rewrite Hk|done|lia].
Qed.

Lemma within_band_no_violation gs tm :
  within_holding_band (GameState.commodities gs) tm ->
  check_min_max_violation gs tm = false.
Proof.
  intros Hb. apply not_true_is_false. intros Hv.
  apply check_min_max_violation_spec in Hv as (k & c & Hin & Hv).
  destruct (Hb k c Hin) as [_ ?]. lia.
Qed.

(** ** Setting a game up *)

Lemma dict_set_new {V} (d : dict V) k v :
  dict_get k d = None -> dict_set k v d = d ++ [(k, v)].
Proof.
  induction d as [|[k' v'] d IH]; simpl; [done|].
  case_decide; [done|]. intros Hd. f_equal. by apply IH.
Qed.

Lemma foldl_dict_set_fresh {A V} (key : A -> string) (val : A -> V) (l : list A)
    (d : dict V) :
  NoDup (key <$> l) ->
  (∀ x, x ∈ l -> key x ∉ dict_keys d) ->
  foldl (fun acc x => dict_set (key x) (val x) acc) d l
  = d ++ ((fun x => (key x, val x)) <$> l).
Proof.
  revert d. induction l as [|x l IH]; intros d Hnd Hfresh; simpl.
  { by rewrite app_nil_r. }
  rewrite fmap_cons in Hnd. apply NoDup_cons in Hnd as [Hx Hnd].
  rewrite dict_set_new.
  2:{ apply dict_get_None, Hfresh. by left. }
  rewrite IH; [by rewrite <- app_assoc|done|].
  intros y Hy. unfold dict_keys. rewrite fmap_app. simpl.
  intros [Hin|Hin%list_elem_of_singleton]%elem_of_app.
  - apply (Hfresh y); [by right|done].
  - apply Hx. rewrite <- Hin. by apply list_elem_of_fmap_2.
Qed.

Lemma team_label_inj : Inj (=) (=) team_label.
Proof.
  intros i j Hij. unfold team_label in Hij.
  apply String.app_inj, pretty_Z_inj in Hij. lia.
Qed.

Lemma make_teams_spec num_teams :
  Server.make_teams num_teams
  = (fun i => (team_label i, Team.new (team_label i))) <$> seqZ 0 num_teams.
Proof.
  unfold Server.make_teams.
  rewrite (foldl_dict_set_fresh team_label (fun i => Team.new (team_label i))); [done| |].
  - apply NoDup_fmap_2; [apply team_label_inj|apply NoDup_seqZ].
  - intros x _ Hin. by apply elem_of_nil in Hin.
Qed.

Lemma add_commodities_inr inputs cs cs' :
  Server.add_commodities inputs cs = inr cs' ->
  cs' = cs ++ (commodity_of <$> inputs)
  ∧ Forall (fun ci => 0 < Server.ci_ratio ci) inputs
  ∧ (NoDup (dict_keys cs) -> NoDup (dict_keys cs')).
Proof.
  revert cs. induction inputs as [|ci inputs IH]; intros cs; simpl.
  { intros [= <-]. by rewrite app_nil_r. }
  destruct (Z.leb_spec (Server.ci_ratio ci) 0); [done|].
  case_bool_decide as Hdup; [done|].
  intros (-> & Hall & Hnd)%IH.
  assert (dict_get (Server.ci_name ci) cs = None) as Hnone.
  { destruct (dict_get _ cs) eqn:E; [|done]. destruct Hdup. by eexists. }
  split_and!.
  - rewrite dict_set_new by done. by rewrite <- app_assoc.
  - by constructor.
  - intros H0. by apply Hnd, NoDup_dict_set.
Qed.

Lemma add_commodities_inl inputs cs detail :
  Server.add_commodities inputs cs = inl detail ->
  Exists (fun ci => Server.ci_ratio ci ≤ 0) inputs
  ∨ ¬ NoDup (dict_keys cs ++ (Server.ci_name <$> inputs)).
Proof.
  revert cs. induction inputs as [|ci inputs IH]; intros cs; simpl; [done|].
  destruct (Z.leb_spec (Server.ci_ratio ci) 0); [left; by left|].
  case_bool_decide as Hdup.
  - intros _. right. intros Hnd. apply NoDup_app in Hnd as (_ & Hnd & _).
    apply (Hnd (Server.ci_name ci)); [by apply dict_get_is_Some|by left].
  - intros [Hex|Hnd]%IH; [left; by right|right].
    assert (dict_get (Server.ci_name ci) cs = None) as Hnone.
    { destruct (dict_get _ cs) eqn:E; [|done]. destruct Hdup. by eexists. }
    rewrite dict_keys_set_new in Hnd by done.
    by rewrite <- app_assoc in Hnd.
Qed.

(** What a successful [init_game] went through. *)
Lemma init_game_Ok `{PyRandom G} req (sv : Server.t G) n b v :
  (Server.init_game req sv).1 = Server.GameInitialized n b v ->
  ∃ cbase lobby gs g,
    0 < Server.req_num_teams req
    ∧ n = Server.req_num_teams req ∧ b = Server.req_base_commodity req
    ∧ Forall (fun ci => 0 < Server.ci_ratio ci) (Server.req_commodities req)
    ∧ NoDup (Server.ci_name <$> Server.req_commodities req)
    ∧ dict_get b (commodity_of <$> Server.req_commodities req) = Some cbase
    ∧ update_prices_from_ratios
        (GameState.with_base_commodity b
           (GameState.with_commodities
              (dict_set b (Commodity.with_base_ratio 1 cbase)
                 (commodity_of <$> Server.req_commodities req))
              GameState.new))
      = (Ok tt, lobby)
    ∧ generate_initial_portfolios_with_ranges (Server.req_target_value_hint req)
        (GameState.with_current_round 0
           (GameState.with_teams (Server.make_teams n) lobby))
        (Server.random_state sv)
      = (Ok v, gs, g)
    ∧ (Server.init_game req sv).2
      = Server.mk (Some gs)
          (Some [Server.LogCommodities (GameState.commodities gs) 0;
                 Server.LogPortfolios gs])
          (Server.ended_rounds sv)
          (Server.record_price_snapshot gs 0
             (foldl (fun hist cname => dict_set cname [] hist) []
                (dict_keys (GameState.commodities gs))))
          0 g.
Proof.
  unfold Server.init_game.
  destruct (Z.leb_spec (Server.req_num_teams req) 0); [done|].
  destruct (Server.req_commodities req) as [|ci0 cis] eqn:Ereq; [done|].
  rewrite <- Ereq.
  destruct (Server.add_commodities _ _) as [detail|cs] eqn:Ecs; [done|].
  apply add_commodities_inr in Ecs as (-> & Hall & Hnd). simpl in *.
  destruct (dict_get _ _) as [cbase|] eqn:Eb; [|done].
  destruct (update_prices_from_ratios _) as [[[]|e] lobby] eqn:Ep; [|done].
  destruct (generate_initial_portfolios_with_ranges _ _ _) as [[[v'|e] gs] g] eqn:Eg;
    [|done].
  simpl. intros [= <- <- <-].
  exists cbase, lobby, gs, g. split_and!; try done.
  specialize (Hnd (NoDup_nil_2)). unfold dict_keys in Hnd.
  rewrite <- list_fmap_compose in Hnd. exact Hnd.
Qed.

(** ** The commodities of a new game *)

Lemma dict_set_fmap {A V} (f : A -> string * V) (l : list A) b v :
  NoDup ((fun x => (f x).1) <$> l) ->
  b ∈ (fun x => (f x).1) <$> l ->
  dict_set b v (f <$> l) = (fun x => if decide ((f x).1 = b) then (b, v) else f x) <$> l.
Proof.
  induction l as [|x l IH]; intros Hnd Hin; simpl.
  { by apply elem_of_nil in Hin. }
  rewrite fmap_cons in Hnd. apply NoDup_cons in Hnd as [Hx Hnd].
  destruct (f x) as [k w] eqn:Ex. simpl in *.
  case_decide as Hb1; case_decide as Hb2; try congruence.
  - subst k. f_equal. apply list_fmap_ext. intros i y Hy.
    case_decide as Hy'; [|done]. destruct Hx. rewrite <- Hy'.
    apply list_elem_of_fmap. exists y. split; [done|]. by eapply list_elem_of_lookup_2.
  - f_equal. apply IH; [done|].
    apply elem_of_cons in Hin as [->|Hin]; [|done]. by rewrite Ex in Hb2.
Qed.

Lemma dict_for_each_Ok_Forall2 {V} (body : string -> V -> res V) d d' :
  dict_for_each body d = (Ok tt, d') ->
  Forall2 (fun old new => new.1 = old.1 ∧ body old.1 old.2 = Ok new.2) d d'.
Proof.
  intros E. apply dict_for_each_items in E.
  eapply Forall2_impl; [exact E|]. intros old new [H1 [H2|[H2 _]]]; done.
Qed.

Lemma init_game_commodities `{PyRandom G} req (sv : Server.t G) n b v :
  (Server.init_game req sv).1 = Server.GameInitialized n b v ->
  ∃ gs,
    Server.game_state (Server.init_game req sv).2 = Some gs
    ∧ GameState.base_commodity gs = b
    ∧ b ≠ ""
    ∧ b ∈ Server.ci_name <$> Server.req_commodities req
    ∧ NoDup (Server.ci_name <$> Server.req_commodities req)
    ∧ Forall2 (set_up b) (Server.req_commodities req) (GameState.commodities gs).
Proof.
  intros (cbase & lobby & gs & g & Hn & -> & -> & Hpos & Hnd & Eb & Ep & Eg & ->)%init_game_Ok.
  exists gs. simpl. split; [done|].
  set (b := Server.req_base_commodity req) in *.
  apply generate_Ok_stages in Eg
    as (t & tot & slots & K & key & _ & Hbase & Eband & _ & Egs).
  assert (GameState.base_commodity lobby = b) as Hlb.
  { by apply update_prices_frame in Ep as (_ & -> & _). }
  simpl in Hbase. rewrite Hlb in Hbase.
  assert (b ∈ Server.ci_name <$> Server.req_commodities req) as Hin.
  { assert (is_Some (dict_get b (commodity_of <$> Server.req_commodities req))) as Hs
      by by rewrite Eb.
    apply dict_get_is_Some in Hs. unfold dict_keys in Hs.
    by rewrite <- list_fmap_compose in Hs. }
  assert (Commodity.name cbase = b) as Hcb.
  { apply dict_get_Some_elem, list_elem_of_fmap in Eb as (ci & [= Hb ->] & _).
    simpl. done. }
  split_and!; try done.
  { rewrite Egs. simpl. done. }
  apply band_loop_hold in Eband. simpl in Eband.
  revert Ep. unfold update_prices_from_ratios. simpl.
  case_decide as Hb0; [done|].
  destruct (dict_for_each _ _) as [r cs1] eqn:E1. intros [= -> <-].
  apply dict_for_each_Ok_Forall2 in E1. simpl in Eband.
  rewrite (dict_set_fmap commodity_of) in E1 by done.
  apply Forall2_fmap_l in E1.
  apply Forall2_same_length_lookup. split.
  { by rewrite (Forall2_length _ _ _ E1), (Forall2_length _ _ _ Eband). }
  intros i ci new Hci Hnew.
  destruct (Forall2_lookup_r _ _ _ _ _ Eband Hnew)
    as (mid & Hmid & Hk & Hname & Hratio & Hprice & _).
  destruct (Forall2_lookup_r _ _ _ _ _ E1 Hmid) as (ci' & Hci' & Hk' & Hbody).
  assert (ci' = ci) as -> by congruence.
  pose proof (Forall_lookup_1 _ _ _ _ Hpos Hci) as Hr. simpl in Hr.
  unfold set_up. rewrite Hk, Hname, Hratio, Hprice. clear Hk Hname Hratio Hprice.
  revert Hk' Hbody. simpl. unfold price_commodity.
  destruct (decide (Server.ci_name ci = b)) as [Hcb'|Hcb']; simpl.
  - rewrite decide_True by done. intros -> [= <-]. simpl. by rewrite Hcb.
  - rewrite decide_False by done. intros ->.
    destruct (Z.leb_spec (Server.ci_ratio ci) 0) as [|_]; [lia|]. simpl.
    destruct (PyFloat.of_int (Server.ci_ratio ci)) as [rf|e]; [|done]. simpl.
    intros [= <-]. simpl. split_and!; try done. eauto.
Qed.

(** ** The teams of a new game *)

Lemma set_up_keys b reqs (cs : dict Commodity.t) :
  Forall2 (set_up b) reqs cs -> dict_keys cs = Server.ci_name <$> reqs.
Proof.
  intros H. unfold dict_keys. induction H as [|ci item l l' [Hk _] _ IH]; [done|].
  rewrite !fmap_cons. by f_equal.
Qed.

Lemma init_game_teams `{PyRandom G} req (sv : Server.t G) n b v :
  (Server.init_game req sv).1 = Server.GameInitialized n b v ->
  ∃ gs,
    Server.game_state (Server.init_game req sv).2 = Some gs
    ∧ 0 < n
    ∧ Forall2 (fun i item => item.1 = team_label i ∧ Team.name item.2 = team_label i)
        (seqZ 0 n) (GameState.teams gs)
    ∧ GameState.current_round gs = 0
    ∧ GameState.trades gs = []
    ∧ GameState.rounds gs = []
    ∧ GameState.penalties_rs gs = ∅
    ∧ GameState.round_open_ratios gs = None
    ∧ Server.global_trade_counter (Server.init_game req sv).2 = 0
    ∧ (∀ tname tm, (tname, tm) ∈ GameState.teams gs ->
         within_holding_band (GameState.commodities gs) tm).
Proof.
  intros Hreply.
  destruct (init_game_commodities _ _ _ _ _ Hreply) as (gs0 & Hgs0 & _ & _ & _ & Hnd & Hset).
  apply init_game_Ok in Hreply
    as (cbase & lobby & gs & g & Hn & -> & -> & Hpos & _ & Eb & Ep & Eg & Esv).
  rewrite Esv in Hgs0 |- *. simpl in *. injection Hgs0 as <-.
  exists gs. split; [done|].
  pose proof Eg as Estages.
  apply generate_Ok_stages in Estages
    as (t & tot & slots & K & key & _ & _ & Eband & Eteams & Egs).
  simpl in Eteams, Egs.
  apply update_prices_frame in Ep as (Ht & _ & Htr & Hro & _ & Hpen & Hopen).
  simpl in *.
  split_and!; try done.
  - apply allocate_teams_clamped in Eteams. rewrite make_teams_spec in Eteams.
    apply Forall2_fmap_l in Eteams.
    eapply Forall2_impl; [exact Eteams|].
    intros i item (Hk & Hname & _). simpl in *. done.
  - rewrite Egs. done.
  - rewrite Egs. simpl. done.
  - rewrite Egs. simpl. done.
  - rewrite Egs. simpl. done.
  - rewrite Egs. simpl. done.
  - eapply generate_within_band; [|exact Eg]. simpl.
    apply band_loop_hold in Eband.
    assert (dict_keys (GameState.commodities gs) = dict_keys (GameState.commodities lobby))
      as <-.
    { eapply Forall2_dict_keys; [|exact Eband]. by intros ?? [? _]. }
    by rewrite (set_up_keys _ _ _ Hset).
Qed.

(** ** A game in progress *)

#[local] Instance continues_refl : Reflexive continues.
Proof. intros gs. by split_and!. Qed.

#[local] Instance continues_trans : Transitive continues.
Proof.
  intros gs1 gs2 gs3 (A1 & A2 & A3 & A4 & A5 & A6) (B1 & B2 & B3 & B4 & B5 & B6).
  split_and!; try congruence; try (by etrans); lia.
Qed.

Lemma engine_step_continues gs gs' : engine_step gs gs' -> continues gs gs'.
Proof.
  intros [gs1 gs2 Hin|news gs1]; unfold continues.
  - destruct Hin as [f t g rc gs1 r gs2 E|s p gs1 r gs2 E|gs1 r gs2 E|n r1 r2 gs1 r gs2 E].
    + pose proof (record_trade_supply _ _ _ _ _ _ _ E) as [_ Hk].
      pose proof (record_trade_frame _ _ _ _ _ _ _ E) as (Hc & Hb & Hro & Hr & _).
      rewrite Hc, Hb, Hro, Hr, Hk. split_and!; try done.
      revert E. unfold record_trade.
      destruct (_ =? 0); [by intros [= _ <-]|].
      destruct (pair_taken _ _ _ _); [by intros [= _ <-]|].
      destruct (apply_trade _ _) as [[[]|e] ts]; intros [= _ <-]; simpl; [|done].
      by apply prefix_app_r.
    + pose proof (update_ratios_keys _ _ _ _ _ E) as Hk.
      apply update_ratios_frame in E as (Ht & Hb & Htr & Hro & Hr & _).
      rewrite Hk, Ht, Hb, Htr, Hro, Hr. by split_and!.
    + pose proof (update_prices_keys _ _ _ E) as Hk.
      apply update_prices_frame in E as (Ht & Hb & Htr & Hro & Hr & _).
      rewrite Hk, Ht, Hb, Htr, Hro, Hr. by split_and!.
    + apply apply_round_penalties_frame in E as (Hc & Ht & Hb & Htr & Hro & Hr & _).
      rewrite Hc, Ht, Hb, Htr, Hro, Hr. by split_and!.
  - unfold start_round. split_and!; simpl; try done; [by apply prefix_app_r|lia].
Qed.

Lemma engine_run_continues gs gs' : rtc engine_step gs gs' -> continues gs gs'.
Proof.
  induction 1 as [gs|gs gs1 gs' Hstep _ IH]; [done|].
  etrans; [by apply engine_step_continues|done].
Qed.

(** ** The numbering of the rounds *)

Lemma seqZ_snoc m n : 0 ≤ n -> seqZ m (n + 1) = seqZ m n ++ [m + n].
Proof. intros Hn. by rewrite seqZ_app by lia. Qed.

Lemma engine_step_rounds_numbered gs gs' :
  engine_step gs gs' -> rounds_numbered gs -> rounds_numbered gs'.
Proof.
  intros Hstep (H0 & Hr & Ht). destruct Hstep as [gs1 gs2 Hin|news gs1].
  - destruct Hin as [f t g rc gs1 r gs2 E|s p gs1 r gs2 E|gs1 r gs2 E|n r1 r2 gs1 r gs2 E].
    + pose proof (record_trade_frame _ _ _ _ _ _ _ E) as (_ & _ & Hro & Hc & _).
      unfold rounds_numbered. rewrite Hro, Hc. split_and!; try done.
      revert E. unfold record_trade.
      destruct (Z.eqb_spec (GameState.current_round gs1) 0); [by intros [= _ <-]|].
      destruct (pair_taken _ _ _ _); [by intros [= _ <-]|].
      destruct (apply_trade _ _) as [[[]|e] ts]; intros [= _ <-]; simpl; [|done].
      apply Forall_app. split; [done|]. apply Forall_singleton. simpl. lia.
    + apply update_ratios_frame in E as (_ & _ & Htr & Hro & Hc & _).
      unfold rounds_numbered. by rewrite Htr, Hro, Hc.
    + apply update_prices_frame in E as (_ & _ & Htr & Hro & Hc & _).
      unfold rounds_numbered. by rewrite Htr, Hro, Hc.
    + apply apply_round_penalties_frame in E as (_ & _ & _ & Htr & Hro & Hc & _).
      unfold rounds_numbered. by rewrite Htr, Hro, Hc.
  - unfold rounds_numbered, start_round. simpl. split_and!; [lia| |].
    + rewrite fmap_app, Hr, seqZ_snoc by done. simpl. by rewrite (Z.add_comm 1).
    + eapply Forall_impl; [exact Ht|]. simpl. intros tr ?. lia.
Qed.

Lemma engine_run_rounds_numbered gs gs' :
  rtc engine_step gs gs' -> rounds_numbered gs -> rounds_numbered gs'.
Proof.
  induction 1 as [gs|gs gs1 gs' Hstep _ IH]; [done|].
  intros H0. by apply IH, (engine_step_rounds_numbered gs).
Qed.

(** ** The price history *)

Lemma dict_get_app_notin {V} (d1 d2 : dict V) k :
  k ∉ dict_keys d1 -> dict_get k (d1 ++ d2) = dict_get k d2.
Proof.
  induction d1 as [|[k' v'] d1 IH]; simpl; [done|].
  intros [Hne Hk]%not_elem_of_cons. simpl in Hne.
  rewrite decide_False by done. by apply IH.
Qed.

Lemma dict_set_app_notin {V} (d1 d2 : dict V) k v old :
  k ∉ dict_keys d1 -> dict_set k v (d1 ++ (k, old) :: d2) = d1 ++ (k, v) :: d2.
Proof.
  induction d1 as [|[k' v'] d1 IH]; simpl.
  { intros _. by rewrite decide_True. }
  intros [Hne Hk]%not_elem_of_cons. simpl in Hne.
  rewrite decide_False by done. f_equal. by apply IH.
Qed.

Lemma record_price_snapshot_loop (cs : dict Commodity.t) counter round
    (done_ todo : dict (list Server.snapshot)) :
  NoDup (dict_keys cs) ->
  dict_keys todo = dict_keys cs ->
  (∀ k, k ∈ dict_keys cs -> k ∉ dict_keys done_) ->
  foldl (fun hist '(cname, c) =>
           dict_set cname
             (default [] (dict_get cname hist)
              ++ [Server.mk_snapshot counter round (Commodity.price c)])
             hist)
        (done_ ++ todo) cs
  = done_ ++ zip_with (fun series item =>
                         (series.1,
                          series.2 ++ [Server.mk_snapshot counter round
                                         (Commodity.price item.2)]))
               todo cs.
Proof.
  revert done_ todo. induction cs as [|[k c] cs IH]; intros done_ todo Hnd Hk Hnew.
  { destruct todo; [|done]. done. }
  destruct todo as [|[k' old] todo]; [done|].
  injection Hk as -> Hk. apply NoDup_cons in Hnd as [Hk' Hnd]. simpl.
  rewrite dict_get_app_notin by (apply Hnew; by left). simpl.
  rewrite decide_True by done. simpl.
  rewrite dict_set_app_notin by (apply Hnew; by left).
  rewrite (cons_middle _ done_), app_assoc.
  rewrite IH; [by rewrite <- app_assoc|done|done|].
  intros x Hx. unfold dict_keys. rewrite fmap_app. simpl.
  intros [Hin|Hin%list_elem_of_singleton]%elem_of_app.
  - apply (Hnew x); [by right|done].
  - by subst x.
Qed.

Lemma record_price_snapshot_spec gs counter hist :
  NoDup (dict_keys (GameState.commodities gs)) ->
  dict_keys hist = dict_keys (GameState.commodities gs) ->
  Server.record_price_snapshot gs counter hist
  = zip_with (fun series item =>
                (series.1,
                 series.2 ++ [Server.mk_snapshot counter (GameState.current_round gs)
                                (Commodity.price item.2)]))
      hist (GameState.commodities gs).
Proof.
  intros Hnd Hk. unfold Server.record_price_snapshot.
  rewrite <- (app_nil_l hist) at 1.
  rewrite record_price_snapshot_loop; try done.
  intros k _ Hin. by apply elem_of_nil in Hin.
Qed.

Lemma record_price_snapshot_next gs counter hist :
  NoDup (dict_keys (GameState.commodities gs)) ->
  dict_keys hist = dict_keys (GameState.commodities gs) ->
  0 ≤ counter ->
  Forall (fun series => Server.trade_index <$> series.2 = seqZ 0 counter) hist ->
  dict_keys (Server.record_price_snapshot gs counter hist) = dict_keys hist
  ∧ Forall (fun series => Server.trade_index <$> series.2 = seqZ 0 (counter + 1))
      (Server.record_price_snapshot gs counter hist).
Proof.
  intros Hnd Hk H0 Hall. rewrite record_price_snapshot_spec by done.
  assert (length hist = length (GameState.commodities gs)) as Hlen.
  { unfold dict_keys in Hk. by rewrite <- (length_fmap fst hist), Hk, length_fmap. }
  revert Hlen Hall. clear -H0. generalize (GameState.commodities gs) as cs.
  induction hist as [|[k old] hist IH]; intros [|[k' c] cs] Hlen Hall; try done.
  apply Forall_cons in Hall as [Hold Hall]. simpl in *.
  destruct (IH cs) as [IH1 IH2]; [lia|done|].
  split.
  - unfold dict_keys in *. simpl. by rewrite IH1.
  - constructor; [|done]. simpl.
    by rewrite fmap_app, Hold, seqZ_snoc.
Qed.

(** ** What a posted trade does to the books *)

Lemma post_trade_books {G} req (sv : Server.t G) gs :
  Server.game_state sv = Some gs ->
  ∃ gs',
    Server.game_state (Server.post_trade req sv).2 = Some gs'
    ∧ rtc engine_step gs gs'
    ∧ ((∃ tr give receive gs1 gs2,
          (Server.post_trade req sv).1 = Server.TradeRecorded tr
          ∧ Server.legs_dict (Server.req_give req) [] = Some give
          ∧ Server.legs_dict (Server.req_receive req) [] = Some receive
          ∧ record_trade (Server.req_from_team req) (Server.req_to_team req)
              give receive gs = (Ok tr, gs1)
          ∧ update_ratios_auto default_sensitivity default_circuit_pct gs1 = (Ok tt, gs2)
          ∧ update_prices_from_ratios gs2 = (Ok tt, gs')
          ∧ Server.global_trade_counter (Server.post_trade req sv).2
            = Server.global_trade_counter sv + 1
          ∧ Server.price_history (Server.post_trade req sv).2
            = Server.record_price_snapshot gs' (Server.global_trade_counter sv + 1)
                (Server.price_history sv)
          ∧ Server.excel_logger (Server.post_trade req sv).2
            = option_map (fun rows => rows ++ [Server.LogTrade tr]) (Server.excel_logger sv))
       ∨ (∃ detail,
            (Server.post_trade req sv).1 = Server.Http400 detail
            ∧ Server.global_trade_counter (Server.post_trade req sv).2
              = Server.global_trade_counter sv
            ∧ Server.price_history (Server.post_trade req sv).2 = Server.price_history sv
            ∧ Server.excel_logger (Server.post_trade req sv).2 = Server.excel_logger sv)).
Proof.
  intros Egs. unfold Server.post_trade. rewrite Egs.
  destruct (Server.legs_dict (Server.req_give req) []) as [give|].
  2:{ simpl. rewrite Egs. exists gs. split_and!; [done|done|]. right. eauto. }
  destruct (Server.legs_dict (Server.req_receive req) []) as [receive|].
  2:{ simpl. rewrite Egs. exists gs. split_and!; [done|done|]. right. eauto. }
  destruct (record_trade _ _ _ _ gs) as [r gs1] eqn:E1.
  assert (engine_step gs gs1) as S1.
  { apply step_in_round. eapply step_record_trade. exact E1. }
  destruct r as [tr|e].
  2:{ destruct e; simpl; (exists gs1; split_and!; [done|by apply rtc_once|]; right; eauto). }
  destruct (update_ratios_auto _ _ gs1) as [r2 gs2] eqn:E2.
  assert (engine_step gs1 gs2) as S2.
  { apply step_in_round. eapply step_update_ratios. exact E2. }
  destruct r2 as [[]|e].
  2:{ simpl. exists gs2. split_and!; [done|eauto using rtc_l, rtc_once|]. right. eauto. }
  destruct (update_prices_from_ratios gs2) as [r3 gs3] eqn:E3.
  assert (engine_step gs2 gs3) as S3.
  { apply step_in_round. eapply step_update_prices. exact E3. }
  destruct r3 as [[]|e].
  2:{ simpl. exists gs3. split_and!; [done|eauto using rtc_l, rtc_once|]. right. eauto. }
  simpl. exists gs3. split_and!; [done|eauto using rtc_l, rtc_once|].
  left. exists tr, give, receive, gs1, gs2. by split_and!.
Qed.

(** ** The books are in step with the game *)

Lemma logged_trades_app rows1 rows2 :
  logged_trades (rows1 ++ rows2) = logged_trades rows1 ++ logged_trades rows2.
Proof. apply omap_app. Qed.

Lemma init_game_books `{PyRandom G} req (sv : Server.t G) n b v :
  (Server.init_game req sv).1 = Server.GameInitialized n b v ->
  books_in_step (Server.init_game req sv).2.
Proof.
  intros Hreply.
  destruct (init_game_commodities _ _ _ _ _ Hreply) as (gs0 & Hgs0 & _ & _ & _ & Hnd & Hset).
  destruct (init_game_teams _ _ _ _ _ Hreply) as (gs1 & Hgs1 & _ & _ & _ & Htr & _).
  apply init_game_Ok in Hreply
    as (cbase & lobby & gs & g & Hn & -> & -> & Hpos & _ & Eb & Ep & Eg & Esv).
  rewrite Esv in Hgs0, Hgs1 |- *. simpl in *.
  injection Hgs0 as <-. injection Hgs1 as <-.
  assert (NoDup (dict_keys (GameState.commodities gs))) as Hnd'.
  { by rewrite (set_up_keys _ _ _ Hset). }
  set (hist0 := foldl (fun hist cname => dict_set cname [] hist) []
                  (dict_keys (GameState.commodities gs))).
  assert (hist0 = (fun k => (k, [])) <$> dict_keys (GameState.commodities gs)) as Hh0.
  { unfold hist0.
    rewrite (foldl_dict_set_fresh id (fun _ => @nil Server.snapshot)); [done| |].
    - by rewrite list_fmap_id.
    - intros x _ Hin. by apply elem_of_nil in Hin. }
  assert (dict_keys hist0 = dict_keys (GameState.commodities gs)) as Hk0.
  { rewrite Hh0. unfold dict_keys. rewrite <- list_fmap_compose.
    rewrite <- (list_fmap_id (GameState.commodities gs).*1) at 2.
    by apply list_fmap_ext. }
  destruct (record_price_snapshot_next gs 0 hist0) as [Hk1 Hall1]; [done|done|done| |].
  { rewrite Hh0. apply Forall_fmap, Forall_true. done. }
  exists gs, [Server.LogCommodities (GameState.commodities gs) 0; Server.LogPortfolios gs].
  simpl. split_and!; try done.
  - by rewrite Hk1.
  - rewrite Htr. apply sublist_nil_l.
Qed.

Lemma books_in_step_step {G} (sv sv' : Server.t G) :
  session_step sv sv' -> books_in_step sv -> books_in_step sv'.
Proof.
  intros Hstep (gs & rows & Hgs & Hrows & Hnd & Hk & H0 & Hall & Hlen & Hsub).
  destruct Hstep as [news sv|req sv|sv].
  - unfold Server.start_round. rewrite Hgs. simpl.
    exists (start_round news gs), rows. by split_and!.
  - destruct (post_trade_books req sv gs Hgs) as (gs' & Hgs' & Hrun & Hcase).
    apply engine_run_continues in Hrun as (Hc & _ & _ & [k Htr] & _).
    destruct Hcase as [(tr & give & receive & gs1 & gs2 & _ & _ & _ & E1 & E2 & E3
                         & Hcnt & Hhist & Hlog)
                      |(detail & _ & Hcnt & Hhist & Hlog)].
    + exists gs', (rows ++ [Server.LogTrade tr]).
      destruct (record_price_snapshot_next gs' (Server.global_trade_counter sv + 1)
                  (Server.price_history sv)) as [Hk1 Hall1]; [congruence..|lia|done|].
      rewrite Hgs', Hlog, Hrows, Hcnt, Hhist. simpl. split_and!; try done.
      * congruence.
      * by rewrite Hk1, Hc.
      * lia.
      * rewrite logged_trades_app, length_app. simpl. lia.
      * rewrite logged_trades_app. simpl.
        apply record_trade_Ok in E1 as (_ & _ & _ & ts & _ & ->).
        apply update_ratios_frame in E2 as (_ & _ & Ht2 & _).
        apply update_prices_frame in E3 as (_ & _ & Ht3 & _).
        rewrite Ht3, Ht2. simpl. by apply sublist_app.
    + exists gs', rows. rewrite Hgs', Hlog, Hcnt, Hhist. split_and!; try done.
      * congruence.
      * congruence.
      * rewrite Htr. by apply sublist_inserts_r.
  - unfold Server.end_round. rewrite Hgs.
    destruct (_ =? 0); [exists gs, rows; by split_and!|].
    case_bool_decide; [exists gs, rows; by split_and!|].
    destruct (apply_round_penalties _ _ _ gs) as [r gs1] eqn:E1.
    apply apply_round_penalties_frame in E1 as (Hc & _ & _ & Htr & _).
    destruct r as [[]|e]; simpl.
    + exists gs1, (rows ++ [Server.LogCommodities (GameState.commodities gs1)
                              (GameState.current_round gs);
                            Server.LogPortfolios gs1]).
      rewrite Hrows, Hc, Htr. simpl.
      rewrite logged_trades_app. simpl. rewrite app_nil_r. by split_and!.
    + exists gs1, rows. rewrite Hc, Htr. by split_and!.
Qed.

Lemma books_in_step_run {G} (sv sv' : Server.t G) :
  rtc session_step sv sv' -> books_in_step sv -> books_in_step sv'.
Proof.
  induction 1 as [sv|sv sv1 sv' Hstep _ IH]; [done|].
  intros H0. by apply IH, (books_in_step_step sv).
Qed.

(** ** Repricing twice *)

Lemma price_commodity_fixed base cname c c' :
  price_commodity base cname c = Ok c' -> price_commodity base cname c' = Ok c'.
Proof.
  unfold price_commodity. case_decide as Hb.
  - intros [= <-]. by destruct c.
  - remember (if Commodity.base_ratio c <=? 0
              then Commodity.with_base_ratio 1 c else c) as c1 eqn:Ec1.
    assert (1 ≤ Commodity.base_ratio c1) as H1.
    { subst c1. destruct (Z.leb_spec (Commodity.base_ratio c) 0); simpl; lia. }
    clear Ec1. destruct c1 as [n p r lo hi amin amax].
    cbn [Commodity.base_ratio Commodity.with_price Commodity.price Commodity.name
         Commodity.min_units Commodity.max_units Commodity.alloc_min_units
         Commodity.alloc_max_units] in *.
    destruct (PyFloat.of_int r) as [rf|e] eqn:Er; [|done].
    cbn [mbind res_bind]. intros [= <-].
    cbn [Commodity.base_ratio Commodity.with_price Commodity.price Commodity.name
         Commodity.min_units Commodity.max_units Commodity.alloc_min_units
         Commodity.alloc_max_units].
    destruct (Z.leb_spec r 0); [lia|].
    unfold Commodity.with_price. cbn [Commodity.base_ratio Commodity.price Commodity.name
         Commodity.min_units Commodity.max_units Commodity.alloc_min_units
         Commodity.alloc_max_units].
    by rewrite Er.
Qed.

Lemma dict_for_each_fixed {V} (body : string -> V -> res V) d :
  Forall (fun item => body item.1 item.2 = Ok item.2) d ->
  dict_for_each body d = (Ok tt, d).
Proof.
  unfold dict_for_each. induction d as [|[k v] d IH]; intros Hall; simpl; [done|].
  apply Forall_cons in Hall as [Hv Hall]. simpl in Hv.
  rewrite Hv. by rewrite (IH Hall).
Qed.

(** ** Ratios stay positive *)

Lemma update_prices_ratios_positive gs r gs' :
  update_prices_from_ratios gs = (r, gs') ->
  ratios_positive (GameState.commodities gs) ->
  ratios_positive (GameState.commodities gs').
Proof.
  unfold update_prices_from_ratios. case_decide as Hb; [by intros [= _ <-]|].
  destruct (dict_for_each _ _) as [r1 cs] eqn:E. intros [= _ <-] Hpos. simpl.
  apply dict_for_each_items in E. unfold ratios_positive in *.
  apply Forall_forall. intros [k c'] Hin.
  apply list_elem_of_lookup in Hin as [i Hi].
  destruct (Forall2_lookup_r _ _ _ _ _ E Hi) as ([k0 c0] & Hi0 & Hk & Hbody).
  pose proof (Forall_lookup_1 _ _ _ _ Hpos Hi0) as H0. simpl in *.
  destruct Hbody as [Hbody|[_ ->]]; [|done].
  revert Hbody. unfold price_commodity. case_decide; [by intros [= <-]|].
  destruct (Z.leb_spec (Commodity.base_ratio c0) 0); [lia|].
  destruct (PyFloat.of_int _); [|done]. cbn [mbind res_bind]. by intros [= <-].
Qed.

Lemma update_ratios_ratios_positive s p gs r gs' :
  update_ratios_auto s p gs = (r, gs') ->
  ratios_positive (GameState.commodities gs) ->
  ratios_positive (GameState.commodities gs').
Proof.
  unfold update_ratios_auto.
  destruct (_ =? 0); [by intros [= _ <-]|].
  destruct (compute_net_demand _ _) as [net|e]; [|by intros [= _ <-]].
  destruct (dict_for_each _ _) as [r1 cs] eqn:E. intros Hres Hpos.
  assert (ratios_positive cs) as Hcs.
  { apply dict_for_each_items in E. unfold ratios_positive in *.
    apply Forall_forall. intros [k c'] Hin.
    apply list_elem_of_lookup in Hin as [i Hi].
    destruct (Forall2_lookup_r _ _ _ _ _ E Hi) as ([k0 c0] & Hi0 & Hk & Hbody).
    pose proof (Forall_lookup_1 _ _ _ _ Hpos Hi0) as H0. simpl in *.
    destruct Hbody as [Hbody|[_ ->]]; [|done].
    destruct (decide (k0 = GameState.base_commodity gs)) as [Hb|Hb].
    - by rewrite (ratio_commodity_base _ _ _ _ _ _ _ _ _ Hbody Hb).
    - destruct (ratio_commodity_clamped _ _ _ _ _ _ _ _ _ Hbody Hb)
        as (lo & hi & _ & _ & Hlo & _). lia. }
  destruct r1 as [[]|e]; revert Hres; intros [= _ <-]; simpl; [|done].
  destruct (dict_get _ cs) as [c|]; [|done].
  by apply Forall_dict_set.
Qed.

Lemma engine_step_ratios_positive gs gs' :
  engine_step gs gs' ->
  ratios_positive (GameState.commodities gs) ->
  ratios_positive (GameState.commodities gs').
Proof.
  intros [gs1 gs2 Hin|news gs1]; [|done].
  destruct Hin as [f t g rc gs1 r gs2 E|s p gs1 r gs2 E|gs1 r gs2 E|n r1 r2 gs1 r gs2 E].
  - by apply record_trade_frame in E as (-> & _).
  - by eapply update_ratios_ratios_positive.
  - by eapply update_prices_ratios_positive.
  - by apply apply_round_penalties_frame in E as (-> & _).
Qed.

Lemma engine_run_ratios_positive gs gs' :
  rtc engine_step gs gs' ->
  ratios_positive (GameState.commodities gs) ->
  ratios_positive (GameState.commodities gs').
Proof.
  induction 1 as [gs|gs gs1 gs' Hstep _ IH]; [done|].
  intros H0. by apply IH, (engine_step_ratios_positive gs).
Qed.

Lemma init_game_ratios_positive `{PyRandom G} req (sv : Server.t G) n b v gs :
  (Server.init_game req sv).1 = Server.GameInitialized n b v ->
  Server.game_state (Server.init_game req sv).2 = Some gs ->
  ratios_positive (GameState.commodities gs).
Proof.
  intros Hreply Hgs.
  pose proof Hreply as (gs0 & Hgs0 & _ & _ & _ & _ & Hset)%init_game_commodities.
  assert (gs0 = gs) as -> by congruence.
  apply init_game_Ok in Hreply as (_ & _ & _ & _ & _ & _ & _ & Hpos & _).
  unfold ratios_positive. apply Forall_forall. intros item Hin.
  apply list_elem_of_lookup in Hin as [i Hi].
  destruct (Forall2_lookup_r _ _ _ _ _ Hset Hi) as (ci & Hci & _ & _ & Hcase).
  pose proof (Forall_lookup_1 _ _ _ _ Hpos Hci) as Hr. simpl in Hr.
  case_decide; [lia|]. destruct Hcase as [-> _]. lia.
Qed.

(** ** The generator only gives out listed commodities *)

Lemma initial_holdings_dom (cs : dict Commodity.t) k :
  is_Some (initial_holdings cs !! k) -> k ∈ dict_keys cs.
Proof.
  unfold initial_holdings.
  assert (∀ h : gmap string Z, is_Some (foldl (fun h '(cname, c) => <[cname := alloc_min c]> h) h cs !! k)
               -> is_Some (h !! k) ∨ k ∈ dict_keys cs) as Hgen.
  { induction cs as [|[k0 c0] cs IH]; intros h; simpl; [by left|].
    intros [Hh|Hin]%IH; [|right; by right].
    destruct (decide (k = k0)) as [->|Hne]; [right; by left|].
    rewrite lookup_insert_ne in Hh by done. by left. }
  intros [Hh|Hin]%Hgen; [|done]. rewrite lookup_empty in Hh. by destruct Hh.
Qed.

Lemma add_picks_dom cs picks h r h' k :
  add_picks cs picks h = (r, h') -> is_Some (h' !! k) -> is_Some (h !! k).
Proof.
  revert h. induction picks as [|p picks IH]; intros h; simpl.
  { by intros [= _ <-]. }
  destruct (h !! p) as [q|] eqn:Eq; [|by intros [= _ <-]].
  destruct (dict_get p cs) as [c|]; [|by intros [= _ <-]].
  intros E Hk. apply (IH _ E) in Hk.
  destruct (decide (k = p)) as [->|Hne]; [by rewrite Eq|].
  by rewrite lookup_insert_ne in Hk.
Qed.

Lemma enforce_holding_band_dom cs h k :
  is_Some (enforce_holding_band cs h !! k) -> is_Some (h !! k) ∨ k ∈ dict_keys cs.
Proof.
  revert h. induction cs as [|[k0 c0] cs IH]; intros h; [by left|].
  rewrite enforce_holding_band_cons. cbv zeta.
  intros [Hh|Hin]%IH; [|right; by right].
  destruct (decide (k = k0)) as [->|Hne]; [right; by left|]. left.
  revert Hh. repeat case_match; by rewrite ?lookup_insert_ne.
Qed.

Lemma allocate_teams_dom `{PyRandom G} cs slots K_extra ts (g : G) ts' g' :
  allocate_teams cs slots K_extra ts g = (Ok tt, ts', g') ->
  Forall (fun item => ∀ k, is_Some (Team.holdings item.2 !! k) -> k ∈ dict_keys cs) ts'.
Proof.
  revert g ts'. induction ts as [|[tname tm] ts IH]; intros g ts'; simpl.
  { intros [= <- _]. constructor. }
  destruct (allocate_team cs slots K_extra g) as [[r h] g1] eqn:E1.
  destruct r as [[]|e]; [|done].
  destruct (allocate_teams cs slots K_extra ts g1) as [[r2 ts2] g2] eqn:E2.
  intros [= -> <- <-]. constructor; [|by eapply IH].
  simpl. intros k Hk. revert E1. unfold allocate_team.
  destruct (_ && _).
  - destruct (random_sample _ _ _) as [picks g3].
    destruct (add_picks _ _ _) as [[[]|e] h1] eqn:Ep; [|done].
    intros [= <- _]. apply enforce_holding_band_dom in Hk as [Hk|Hk]; [|done].
    by eapply initial_holdings_dom, add_picks_dom.
  - intros [= <- _]. apply enforce_holding_band_dom in Hk as [Hk|Hk]; [|done].
    by apply initial_holdings_dom.
Qed.

Lemma generate_holdings_positive `{PyRandom G} target_value_hint gs (g : G) v gs' g' :
  NoDup (dict_keys (GameState.commodities gs)) ->
  generate_initial_portfolios_with_ranges target_value_hint gs g = (Ok v, gs', g') ->
  Forall (fun item => map_Forall (fun _ q => 1 ≤ q) (Team.holdings item.2))
    (GameState.teams gs').
Proof.
  intros Hnd Eg. pose proof (generate_within_band _ _ _ _ _ _ Hnd Eg) as Hband.
  apply generate_Ok_stages in Eg
    as (t & tot & slots & K & key & _ & _ & Eband & Eteams & _).
  apply allocate_teams_dom in Eteams.
  apply Forall_forall. intros [tname tm] Hin k q Hq. simpl in *.
  pose proof (proj1 (Forall_forall _ _) Eteams _ Hin) as Hdom. simpl in Hdom.
  assert (k ∈ dict_keys (GameState.commodities gs')) as Hk by (apply Hdom; by rewrite Hq).
  apply dict_get_is_Some in Hk as [c Hc]. apply dict_get_Some_elem in Hc.
  destruct (Hband tname tm Hin k c Hc) as (H1 & Hlo & _).
  unfold Team.qty in Hlo. rewrite Hq in Hlo. simpl in Hlo. lia.
Qed.

Lemma init_game_holdings_nonneg `{PyRandom G} req (sv : Server.t G) n b v gs :
  (Server.init_game req sv).1 = Server.GameInitialized n b v ->
  Server.game_state (Server.init_game req sv).2 = Some gs ->
  holdings_nonneg (GameState.teams gs).
Proof.
  intros Hreply Hgs.
  pose proof Hreply as (gs0 & Hgs0 & _ & _ & _ & Hnd & Hset)%init_game_commodities.
  assert (gs0 = gs) as -> by congruence.
  apply init_game_Ok in Hreply
    as (cbase & lobby & gs1 & g & _ & _ & _ & _ & _ & _ & Ep & Eg & Esv).
  rewrite Esv in Hgs. simpl in Hgs. injection Hgs as ->.
  pose proof Eg as (t & tot & slots & K & key & _ & _ & Eband & _)%generate_Ok_stages.
  apply generate_holdings_positive in Eg.
  - eapply Forall_impl; [exact Eg|]. intros item Hitem k q Hq.
    specialize (Hitem k q Hq). simpl in Hitem. lia.
  - simpl in *. apply band_loop_hold in Eband.
    assert (dict_keys (GameState.commodities gs) = dict_keys (GameState.commodities lobby))
      as <-.
    { eapply Forall2_dict_keys; [|exact Eband]. by intros ?? [? _]. }
    by rewrite (set_up_keys _ _ _ Hset).
Qed.

(** ** Net demand *)

Lemma net_trades_filter round_no journal net :
  net_trades round_no journal net
  = net_trades round_no (filter (fun tr => Trade.round_no tr = round_no) journal) net.
Proof.
  revert net. induction journal as [|tr journal IH]; intros net; [done|].
  destruct (decide (Trade.round_no tr = round_no)) as [Hr|Hr].
  - rewrite filter_cons_True by done. simpl.
    rewrite !bool_decide_eq_false_2 by (intros ?; done).
    destruct (net_legs true _ net) as [net1|e]; [|done]. simpl.
    destruct (net_legs false _ net1) as [net2|e]; [|done]. simpl.
    apply IH.
  - rewrite filter_cons_False by done. simpl.
    rewrite bool_decide_eq_true_2 by done. apply IH.
Qed.

(** ** Closing a round, trades in between *)

Lemma post_trades_round {G} (reqs : list Server.TradeRequest) (sv : Server.t G) :
  let sv' := foldl (fun s req => (Server.post_trade req s).2) sv reqs in
  Server.ended_rounds sv' = Server.ended_rounds sv
  ∧ (GameState.current_round <$> Server.game_state sv')
    = (GameState.current_round <$> Server.game_state sv)
  ∧ rtc session_step sv sv'.
Proof.
  revert sv. induction reqs as [|req reqs IH]; intros sv; simpl; [done|].
  destruct (IH (Server.post_trade req sv).2) as (H1 & H2 & H3).
  destruct (post_trade_round req sv) as [H4 H5].
  split_and!; [congruence|congruence|].
  eapply rtc_l; [apply session_post_trade|done].
Qed.

(** ** Units are neither made nor lost *)

(** X1. Whatever requests the server handles between two initialisations
    (rounds started, trades posted and accepted, refused or failing half-way,
    rounds ended), the number of units of each commodity that the teams hold
    together stays the same. *)
Theorem supply_is_constant {G} (sv sv' : Server.t G) cname :
  rtc session_step sv sv' -> supply sv' cname = supply sv cname.
Proof.
  intros Hrun. unfold supply.
  destruct (Server.game_state sv) as [gs|] eqn:Egs.
  - destruct (session_run_engine _ _ _ Hrun Egs) as (gs' & -> & Hrun').
    simpl. f_equal. by apply engine_run_supply.
  - induction Hrun as [sv|sv sv1 sv' Hstep _ IH]; [by rewrite Egs|].
    apply session_step_engine in Hstep. rewrite Egs in Hstep. subst sv1. by apply IH.
Qed.

Lemma supply_is_constant_witness :
  supply (Server.post_trade scenario_offer
            (Server.start_round "opening" scenario_server).2).2 "A"
  = supply scenario_server "A".
Proof.
  apply (supply_is_constant scenario_server
           (Server.post_trade scenario_offer
              (Server.start_round "opening" scenario_server).2).2 "A").
  eapply rtc_l; [apply (session_start_round "opening")|].
  apply rtc_once. apply session_post_trade.
Defined.

(** X2. In a game set up by [init_game], no team ever holds a negative
    quantity of anything, whatever requests follow. *)
Theorem holdings_never_negative `{PyRandom G} req (sv0 sv : Server.t G) n b v gs :
  (Server.init_game req sv0).1 = Server.GameInitialized n b v ->
  rtc session_step (Server.init_game req sv0).2 sv ->
  Server.game_state sv = Some gs ->
  holdings_nonneg (GameState.teams gs).
Proof.
  intros Hreply Hrun Hgs.
  destruct (init_game_teams _ _ _ _ _ Hreply) as (gs0 & Hgs0 & _).
  destruct (session_run_engine _ _ _ Hrun Hgs0) as (gs' & Hgs' & Hrun').
  assert (gs' = gs) as -> by congruence.
  apply (engine_run_nonneg gs0); [done|].
  by eapply init_game_holdings_nonneg.
Qed.

Lemma holdings_never_negative_witness :
  holdings_nonneg
    (GameState.teams
       (default GameState.new
          (Server.game_state
             (Server.post_trade scenario_offer
                (Server.start_round "round one" small_game).2).2))).
Proof.
  apply (holdings_never_negative (H := counting_source) small_request (Server.start 0%nat)
           (Server.post_trade scenario_offer
              (Server.start_round "round one" small_game).2).2
           3 "A" 2000000%float).
  - vm_compute. reflexivity.
  - eapply rtc_l; [apply (session_start_round "round one")|].
    apply rtc_once. apply session_post_trade.
  - vm_compute. reflexivity.
Defined.

(** ** Trades that go through, trades that do not *)

(** X3. In an active round, a trade between two different existing teams
    that have not yet traded with each other in the round succeeds whenever
    the giver holds every quantity it gives and the receiver every quantity it
    gives back (each commodity named once per side, no quantity negative). The
    trade is appended to the journal with the number of the round, each of the
    two teams ends with exactly its old holding minus what it gave plus what
    it got, for every commodity, and the other teams are untouched. *)
Theorem funded_trade_moves_exactly_the_legs gs from_team to_team give receive :
  GameState.current_round gs ≠ 0 ->
  pair_taken (GameState.trades gs) (GameState.current_round gs) from_team to_team = false ->
  from_team ≠ to_team ->
  is_Some (dict_get from_team (GameState.teams gs)) ->
  is_Some (dict_get to_team (GameState.teams gs)) ->
  NoDup (dict_keys give) -> NoDup (dict_keys receive) ->
  Forall (fun leg => 0 ≤ leg.2 ≤ team_qty (GameState.teams gs) from_team leg.1) give ->
  Forall (fun leg => 0 ≤ leg.2 ≤ team_qty (GameState.teams gs) to_team leg.1) receive ->
  let tr := Trade.mk (GameState.current_round gs) from_team to_team give receive in
  ∃ ts',
    record_trade from_team to_team give receive gs
    = (Ok tr, GameState.with_trades (GameState.trades gs ++ [tr])
                (GameState.with_teams ts' gs))
    ∧ (∀ c, team_qty ts' from_team c
            = team_qty (GameState.teams gs) from_team c - leg_qty give c + leg_qty receive c)
    ∧ (∀ c, team_qty ts' to_team c
            = team_qty (GameState.teams gs) to_team c + leg_qty give c - leg_qty receive c)
    ∧ (∀ key, key ≠ from_team -> key ≠ to_team ->
              dict_get key ts' = dict_get key (GameState.teams gs)).
Proof.
  intros Hr Hfree Hne Hf Ht Hng Hnr Hg Hrc tr.
  rewrite record_trade_free by done. fold tr.
  unfold apply_trade. simpl.
  destruct Hf as [tf Ef], Ht as [tt_ Et]. rewrite Ef, Et.
  destruct (transfer_legs_funded from_team to_team give (GameState.teams gs) Hne
              (mk_is_Some _ _ Ef) (mk_is_Some _ _ Et) Hng Hg)
    as (ts1 & E1 & Hf1 & Ht1 & Ho1 & Hk1).
  rewrite E1.
  assert (∀ c, 0 ≤ leg_qty give c) as Hpos.
  { intros c. unfold leg_qty. destruct (dict_get c give) as [q|] eqn:E; [|done].
    apply dict_get_Some_elem in E.
    apply (proj1 (Forall_forall _ _) Hg) in E. simpl in *. lia. }
  destruct (transfer_legs_funded to_team from_team receive ts1)
    as (ts2 & E2 & Hf2 & Ht2 & Ho2 & Hk2).
  { congruence. }
  { apply Hk1. by rewrite Et. }
  { apply Hk1. by rewrite Ef. }
  { done. }
  { apply Forall_forall. intros [c q] Hin.
    apply (proj1 (Forall_forall _ _) Hrc) in Hin. simpl in *.
    rewrite Ht1. specialize (Hpos c). lia. }
  rewrite E2. exists ts2. split_and!; [done|..].
  - intros c. rewrite Ht2, Hf1. lia.
  - intros c. rewrite Hf2, Ht1. lia.
  - intros key Hk3 Hk4. rewrite Ho2, Ho1 by done. done.
Qed.

Lemma funded_trade_moves_exactly_the_legs_witness :
  ∃ ts',
    record_trade "Team 1" "Team 2" [("A", 4)] [("B", 16)] (scenario_state 40)
    = (Ok (Trade.mk 1 "Team 1" "Team 2" [("A", 4)] [("B", 16)]),
       GameState.with_trades
         (GameState.trades (scenario_state 40)
          ++ [Trade.mk 1 "Team 1" "Team 2" [("A", 4)] [("B", 16)]])
         (GameState.with_teams ts' (scenario_state 40)))
    ∧ (∀ c, team_qty ts' "Team 1" c
            = team_qty (GameState.teams (scenario_state 40)) "Team 1" c
              - leg_qty [("A", 4)] c + leg_qty [("B", 16)] c)
    ∧ (∀ c, team_qty ts' "Team 2" c
            = team_qty (GameState.teams (scenario_state 40)) "Team 2" c
              + leg_qty [("A", 4)] c - leg_qty [("B", 16)] c)
    ∧ (∀ key, key ≠ "Team 1" -> key ≠ "Team 2" ->
              dict_get key ts' = dict_get key (GameState.teams (scenario_state 40))).
Proof.
  apply (funded_trade_moves_exactly_the_legs (scenario_state 40) "Team 1" "Team 2"
           [("A", 4)] [("B", 16)]).
  - vm_compute. discriminate.
  - vm_compute. reflexivity.
  - discriminate.
  - vm_compute. eauto.
  - vm_compute. eauto.
  - apply (bool_decide_unpack (NoDup (dict_keys [("A", 4)]))). vm_compute. exact I.
  - apply (bool_decide_unpack (NoDup (dict_keys [("B", 16)]))). vm_compute. exact I.
  - repeat constructor; vm_compute; discriminate.
  - repeat constructor; vm_compute; discriminate.
Defined.

(** X4. The refusals of [post_trade] that leave everything as it was: a leg
    whose quantity is not positive, no active round, a pair of teams that has
    already traded in the round, a team that does not exist. Each is answered
    with status 400 and the whole server state, game included, is unchanged. *)
Theorem refused_trade_changes_nothing {G} req (sv : Server.t G) gs :
  Server.game_state sv = Some gs ->
  Exists (fun leg => Server.qty leg ≤ 0) (Server.req_give req ++ Server.req_receive req)
  ∨ GameState.current_round gs = 0
  ∨ (∃ tr, tr ∈ GameState.trades gs
           ∧ Trade.round_no tr = GameState.current_round gs
           ∧ Trade.pair tr
             = ({[ Server.req_from_team req; Server.req_to_team req ]} : gset string))
  ∨ dict_get (Server.req_from_team req) (GameState.teams gs) = None
  ∨ dict_get (Server.req_to_team req) (GameState.teams gs) = None ->
  ∃ detail, Server.post_trade req sv = (Server.Http400 detail, sv).
Proof.
  intros Hgs Hcase. unfold Server.post_trade. rewrite Hgs.
  destruct (Server.legs_dict (Server.req_give req) []) as [give|] eqn:Eg; [|eauto].
  destruct (Server.legs_dict (Server.req_receive req) []) as [receive|] eqn:Er; [|eauto].
  destruct Hcase as [Hq|Hcase].
  { apply Exists_app in Hq as [Hq|Hq]; apply (legs_dict_None _ []) in Hq; congruence. }
  assert (∃ e, record_trade (Server.req_from_team req) (Server.req_to_team req)
                 give receive gs = (Raise e, gs)) as [e ->].
  { destruct (decide (GameState.current_round gs = 0)) as [H0|H0].
    { rewrite record_trade_no_round by done. eauto. }
    destruct (pair_taken (GameState.trades gs) (GameState.current_round gs)
                (Server.req_from_team req) (Server.req_to_team req)) eqn:Ep.
    { destruct (record_trade_taken _ _ give receive gs H0 Ep) as [msg ->]. eauto. }
    destruct Hcase as [?|[(tr & Hin & Hr & Hp)|Hmiss]]; [done|..].
    { by destruct (proj1 (pair_taken_false _ _ _ _) Ep tr Hin Hr). }
    rewrite record_trade_free by done. unfold apply_trade. simpl.
    destruct (dict_get (Server.req_from_team req) _) eqn:Ef.
    - destruct Hmiss as [?|Et]; [done|]. rewrite Et, game_state_eta. eauto.
    - rewrite game_state_eta. eauto. }
  rewrite (server_state_eta sv gs Hgs). destruct e; eauto.
Qed.

Lemma refused_trade_changes_nothing_witness :
  ∃ detail,
    Server.post_trade scenario_offer scenario_server
    = (Server.Http400 detail, scenario_server).
Proof.
  apply (refused_trade_changes_nothing scenario_offer scenario_server (scenario_lobby 40)).
  - reflexivity.
  - right. left. reflexivity.
Defined.

(** X5. The trade that [post_trade] records for an accepted request is
    between the two teams of the request and has, on each side, one entry per
    commodity named, whose quantity is the sum of the quantities of all the
    legs of the request for that commodity; every quantity is positive. *)
Theorem posted_legs_are_summed {G} req (sv : Server.t G) tr :
  (Server.post_trade req sv).1 = Server.TradeRecorded tr ->
  Trade.from_team tr = Server.req_from_team req
  ∧ Trade.to_team tr = Server.req_to_team req
  ∧ NoDup (dict_keys (Trade.give tr)) ∧ NoDup (dict_keys (Trade.receive tr))
  ∧ Forall (fun leg => 0 < leg.2) (Trade.give tr ++ Trade.receive tr)
  ∧ ∀ c, leg_qty (Trade.give tr) c = requested (Server.req_give req) c
         ∧ leg_qty (Trade.receive tr) c = requested (Server.req_receive req) c.
Proof.
  destruct (Server.game_state sv) as [gs|] eqn:Hgs.
  2:{ unfold Server.post_trade. by rewrite Hgs. }
  destruct (post_trade_books req sv gs Hgs) as (gs' & _ & _ & Hcase).
  destruct Hcase as [(tr' & give & receive & gs1 & gs2 & -> & Eg & Er & E1 & _)
                    |(detail & -> & _)]; [|done].
  intros [= <-].
  apply record_trade_Ok in E1 as (_ & _ & -> & _). simpl.
  apply legs_dict_Some in Eg as (_ & Hg & Hgn & Hgp).
  apply legs_dict_Some in Er as (_ & Hr & Hrn & Hrp).
  split_and!.
  - done.
  - done.
  - apply Hgn. constructor.
  - apply Hrn. constructor.
  - apply Forall_app. split; [by apply Hgp|by apply Hrp].
  - intros c. rewrite Hg, Hr. unfold leg_qty. simpl. lia.
Qed.

Lemma posted_legs_are_summed_witness :
  Trade.from_team (Trade.mk 1 "Team 1" "Team 2" [("A", 4)] [("B", 16)]) = "Team 1"
  ∧ Trade.to_team (Trade.mk 1 "Team 1" "Team 2" [("A", 4)] [("B", 16)]) = "Team 2"
  ∧ NoDup (dict_keys [("A", 4)]) ∧ NoDup (dict_keys [("B", 16)])
  ∧ Forall (fun leg => 0 < leg.2) ([("A", 4)] ++ [("B", 16)])
  ∧ ∀ c, leg_qty [("A", 4)] c = requested [Server.mk_leg "A" 1; Server.mk_leg "A" 3] c
         ∧ leg_qty [("B", 16)] c = requested [Server.mk_leg "B" 16] c.
Proof.
  apply (posted_legs_are_summed split_offer
           (Server.start_round "opening" scenario_server).2
           (Trade.mk 1 "Team 1" "Team 2" [("A", 4)] [("B", 16)])).
  vm_compute. reflexivity.
Defined.

(** ** The first portfolios *)

(** X6. When the portfolio generator returns (commodity names distinct), it
    has given every commodity a holding band whose lower bound is at least one
    unit, and every team holds of every commodity a quantity within that band:
    no team starts the game in breach of a band, so
    [check_min_max_violation] is false for every team. *)
Theorem starting_portfolios_within_band `{PyRandom G}
    target_value_hint gs (g : G) v gs' g' :
  NoDup (dict_keys (GameState.commodities gs)) ->
  generate_initial_portfolios_with_ranges target_value_hint gs g = (Ok v, gs', g') ->
  Forall (fun item =>
            within_holding_band (GameState.commodities gs') item.2
            ∧ check_min_max_violation gs' item.2 = false)
    (GameState.teams gs').
Proof.
  intros Hnd Eg. apply Forall_forall. intros [tname tm] Hin. simpl.
  pose proof (generate_within_band _ _ _ _ _ _ Hnd Eg tname tm Hin) as Hband.
  split; [done|]. by apply within_band_no_violation.
Qed.

Lemma starting_portfolios_within_band_witness :
  let out := generate_initial_portfolios_with_ranges (H := counting_source)
               2000000 console_lobby 0%nat in
  Forall (fun item =>
            within_holding_band (GameState.commodities out.1.2) item.2
            ∧ check_min_max_violation out.1.2 item.2 = false)
    (GameState.teams out.1.2).
Proof.
  cbv zeta.
  apply (starting_portfolios_within_band (H := counting_source) 2000000 console_lobby
           0%nat 2000000%float
           (generate_initial_portfolios_with_ranges (H := counting_source)
              2000000 console_lobby 0%nat).1.2
           (generate_initial_portfolios_with_ranges (H := counting_source)
              2000000 console_lobby 0%nat).2).
  - apply (bool_decide_unpack (NoDup (dict_keys (GameState.commodities console_lobby)))).
    vm_compute. exact I.
  - vm_compute. reflexivity.
Defined.

(** ** What [init_game] sets up *)

(** X7. When [init_game] answers that the game is initialised, the game has
    exactly the commodities of the request, in the order of the request and
    under distinct names; the base commodity is the one asked for, it is one
    of them, and it stands at ratio 1 and the fixed price; every other
    commodity stands at the ratio asked for and at the price
    BASE_PRICE / float(ratio). *)
Theorem new_game_has_the_requested_commodities `{PyRandom G} req (sv : Server.t G) n b v :
  (Server.init_game req sv).1 = Server.GameInitialized n b v ->
  ∃ gs,
    Server.game_state (Server.init_game req sv).2 = Some gs
    ∧ b = Server.req_base_commodity req
    ∧ GameState.base_commodity gs = b
    ∧ b ∈ dict_keys (GameState.commodities gs)
    ∧ dict_keys (GameState.commodities gs) = Server.ci_name <$> Server.req_commodities req
    ∧ NoDup (dict_keys (GameState.commodities gs))
    ∧ Forall2 (set_up b) (Server.req_commodities req) (GameState.commodities gs).
Proof.
  intros Hreply.
  destruct (init_game_commodities _ _ _ _ _ Hreply)
    as (gs & Hgs & Hb & _ & Hin & Hnd & Hset).
  apply init_game_Ok in Hreply as (_ & _ & _ & _ & _ & _ & Hb' & _).
  exists gs. rewrite (set_up_keys _ _ _ Hset). by split_and!.
Qed.

Lemma new_game_has_the_requested_commodities_witness :
  ∃ gs,
    Server.game_state small_game = Some gs
    ∧ "A" = Server.req_base_commodity small_request
    ∧ GameState.base_commodity gs = "A"
    ∧ "A" ∈ dict_keys (GameState.commodities gs)
    ∧ dict_keys (GameState.commodities gs)
      = Server.ci_name <$> Server.req_commodities small_request
    ∧ NoDup (dict_keys (GameState.commodities gs))
    ∧ Forall2 (set_up "A") (Server.req_commodities small_request)
        (GameState.commodities gs).
Proof.
  apply (new_game_has_the_requested_commodities (H := counting_source) small_request
           (Server.start 0%nat) 3 "A" 2000000%float).
  vm_compute. reflexivity.
Defined.

(** X8. When [init_game] answers that the game is initialised, the game has
    as many teams as asked for, named "Team 1", "Team 2", ... in this order
    (each team object carrying the name it is filed under, no name twice); no
    round has started, the journal and the list of rounds are empty, no
    penalty is recorded, and the trade counter is 0. *)
Theorem new_game_has_numbered_teams `{PyRandom G} req (sv : Server.t G) n b v :
  (Server.init_game req sv).1 = Server.GameInitialized n b v ->
  ∃ gs,
    Server.game_state (Server.init_game req sv).2 = Some gs
    ∧ n = Server.req_num_teams req ∧ 0 < n
    ∧ dict_keys (GameState.teams gs) = team_label <$> seqZ 0 n
    ∧ NoDup (dict_keys (GameState.teams gs))
    ∧ Forall (fun item => Team.name item.2 = item.1) (GameState.teams gs)
    ∧ GameState.current_round gs = 0
    ∧ GameState.trades gs = []
    ∧ GameState.rounds gs = []
    ∧ GameState.penalties_rs gs = ∅
    ∧ Server.global_trade_counter (Server.init_game req sv).2 = 0.
Proof.
  intros Hreply.
  destruct (init_game_teams _ _ _ _ _ Hreply)
    as (gs & Hgs & Hn & Hteams & Hr & Htr & Hro & Hpen & _ & Hcnt & _).
  apply init_game_Ok in Hreply as (_ & _ & _ & _ & _ & Hn' & _).
  assert (dict_keys (GameState.teams gs) = team_label <$> seqZ 0 n) as Hk.
  { unfold dict_keys. clear -Hteams.
    induction Hteams as [|i item l l' [Hk _] _ IH]; [done|].
    rewrite !fmap_cons. by f_equal. }
  exists gs. split_and!; try done.
  - rewrite Hk. apply NoDup_fmap_2; [apply team_label_inj|apply NoDup_seqZ].
  - apply Forall_forall. intros item Hin.
    apply list_elem_of_lookup in Hin as [i Hi].
    destruct (Forall2_lookup_r _ _ _ _ _ Hteams Hi) as (j & _ & H1 & H2). congruence.
Qed.

Lemma new_game_has_numbered_teams_witness :
  ∃ gs,
    Server.game_state small_game = Some gs
    ∧ 3 = Server.req_num_teams small_request ∧ 0 < 3
    ∧ dict_keys (GameState.teams gs) = team_label <$> seqZ 0 3
    ∧ NoDup (dict_keys (GameState.teams gs))
    ∧ Forall (fun item => Team.name item.2 = item.1) (GameState.teams gs)
    ∧ GameState.current_round gs = 0
    ∧ GameState.trades gs = []
    ∧ GameState.rounds gs = []
    ∧ GameState.penalties_rs gs = ∅
    ∧ Server.global_trade_counter small_game = 0.
Proof.
  apply (new_game_has_numbered_teams (H := counting_source) small_request
           (Server.start 0%nat) 3 "A" 2000000%float).
  vm_compute. reflexivity.
Defined.

(** ** While a game is played *)

(** X9. Between two initialisations the server never renames, adds or drops
    a commodity or a team and never changes the base commodity; it only
    appends to the journal and to the list of rounds, and the round number
    never goes down. *)
Theorem game_in_progress_keeps_its_cast {G} (sv sv' : Server.t G) gs :
  rtc session_step sv sv' ->
  Server.game_state sv = Some gs ->
  ∃ gs', Server.game_state sv' = Some gs' ∧ continues gs gs'.
Proof.
  intros Hrun Hgs. destruct (session_run_engine _ _ _ Hrun Hgs) as (gs' & Hgs' & Hrun').
  exists gs'. split; [done|]. by apply engine_run_continues.
Qed.

Lemma game_in_progress_keeps_its_cast_witness :
  ∃ gs',
    Server.game_state
      (Server.post_trade scenario_offer
         (Server.start_round "opening" scenario_server).2).2 = Some gs'
    ∧ continues (scenario_lobby 40) gs'.
Proof.
  apply (game_in_progress_keeps_its_cast scenario_server
           (Server.post_trade scenario_offer
              (Server.start_round "opening" scenario_server).2).2
           (scenario_lobby 40)).
  - eapply rtc_l; [apply (session_start_round "opening")|].
    apply rtc_once. apply session_post_trade.
  - reflexivity.
Defined.

(** X10. In a game set up by [init_game], whatever requests follow, the
    rounds on record are numbered 1, 2, ... up to the current round, in the
    order they were started, and every trade of the journal carries the
    number of one of these rounds. *)
Theorem rounds_are_numbered_in_order `{PyRandom G} req (sv0 sv : Server.t G) n b v :
  (Server.init_game req sv0).1 = Server.GameInitialized n b v ->
  rtc session_step (Server.init_game req sv0).2 sv ->
  ∃ gs, Server.game_state sv = Some gs ∧ rounds_numbered gs.
Proof.
  intros Hreply Hrun.
  destruct (init_game_teams _ _ _ _ _ Hreply)
    as (gs0 & Hgs0 & _ & _ & Hr & Htr & Hro & _).
  destruct (session_run_engine _ _ _ Hrun Hgs0) as (gs & Hgs & Hrun').
  exists gs. split; [done|].
  apply (engine_run_rounds_numbered gs0); [done|].
  unfold rounds_numbered. rewrite Hr, Htr, Hro. by split_and!.
Qed.

Lemma rounds_are_numbered_in_order_witness :
  ∃ gs,
    Server.game_state
      (Server.start_round "round two"
         (Server.post_trade scenario_offer
            (Server.start_round "round one" small_game).2).2).2 = Some gs
    ∧ rounds_numbered gs.
Proof.
  apply (rounds_are_numbered_in_order (H := counting_source) small_request
           (Server.start 0%nat)
           (Server.start_round "round two"
              (Server.post_trade scenario_offer
                 (Server.start_round "round one" small_game).2).2).2
           3 "A" 2000000%float).
  - vm_compute. reflexivity.
  - eapply rtc_l; [apply (session_start_round "round one")|].
    eapply rtc_l; [apply session_post_trade|].
    apply rtc_once. apply (session_start_round "round two").
Defined.

(** ** The books beside the game *)

(** X11. In a game set up by [init_game], whatever requests follow, the
    price history has one series per commodity, in the order of the
    commodities, and the snapshots of every series are indexed 0, 1, ...,
    up to the trade counter, without a gap and without a repeat. *)
Theorem price_history_is_gapless `{PyRandom G} req (sv0 sv : Server.t G) n b v :
  (Server.init_game req sv0).1 = Server.GameInitialized n b v ->
  rtc session_step (Server.init_game req sv0).2 sv ->
  ∃ gs,
    Server.game_state sv = Some gs
    ∧ 0 ≤ Server.global_trade_counter sv
    ∧ dict_keys (Server.price_history sv) = dict_keys (GameState.commodities gs)
    ∧ Forall (fun series =>
                Server.trade_index <$> series.2
                = seqZ 0 (Server.global_trade_counter sv + 1))
        (Server.price_history sv).
Proof.
  intros Hreply Hrun. apply init_game_books in Hreply.
  destruct (books_in_step_run _ _ Hrun Hreply)
    as (gs & rows & Hgs & _ & _ & Hk & H0 & Hall & _).
  exists gs. by split_and!.
Qed.

Lemma price_history_is_gapless_witness :
  let sv := (Server.post_trade scenario_offer
               (Server.start_round "round one" small_game).2).2 in
  ∃ gs,
    Server.game_state sv = Some gs
    ∧ 0 ≤ Server.global_trade_counter sv
    ∧ dict_keys (Server.price_history sv) = dict_keys (GameState.commodities gs)
    ∧ Forall (fun series =>
                Server.trade_index <$> series.2
                = seqZ 0 (Server.global_trade_counter sv + 1))
        (Server.price_history sv).
Proof.
  cbv zeta.
  apply (price_history_is_gapless (H := counting_source) small_request
           (Server.start 0%nat)
           (Server.post_trade scenario_offer
              (Server.start_round "round one" small_game).2).2
           3 "A" 2000000%float).
  - vm_compute. reflexivity.
  - eapply rtc_l; [apply (session_start_round "round one")|].
    apply rtc_once. apply session_post_trade.
Defined.

(** X12. In a game set up by [init_game], whatever requests follow, the
    Trades sheet of the spreadsheet has exactly as many rows as the trade
    counter says, and its rows are trades of the journal, in the order of the
    journal. *)
Theorem trades_sheet_follows_the_journal `{PyRandom G} req (sv0 sv : Server.t G) n b v :
  (Server.init_game req sv0).1 = Server.GameInitialized n b v ->
  rtc session_step (Server.init_game req sv0).2 sv ->
  ∃ gs rows,
    Server.game_state sv = Some gs
    ∧ Server.excel_logger sv = Some rows
    ∧ Z.of_nat (length (logged_trades rows)) = Server.global_trade_counter sv
    ∧ logged_trades rows `sublist_of` GameState.trades gs.
Proof.
  intros Hreply Hrun. apply init_game_books in Hreply.
  destruct (books_in_step_run _ _ Hrun Hreply)
    as (gs & rows & Hgs & Hrows & _ & _ & _ & _ & Hlen & Hsub).
  exists gs, rows. by split_and!.
Qed.

Lemma trades_sheet_follows_the_journal_witness :
  let sv := (Server.post_trade scenario_offer
               (Server.start_round "round one" small_game).2).2 in
  ∃ gs rows,
    Server.game_state sv = Some gs
    ∧ Server.excel_logger sv = Some rows
    ∧ Z.of_nat (length (logged_trades rows)) = Server.global_trade_counter sv
    ∧ logged_trades rows `sublist_of` GameState.trades gs.
Proof.
  cbv zeta.
  apply (trades_sheet_follows_the_journal (H := counting_source) small_request
           (Server.start 0%nat)
           (Server.post_trade scenario_offer
              (Server.start_round "round one" small_game).2).2
           3 "A" 2000000%float).
  - vm_compute. reflexivity.
  - eapply rtc_l; [apply (session_start_round "round one")|].
    apply rtc_once. apply session_post_trade.
Defined.

(** ** Prices and ratios over a game *)

(** X13. Recomputing the prices is idempotent: when
    [update_prices_from_ratios] has returned, running it again returns as
    well and changes nothing, neither a ratio nor a price. *)
Theorem repricing_is_idempotent gs gs' :
  update_prices_from_ratios gs = (Ok tt, gs') ->
  update_prices_from_ratios gs' = (Ok tt, gs').
Proof.
  unfold update_prices_from_ratios. case_decide as Hb.
  { intros [= <-]. by rewrite decide_True. }
  destruct (dict_for_each _ _) as [r cs] eqn:E. intros [= -> <-]. simpl.
  rewrite decide_False by done.
  rewrite dict_for_each_fixed; [by destruct gs|].
  apply dict_for_each_Ok_Forall2 in E.
  apply Forall_forall. intros [k c'] Hin.
  apply list_elem_of_lookup in Hin as [i Hi].
  destruct (Forall2_lookup_r _ _ _ _ _ E Hi) as ([k0 c0] & _ & Hk & Hbody).
  simpl in *. subst k. by eapply price_commodity_fixed.
Qed.

Lemma repricing_is_idempotent_witness :
  update_prices_from_ratios (update_prices_from_ratios console_state).2
  = (Ok tt, (update_prices_from_ratios console_state).2).
Proof.
  apply (repricing_is_idempotent console_state
           (update_prices_from_ratios console_state).2).
  vm_compute. reflexivity.
Defined.

(** X14. In a game set up by [init_game], whatever requests follow (ratio
    updates that raise half-way included), every commodity keeps a ratio of at
    least 1. *)
Theorem ratios_stay_positive `{PyRandom G} req (sv0 sv : Server.t G) n b v :
  (Server.init_game req sv0).1 = Server.GameInitialized n b v ->
  rtc session_step (Server.init_game req sv0).2 sv ->
  ∃ gs, Server.game_state sv = Some gs ∧ ratios_positive (GameState.commodities gs).
Proof.
  intros Hreply Hrun.
  destruct (init_game_teams _ _ _ _ _ Hreply) as (gs0 & Hgs0 & _).
  destruct (session_run_engine _ _ _ Hrun Hgs0) as (gs & Hgs & Hrun').
  exists gs. split; [done|].
  apply (engine_run_ratios_positive gs0); [done|].
  by eapply init_game_ratios_positive.
Qed.

Lemma ratios_stay_positive_witness :
  ∃ gs,
    Server.game_state
      (Server.post_trade scenario_offer
         (Server.start_round "round one" small_game).2).2 = Some gs
    ∧ ratios_positive (GameState.commodities gs).
Proof.
  apply (ratios_stay_positive (H := counting_source) small_request (Server.start 0%nat)
           (Server.post_trade scenario_offer
              (Server.start_round "round one" small_game).2).2
           3 "A" 2000000%float).
  - vm_compute. reflexivity.
  - eapply rtc_l; [apply (session_start_round "round one")|].
    apply rtc_once. apply session_post_trade.
Defined.

(** X15. The net demand of a round only depends on the trades of that
    round: the trades of the other rounds can be struck from the journal
    without changing it. In particular, for a round without a trade the net
    demand is 0.0 for every commodity (names distinct), in the order of the
    commodities, and has no other entry. *)
Theorem net_demand_is_per_round gs round_no :
  compute_net_demand gs round_no
  = compute_net_demand
      (GameState.with_trades
         (filter (fun tr => Trade.round_no tr = round_no) (GameState.trades gs)) gs)
      round_no
  ∧ (NoDup (dict_keys (GameState.commodities gs)) ->
     Forall (fun tr => Trade.round_no tr ≠ round_no) (GameState.trades gs) ->
     compute_net_demand gs round_no
     = Ok ((fun cname => (cname, 0%float)) <$> dict_keys (GameState.commodities gs))).
Proof.
  unfold compute_net_demand. split.
  - simpl. apply net_trades_filter.
  - intros Hnd Hnone. rewrite net_trades_filter.
    replace (filter _ (GameState.trades gs)) with (@nil Trade.t).
    2:{ symmetry. induction Hnone as [|tr l Htr _ IH]; [done|].
        by rewrite filter_cons_False. }
    simpl. f_equal.
    rewrite (foldl_dict_set_fresh id (fun _ => 0%float)); [done| |].
    + by rewrite list_fmap_id.
    + intros x _ Hin. by apply elem_of_nil in Hin.
Qed.

(** ** Requests the server turns down *)

(** X16. [init_game] answers 400 exactly when the request asks for no team
    or fewer, lists no commodity, lists a commodity with a ratio that is not
    positive, lists a name twice, or names a base commodity that is not
    listed; and then nothing changes: a game in progress goes on as before. *)
Theorem init_game_turns_down_bad_requests `{PyRandom G} req (sv : Server.t G) :
  ((∃ detail, (Server.init_game req sv).1 = Server.Http400 detail)
   <-> (Server.req_num_teams req ≤ 0
        ∨ Server.req_commodities req = []
        ∨ Exists (fun ci => Server.ci_ratio ci ≤ 0) (Server.req_commodities req)
        ∨ ¬ NoDup (Server.ci_name <$> Server.req_commodities req)
        ∨ Server.req_base_commodity req ∉ Server.ci_name <$> Server.req_commodities req))
  ∧ ((∃ detail, (Server.init_game req sv).1 = Server.Http400 detail) ->
     (Server.init_game req sv).2 = sv).
Proof.
  unfold Server.init_game.
  destruct (Z.leb_spec (Server.req_num_teams req) 0) as [Hn|Hn].
  { split; [|done]. split; [by left|eauto]. }
  destruct (Server.req_commodities req) as [|ci0 cis] eqn:Ereq.
  { split; [|done]. split; [right; by left|eauto]. }
  rewrite <- Ereq.
  destruct (Server.add_commodities _ _) as [detail|cs] eqn:Ecs.
  { split; [|done]. split; [|eauto]. intros _.
    apply add_commodities_inl in Ecs as [Hex|Hdup]; [by do 2 right; left|].
    by do 3 right; left. }
  apply add_commodities_inr in Ecs as (-> & Hpos & Hnd). simpl in *.
  specialize (Hnd (NoDup_nil_2)). unfold dict_keys in Hnd.
  rewrite <- list_fmap_compose in Hnd.
  destruct (dict_get _ _) as [cbase|] eqn:Eb.
  2:{ split; [|done]. split; [|eauto]. intros _. do 4 right.
      apply dict_get_None in Eb. unfold dict_keys in Eb.
      by rewrite <- list_fmap_compose in Eb. }
  assert (¬ (Server.req_num_teams req ≤ 0
             ∨ Server.req_commodities req = []
             ∨ Exists (fun ci => Server.ci_ratio ci ≤ 0) (Server.req_commodities req)
             ∨ ¬ NoDup (Server.ci_name <$> Server.req_commodities req)
             ∨ Server.req_base_commodity req
               ∉ Server.ci_name <$> Server.req_commodities req)) as Hgood.
  { intros [?|[?|[Hex|[?|Hb]]]]; [lia|congruence| |done|].
    - apply Exists_exists in Hex as (ci & Hin & Hle).
      apply (proj1 (Forall_forall _ _) Hpos) in Hin. lia.
    - apply Hb. assert (is_Some (dict_get (Server.req_base_commodity req)
                                   (commodity_of <$> Server.req_commodities req))) as Hs
        by by rewrite Eb.
      apply dict_get_is_Some in Hs. unfold dict_keys in Hs.
      by rewrite <- list_fmap_compose in Hs. }
  destruct (update_prices_from_ratios _) as [[[]|e] lobby].
  2:{ split; [split; [intros [? ?]; done|done]|intros [? ?]; done]. }
  destruct (generate_initial_portfolios_with_ranges _ _ _) as [[[v|e] gs] g].
  - split; [split; [intros [? ?]; done|done]|intros [? ?]; done].
  - split; [split; [intros [? ?]; done|done]|intros [? ?]; done].
Qed.

(** X17. Before a game is initialised, starting a round, posting a trade
    and ending a round are all answered with 400 and the same detail, and
    change nothing. Once there is a game, a 400 answer to starting or ending
    a round still means that nothing has changed. *)
Theorem round_requests_without_effect {G} (sv : Server.t G) :
  (Server.game_state sv = None ->
   ∀ news req,
     Server.start_round news sv = (Server.Http400 not_initialized, sv)
     ∧ Server.post_trade req sv = (Server.Http400 not_initialized, sv)
     ∧ Server.end_round sv = (Server.Http400 not_initialized, sv))
  ∧ (∀ news detail,
       (Server.start_round news sv).1 = Server.Http400 detail ->
       (Server.start_round news sv).2 = sv)
  ∧ (∀ detail,
       (Server.end_round sv).1 = Server.Http400 detail -> (Server.end_round sv).2 = sv).
Proof.
  split_and!.
  - intros Hgs news req.
    unfold Server.start_round, Server.post_trade, Server.end_round. by rewrite Hgs.
  - intros news detail. unfold Server.start_round.
    by destruct (Server.game_state sv).
  - intros detail. unfold Server.end_round.
    destruct (Server.game_state sv) as [gs|]; [|done].
    destruct (_ =? 0); [done|]. case_bool_decide; [done|].
    by destruct (apply_round_penalties _ _ _ _) as [[[]|e] gs1].
Qed.

(** ** Closing a round within one game *)

(** X18. In a server process that has recorded no round as ended, and in
    which the game has not been initialised again since, start a round, post
    any trades, and call end-round: the answer is never "already ended" (the
    penalties are run). If the answer is that the round has ended, then after
    any further trades another end-round call for it is answered "already
    ended" and changes nothing. *)
Theorem round_closes_once_in_a_game {G} (sv0 sv : Server.t G) news reqs1 reqs2 :
  Server.ended_rounds sv0 = ∅ ->
  rtc session_step sv0 sv ->
  let post := foldl (fun s req => (Server.post_trade req s).2) in
  let sv1 := post (Server.start_round news sv).2 reqs1 in
  let sv2 := post (Server.end_round sv1).2 reqs2 in
  (∀ n, (Server.end_round sv1).1 ≠ Server.RoundAlreadyEnded n)
  ∧ (∀ n, (Server.end_round sv1).1 = Server.RoundEnded n ->
          Server.end_round sv2 = (Server.RoundAlreadyEnded n, sv2)).
Proof.
  intros Hempty Hrun post sv1 sv2.
  assert (ended_rounds_ok sv) as Hok.
  { eapply ended_rounds_ok_run; [|exact Hrun].
    intros gs' n _. rewrite Hempty. by intros ?%not_elem_of_empty. }
  destruct (post_trades_round reqs1 (Server.start_round news sv).2) as (He1 & Hr1 & _).
  fold post in He1, Hr1. fold sv1 in He1, Hr1.
  destruct (post_trades_round reqs2 (Server.end_round sv1).2) as (He2 & Hr2 & _).
  fold post in He2, Hr2. fold sv2 in He2, Hr2.
  assert (Server.ended_rounds (Server.start_round news sv).2 = Server.ended_rounds sv)
    as He0.
  { unfold Server.start_round. by destruct (Server.game_state sv). }
  assert (∀ gs1, Server.game_state sv1 = Some gs1 ->
                 GameState.current_round gs1 ∉ Server.ended_rounds sv1) as Hopen'.
  { intros gs1 Egs1. rewrite He1, He0. revert Hr1. rewrite Egs1. unfold Server.start_round.
    destruct (Server.game_state sv) as [gs|] eqn:Egs; simpl; [|by rewrite Egs].
    intros [= ->] Hin. specialize (Hok gs _ Egs Hin). lia. }
  clearbody sv1. clear Hr1.
  remember (Server.end_round sv1) as out eqn:Eout.
  destruct (Server.game_state sv1) as [gs1|] eqn:Egs1.
  2:{ unfold Server.end_round in Eout. rewrite Egs1 in Eout. subst out. simpl.
      split; intros m; discriminate. }
  destruct (decide (GameState.current_round gs1 = 0)) as [H0|H0].
  { unfold Server.end_round in Eout. rewrite Egs1, H0 in Eout. subst out. simpl.
    split; intros m; discriminate. }
  destruct (apply_round_penalties (GameState.current_round gs1) default_penalty_rate
              default_penalty_rate gs1) as [r gs2] eqn:Ep.
  destruct r as [[]|e].
  2:{ unfold Server.end_round in Eout. rewrite Egs1 in Eout.
      destruct (Z.eqb_spec (GameState.current_round gs1) 0); [done|].
      rewrite bool_decide_eq_false_2 in Eout by (by apply Hopen').
      rewrite Ep in Eout. subst out. simpl.
      split; intros m; discriminate. }
  rewrite (end_round_first sv1 gs1 gs2 Egs1 H0 (Hopen' gs1 eq_refl) Ep) in Eout. subst out.
  simpl in *. split; [intros m; discriminate|]. intros m [= <-].
  apply apply_round_penalties_frame in Ep as (_ & _ & _ & _ & _ & Hc & _).
  destruct (Server.game_state sv2) as [gs3|] eqn:Egs3; [|done].
  simpl in Hr2. injection Hr2 as Hr2. rewrite Hc in Hr2. rewrite <- Hr2.
  apply end_round_again; [done|lia|]. rewrite He2, Hr2.
  apply elem_of_union. left. by apply elem_of_singleton.
Qed.

Lemma round_closes_once_in_a_game_witness :
  let post := foldl (fun s req => (Server.post_trade (G := nat) req s).2) in
  let sv1 := post (Server.start_round "round one" small_game).2 [scenario_offer] in
  let sv2 := post (Server.end_round sv1).2 [split_offer] in
  (∀ n, (Server.end_round sv1).1 ≠ Server.RoundAlreadyEnded n)
  ∧ (∀ n, (Server.end_round sv1).1 = Server.RoundEnded n ->
          Server.end_round sv2 = (Server.RoundAlreadyEnded n, sv2)).
Proof.
  apply (round_closes_once_in_a_game small_game small_game "round one"
           [scenario_offer] [split_offer]).
  - reflexivity.
  - apply rtc_refl.
Defined.

(** ** The trades the server lists *)

Lemma trade_rows_spec round idx journal i tr :
  Views.mk_row i tr ∈ Views.trade_rows round idx journal
  ↔ idx < i ∧ journal !! Z.to_nat (i - idx - 1) = Some tr
    ∧ ∀ r, round = Some r -> Trade.round_no tr = r.
Proof.
  revert idx. induction journal as [|tr0 journal IH]; intros idx.
  { simpl. split; [by intros ?%elem_of_nil|by intros (_ & ? & _)]. }
  assert (Views.mk_row i tr ∈ Views.trade_rows round (idx + 1) journal
          ↔ idx + 1 < i ∧ (tr0 :: journal) !! Z.to_nat (i - idx - 1) = Some tr
            ∧ ∀ r, round = Some r -> Trade.round_no tr = r) as Hrest.
  { rewrite IH. split; intros (Hi & Hl & Hr); split_and!; try done.
    - replace (Z.to_nat (i - idx - 1)) with (S (Z.to_nat (i - (idx + 1) - 1))) by lia.
      done.
    - replace (Z.to_nat (i - idx - 1)) with (S (Z.to_nat (i - (idx + 1) - 1))) in Hl by lia.
      done. }
  assert (Views.mk_row i tr = Views.mk_row (idx + 1) tr0
          ↔ idx < i ∧ ¬ idx + 1 < i
            ∧ (tr0 :: journal) !! Z.to_nat (i - idx - 1) = Some tr) as Hhead.
  { split.
    - intros [= -> ->]. split_and!; [lia|lia|].
      by replace (Z.to_nat (idx + 1 - idx - 1)) with 0%nat by lia.
    - intros (H1 & H2 & Hl). assert (i = idx + 1) as -> by lia.
      replace (Z.to_nat (idx + 1 - idx - 1)) with 0%nat in Hl by lia.
      by injection Hl as ->. }
  simpl. destruct round as [r|].
  - case_bool_decide as Hr.
    + rewrite Hrest. split; [intros (? & ? & ?); split_and!; [lia|done..]|].
      intros (Hi & Hl & Hround). split_and!; [|done..].
      destruct (decide (idx + 1 < i)); [done|].
      assert (Views.mk_row i tr = Views.mk_row (idx + 1) tr0) as [= _ ->]
        by (by apply Hhead).
      destruct Hr. by apply Hround.
    + rewrite elem_of_cons, Hrest, Hhead. split.
      * intros [(? & ? & ?)|(? & ? & ?)]; split_and!; try done; try lia.
        intros r' [= <-].
        assert (Views.mk_row i tr = Views.mk_row (idx + 1) tr0) as [= _ ->]
          by (by apply Hhead).
        done.
      * intros (Hi & Hl & Hround).
        destruct (decide (idx + 1 < i)); [right|left]; done.
  - rewrite elem_of_cons, Hrest, Hhead. split.
    + intros [(? & ? & ?)|(? & ? & ?)]; split_and!; try done; lia.
    + intros (Hi & Hl & Hround).
      destruct (decide (idx + 1 < i)); [right|left]; done.
Qed.

Lemma trade_rows_lower round idx journal :
  Forall (fun row => idx < Views.index row) (Views.trade_rows round idx journal).
Proof.
  revert idx. induction journal as [|tr0 journal IH]; intros idx; simpl; [constructor|].
  assert (Forall (fun row => idx < Views.index row)
            (Views.trade_rows round (idx + 1) journal)) as Hrest.
  { eapply Forall_impl; [apply IH|]. simpl. intros; lia. }
  destruct round as [r|]; [case_bool_decide|]; try done.
  all: constructor; simpl; [lia|done].
Qed.

Lemma trade_rows_sorted round idx journal :
  StronglySorted Z.lt (Views.index <$> Views.trade_rows round idx journal).
Proof.
  revert idx. induction journal as [|tr0 journal IH]; intros idx; simpl; [constructor|].
  destruct round as [r|]; [case_bool_decide|]; try apply IH.
  all: rewrite fmap_cons; constructor; [apply IH|].
  all: apply Forall_fmap; eapply Forall_impl; [apply trade_rows_lower|]; done.
Qed.

(** ** The leaderboard *)

Lemma SFcompare_antisym x y : SFcompare y x = option_map CompOpp (SFcompare x y).
Proof.
  destruct x as [sx| sx| |sx mx ex], y as [sy|sy| |sy my ey]; simpl; try done.
  all: try (by destruct sx); try (by destruct sy); try (by destruct sx, sy).
  assert (PosDef.Pos.compare_cont Eq my mx = CompOpp (PosDef.Pos.compare_cont Eq mx my))
    as Ha by (symmetry; exact (Pos.compare_cont_antisym mx my Eq)).
  rewrite (Z.compare_antisym ex ey).
  destruct sx, sy; try done.
  all: destruct (ex ?= ey)%Z; simpl; try done.
  all: rewrite Ha; by destruct (PosDef.Pos.compare_cont Eq mx my).
Qed.

Lemma float_ltb_asym (x y : float) : (x <? y)%float = true -> (y <? x)%float = false.
Proof.
  rewrite !ltb_spec. unfold SFltb.
  rewrite (SFcompare_antisym (Prim2SF x) (Prim2SF y)).
  by destruct (SFcompare (Prim2SF x) (Prim2SF y)) as [[]|].
Qed.

Lemma float_not_ltb_geb (x y : float) :
  is_nan x = false -> is_nan y = false ->
  (x <? y)%float = false -> (y <=? x)%float = true.
Proof.
  unfold is_nan. rewrite !FloatAxioms.eqb_spec, ltb_spec, leb_spec. unfold SFeqb, SFltb, SFleb.
  rewrite (SFcompare_antisym (Prim2SF x) (Prim2SF y)).
  destruct (Prim2SF x) as [sx|sx| |sx mx ex] eqn:Ex; try done;
    destruct (Prim2SF y) as [sy|sy| |sy my ey] eqn:Ey; try done.
  all: intros _ _; destruct (SFcompare _ _) as [[]|] eqn:Ec; try done.
  all: revert Ec; simpl; try (by destruct sx); try (by destruct sy);
    by destruct sx, sy.
Qed.

Lemma insert_desc_perm {A} (x : float * A) l : insert_desc x l ≡ₚ x :: l.
Proof.
  induction l as [|y l IH]; simpl; [done|].
  destruct (x.1 <? y.1)%float; [|done]. by rewrite IH, Permutation_swap.
Qed.

Lemma sorted_desc_perm {A} (l : list (float * A)) : sorted_desc l ≡ₚ l.
Proof.
  induction l as [|x l IH]; simpl; [done|]. by rewrite insert_desc_perm, IH.
Qed.

Lemma insert_desc_sorted {A} (x : float * A) l :
  Sorted (fun a b => (a.1 <? b.1)%float = false) l ->
  Sorted (fun a b => (a.1 <? b.1)%float = false) (insert_desc x l).
Proof.
  induction 1 as [|y l Hs IH Hhd]; simpl; [by repeat constructor|].
  destruct (x.1 <? y.1)%float eqn:E.
  - constructor; [done|]. destruct Hhd as [|z l Hz]; simpl.
    + constructor. by apply float_ltb_asym.
    + destruct (x.1 <? z.1)%float; constructor; [done|]. by apply float_ltb_asym.
  - constructor; [by constructor|]. by constructor.
Qed.

Lemma sorted_desc_sorted {A} (l : list (float * A)) :
  Sorted (fun a b => (a.1 <? b.1)%float = false) (sorted_desc l).
Proof.
  induction l as [|x l IH]; simpl; [constructor|]. by apply insert_desc_sorted.
Qed.

Lemma keyed_spec gs tms items :
  keyed gs tms = Ok items ->
  items.*2 = tms ∧ Forall (fun it => effective_value gs it.2 = Ok it.1) items.
Proof.
  revert items. induction tms as [|tm tms IH]; intros items; simpl.
  { intros [= <-]. by split. }
  destruct (effective_value gs tm) as [key|e] eqn:Ek; [|done].
  destruct (keyed gs tms) as [rest|e]; [|done].
  intros [= <-]. destruct (IH rest eq_refl) as [Hr Hf].
  split; [by rewrite fmap_cons, Hr|]. by constructor.
Qed.

(** ** Teams keep their names *)

Lemma team_set_qty_named ts tname cname q :
  teams_named ts -> teams_named (team_set_qty ts tname cname q).
Proof.
  intros Hn. unfold team_set_qty.
  destruct (dict_get tname ts) as [tm|] eqn:E; [|done].
  apply Forall_dict_set; [done|]. simpl.
  apply dict_get_Some_elem in E.
  by apply (proj1 (Forall_forall _ _) Hn _ E).
Qed.

Lemma transfer_legs_named src dst legs ts r ts' :
  teams_named ts -> transfer_legs src dst legs ts = (r, ts') -> teams_named ts'.
Proof.
  revert ts. induction legs as [|[cname qty] legs IH]; intros ts Hts; simpl.
  { by intros [= _ <-]. }
  destruct (Z.ltb_spec qty 0); [by intros [= _ <-]|].
  destruct (Z.ltb_spec (team_qty ts src cname) qty); [by intros [= _ <-]|].
  apply IH. by do 2 apply team_set_qty_named.
Qed.

Lemma record_trade_named from_team to_team give receive gs r gs' :
  teams_named (GameState.teams gs) ->
  record_trade from_team to_team give receive gs = (r, gs') ->
  teams_named (GameState.teams gs').
Proof.
  intros Hts. unfold record_trade.
  destruct (_ =? 0); [by intros [= _ <-]|].
  destruct (pair_taken _ _ _ _); [by intros [= _ <-]|].
  destruct (apply_trade _ _) as [r1 ts] eqn:Ea.
  assert (teams_named ts) as Hts'.
  { revert Ea. unfold apply_trade. simpl.
    destruct (dict_get from_team _); [|by intros [= _ <-]].
    destruct (dict_get to_team _); [|by intros [= _ <-]].
    destruct (transfer_legs from_team to_team give _) as [r2 ts1] eqn:E1.
    apply transfer_legs_named in E1; [|done].
    destruct r2 as [[]|e]; [|by intros [= _ <-]].
    intros E2. by apply transfer_legs_named in E2. }
  destruct r1 as [[]|e]; by intros [= _ <-].
Qed.

Lemma engine_run_named gs gs' :
  rtc engine_step gs gs' ->
  teams_named (GameState.teams gs) -> teams_named (GameState.teams gs').
Proof.
  induction 1 as [gs|gs gs1 gs' Hstep _ IH]; [done|].
  intros Hts. apply IH.
  apply engine_step_teams_or_trade in Hstep as [->|(f & t & g & rc & r & E)]; [done|].
  by eapply record_trade_named.
Qed.

Lemma Sorted_keys {A} (R : float -> float -> Prop) (P : float -> Prop)
    (R' : float -> float -> Prop) (l : list (float * A)) :
  (∀ a b, P a -> P b -> R a b -> R' a b) ->
  Forall (fun it => P it.1) l ->
  Sorted (fun a b => R a.1 b.1) l -> Sorted R' l.*1.
Proof.
  intros HR HP Hs. induction Hs as [|a l Hs IH Hhd]; [constructor|].
  apply Forall_cons in HP as [Ha HP]. rewrite fmap_cons.
  constructor; [by apply IH|].
  destruct Hhd as [|b l Hab]; [constructor|].
  apply Forall_cons in HP as [Hb _]. rewrite fmap_cons. constructor. by apply HR.
Qed.

Lemma keys_checked gs tms :
  forallb (fun tm => match effective_value gs tm with
                     | Ok key => negb (is_nan key)
                     | Raise _ => true
                     end) tms = true ->
  Forall (fun tm => ∀ key, effective_value gs tm = Ok key -> is_nan key = false) tms.
Proof.
  intros Hall. apply Forall_forall. intros tm Hin key Hkey.
  apply list_elem_of_In in Hin.
  apply (proj1 (forallb_forall _ _) Hall) in Hin. rewrite Hkey in Hin.
  by apply negb_true_iff.
Qed.

(** ** The detail of a failed trade *)

(** A trade that names a team the game does not have fails with the
    [KeyError] of the team store, and the detail of the 400 shows the name as
    [str] shows a [KeyError]: quoted as by [repr]. *)
Example unknown_team_detail :
  (Server.post_trade
     (Server.mk_trade "Team 9" "Team 2" [Server.mk_leg "A" 1] [])
     (Server.start_round "opening" scenario_server).2).1
  = Server.Http400 "Trade processing failed: 'Team 9'"
  ∧ py_repr "it's" = String double_quote ("it's" +:+ String double_quote "")
  ∧ py_repr "a\b" = "'a\\b'".
Proof. split_and!; vm_compute; reflexivity. Qed.

(** ** What the server shows *)

(** X19. Once a game is initialised, [GET /state/trades] answers with the
    trades of the journal in journal order, each under its position in the
    journal counted from 1: with a round given, exactly the trades recorded in
    that round, without one, all of them. *)
Theorem trades_are_listed_by_round {G} round (sv : Server.t G) rows :
  Views.get_trades round sv = inr rows ->
  ∃ gs,
    Server.game_state sv = Some gs
    ∧ StronglySorted Z.lt (Views.index <$> rows)
    ∧ ∀ i tr,
        Views.mk_row i tr ∈ rows
        ↔ 1 ≤ i ∧ GameState.trades gs !! Z.to_nat (i - 1) = Some tr
          ∧ ∀ r, round = Some r -> Trade.round_no tr = r.
Proof.
  unfold Views.get_trades. destruct (Server.game_state sv) as [gs|]; [|done].
  intros [= <-]. exists gs. split_and!; [done|apply trade_rows_sorted|].
  intros i tr. rewrite trade_rows_spec.
  replace (i - 0 - 1) with (i - 1) by lia.
  split; intros (? & ? & ?); split_and!; try done; lia.
Qed.

Lemma trades_are_listed_by_round_witness :
  ∃ gs,
    Server.game_state
      (Server.post_trade scenario_offer (Server.start_round "round one" small_game).2).2
    = Some gs
    ∧ StronglySorted Z.lt
        (Views.index
           <$> [Views.mk_row 1 (Trade.mk 1 "Team 1" "Team 2" [("A", 4)] [("B", 16)])])
    ∧ ∀ i tr,
        Views.mk_row i tr
          ∈ [Views.mk_row 1 (Trade.mk 1 "Team 1" "Team 2" [("A", 4)] [("B", 16)])]
        ↔ 1 ≤ i ∧ GameState.trades gs !! Z.to_nat (i - 1) = Some tr
          ∧ ∀ r, Some 1 = Some r -> Trade.round_no tr = r.
Proof.
  apply (trades_are_listed_by_round (Some 1)
           (Server.post_trade scenario_offer
              (Server.start_round "round one" small_game).2).2).
  vm_compute. reflexivity.
Defined.

(** X20. When [leaderboard] returns and no team's effective value is NaN,
    its list holds every team exactly once, and from one team to the next
    the effective value (the rupee value of the holdings minus the penalties
    under the team's name) does not go up. *)
Theorem leaderboard_ranks_every_team gs board :
  leaderboard gs = Ok board ->
  Forall (fun tm => ∀ key, effective_value gs tm = Ok key -> is_nan key = false)
    (dict_values (GameState.teams gs)) ->
  board ≡ₚ dict_values (GameState.teams gs)
  ∧ ∃ keys,
      Forall2 (fun tm key => effective_value gs tm = Ok key) board keys
      ∧ Sorted (fun a b => (b <=? a)%float = true) keys.
Proof.
  unfold leaderboard.
  destruct (keyed gs (dict_values (GameState.teams gs))) as [items|e] eqn:Ek; [|done].
  intros [= <-] Hnan. apply keyed_spec in Ek as [Htms Hkeys].
  pose proof (sorted_desc_perm items) as Hperm.
  split; [by rewrite Hperm, Htms|].
  exists (sorted_desc items).*1. split.
  - apply Forall2_fmap, Forall_Forall2_diag. by rewrite Hperm.
  - apply (Sorted_keys (fun a b => (a <? b)%float = false) (fun a => is_nan a = false)).
    + intros a b Ha Hb Hab. by apply float_not_ltb_geb.
    + rewrite Hperm. apply Forall_forall. intros [key tm] Hin. simpl.
      apply (proj1 (Forall_forall _ _) Hnan tm).
      * rewrite <- Htms. by apply (list_elem_of_fmap_2 snd) in Hin.
      * by apply (proj1 (Forall_forall _ _) Hkeys) in Hin.
    + apply sorted_desc_sorted.
Qed.

Lemma leaderboard_ranks_every_team_witness :
  let gs := default GameState.new (Server.game_state ranked_game) in
  let board := match leaderboard gs with Ok board => board | Raise _ => [] end in
  (Team.name <$> dict_values (GameState.teams gs) = ["Team 1"; "Team 2"; "Team 3"]
   ∧ Team.name <$> board = ["Team 2"; "Team 1"; "Team 3"]
   ∧ effective_value gs <$> board
     = [Ok 2099000%float; Ok 1901000%float; Ok 1800000%float])
  ∧ board ≡ₚ dict_values (GameState.teams gs)
  ∧ ∃ keys,
      Forall2 (fun tm key => effective_value gs tm = Ok key) board keys
      ∧ Sorted (fun a b => (b <=? a)%float = true) keys.
Proof.
  cbv zeta. split; [split_and!; vm_compute; reflexivity|].
  apply (leaderboard_ranks_every_team
           (default GameState.new (Server.game_state ranked_game))
           (match leaderboard (default GameState.new (Server.game_state ranked_game)) with
            | Ok board => board
            | Raise _ => []
            end)).
  - vm_compute. reflexivity.
  - apply keys_checked. vm_compute. reflexivity.
Defined.

(** X21. In a game set up by [init_game], whatever requests follow, every
    team stays filed under its own name: the penalties the leaderboard looks
    up under [team.name] are the ones [apply_round_penalties] charged under
    the team's key. *)
Theorem teams_keep_their_names `{PyRandom G} req (sv0 sv : Server.t G) n b v gs :
  (Server.init_game req sv0).1 = Server.GameInitialized n b v ->
  rtc session_step (Server.init_game req sv0).2 sv ->
  Server.game_state sv = Some gs ->
  teams_named (GameState.teams gs).
Proof.
  intros Hreply Hrun Hgs.
  destruct (init_game_teams _ _ _ _ _ Hreply) as (gs0 & Hgs0 & _ & Hteams & _).
  destruct (session_run_engine _ _ _ Hrun Hgs0) as (gs' & Hgs' & Hrun').
  assert (gs' = gs) as -> by congruence.
  apply (engine_run_named gs0); [done|].
  apply Forall_forall. intros item Hin.
  apply list_elem_of_lookup in Hin as [i Hi].
  destruct (Forall2_lookup_r _ _ _ _ _ Hteams Hi) as (j & _ & -> & ->). done.
Qed.

Lemma teams_keep_their_names_witness :
  teams_named
    (GameState.teams
       (default GameState.new
          (Server.game_state
             (Server.end_round
                (Server.post_trade scenario_offer
                   (Server.start_round "round one" small_game).2).2).2))).
Proof.
  apply (teams_keep_their_names (H := counting_source) small_request (Server.start 0%nat)
           (Server.end_round
              (Server.post_trade scenario_offer
                 (Server.start_round "round one" small_game).2).2).2
           3 "A" 2000000%float).
  - vm_compute. reflexivity.
  - eapply rtc_l; [apply (session_start_round "round one")|].
    eapply rtc_l; [apply session_post_trade|].
    apply rtc_once. apply session_end_round.
  - vm_compute. reflexivity.
Defined.
